(** * GalaXC network: aggregators, graph encoders and the sharded classifier

    A shallow embedding of [src/network.py].  Tensors of rank two are
    matrices given by their rows together with an explicit column count (so
    that a matrix without rows still has a width, as in torch).  Entries are
    exact rationals; the aggregators are given a second time over binary32
    numbers ([Float32]), for what depends on rounding.  Python exceptions
    are values of [error]; every operation that can raise returns a
    [result].  Moving tensors between devices ([.to(device)]) changes no
    value and is left out. *)

From Stdlib Require Import ZArith QArith Qfield Qabs Qpower Lia Lqa.
From stdpp Require Import base tactics option list strings gmap.

Local Open Scope Z_scope.

(** ** Exceptions *)

Inductive error : Type :=
  | ShapeError          (* RuntimeError: shapes/sizes that do not fit *)
  | NegativeDimension   (* RuntimeError: tensor with a negative dimension *)
  | IndexError
  | AttributeError
  | AssertionError
  | ZeroDivisionError.

Inductive result (A : Type) : Type :=
  | Ok (a : A)
  | Err (e : error).
Arguments Ok {A} a.
Arguments Err {A} e.

#[global] Instance result_ret : MRet result := fun A a => Ok a.
#[global] Instance result_bind : MBind result := fun A B f m =>
  match m with
  | Ok a => f a
  | Err e => Err e
  end.

Definition is_ok {A} (r : result A) : bool :=
  match r with Ok _ => true | Err _ => false end.

(** [for x in xs: out.append(f(x))], stopping at the first exception. *)
Fixpoint for_each {A B} (f : A → result B) (xs : list A) : result (list B) :=
  match xs with
  | [] => Ok []
  | x :: xs' => y ← f x; ys ← for_each f xs'; Ok (y :: ys)
  end.

(** ** The partition table of [LinearDistributed.__init__] *)

(** [math.ceil(a / b)] for a positive divisor. *)
Definition ceil_div (a b : Z) : Z := - ((- a) `div` b).

Definition partition_range (partition_size output_size : Z) (i : nat) : Z * Z :=
  let _start := Z.of_nat i * partition_size in
  let _end := Z.min (_start + partition_size) output_size in
  (_start, _end).

Definition build_partition_indices
    (partition_size output_size : Z) (num_partitions : nat) : list (Z * Z) :=
  map (partition_range partition_size output_size) (seq 0 num_partitions).

Definition partition_table (output_size : Z) (num_partitions : nat) : list (Z * Z) :=
  build_partition_indices
    (ceil_div output_size (Z.of_nat num_partitions)) output_size num_partitions.

Definition shard_size (r : Z * Z) : Z := r.2 - r.1.

Definition sum_sizes (t : list (Z * Z)) : Z := foldr (λ r acc, shard_size r + acc) 0 t.

(** Half-open ranges that follow one another from [lo] up to [hi]. *)
Fixpoint contiguous_from (lo hi : Z) (t : list (Z * Z)) : Prop :=
  match t with
  | [] => lo = hi
  | r :: t' => r.1 = lo ∧ r.1 ≤ r.2 ∧ contiguous_from r.2 hi t'
  end.

(** [x] belongs to the range number [i] of the table. *)
Definition in_range (t : list (Z * Z)) (i : nat) (x : Z) : Prop :=
  ∃ r, t !! i = Some r ∧ r.1 ≤ x < r.2.

(** The invariant claimed for the table: contiguous, pairwise disjoint,
    covering exactly [0, num_labels), sizes adding up to [num_labels]. *)
Definition exact_partition (num_labels : Z) (t : list (Z * Z)) : Prop :=
  contiguous_from 0 num_labels t ∧
  (∀ i j x, in_range t i x → in_range t j x → i = j) ∧
  (∀ x, 0 ≤ x < num_labels ↔ ∃ i, in_range t i x) ∧
  sum_sizes t = num_labels.

(** ** Matrices (rank-two tensors) *)

Record Matrix : Type := mkMatrix { ncols : nat; rows : list (list Q) }.

Definition nrows (m : Matrix) : nat := length (rows m).

Definition wf_matrix (m : Matrix) : Prop :=
  Forall (λ r, length r = ncols m) (rows m).

Definition row (m : Matrix) (i : nat) : list Q := nth i (rows m) [].
Definition entry (m : Matrix) (i j : nat) : Q := nth j (row m i) 0%Q.

Definition tabulate (r c : nat) (f : nat → nat → Q) : Matrix :=
  {| ncols := c; rows := map (λ i, map (f i) (seq 0 c)) (seq 0 r) |}.

#[global] Instance Q_inhabited : Inhabited Q := populate 0%Q.

Definition sumQ (l : list Q) : Q := foldr Qplus 0%Q l.

(** [m.t()] *)
Definition transpose (m : Matrix) : Matrix :=
  tabulate (ncols m) (nrows m) (λ i j, entry m j i).

(** [a.mm(b)] *)
Definition mm (a b : Matrix) : result Matrix :=
  if decide (ncols a = nrows b) then
    Ok (tabulate (nrows a) (ncols b)
          (λ i j, sumQ (map (λ k, entry a i k * entry b k j)%Q (seq 0 (ncols a)))))
  else Err ShapeError.

(** Elementwise function, e.g. an activation. *)
Definition map_matrix (f : Q → Q) (m : Matrix) : Matrix :=
  {| ncols := ncols m; rows := map (map f) (rows m) |}.

(** Size of one broadcast dimension: equal sizes, or one of them is 1. *)
Definition broadcast_dim (a b : nat) : result nat :=
  if decide (a = b) then Ok a
  else if decide (a = 1%nat) then Ok b
  else if decide (b = 1%nat) then Ok a
  else Err ShapeError.

Definition bidx (size i : nat) : nat := if decide (size = 1%nat) then 0%nat else i.

(** Elementwise binary operation on two rank-two tensors with broadcasting. *)
Definition broadcast2 (f : Q → Q → Q) (a b : Matrix) : result Matrix :=
  r ← broadcast_dim (nrows a) (nrows b);
  c ← broadcast_dim (ncols a) (ncols b);
  Ok (tabulate r c (λ i j,
        f (entry a (bidx (nrows a) i) (bidx (ncols a) j))
          (entry b (bidx (nrows b) i) (bidx (ncols b) j)))).

(** A rank-one tensor broadcasts against a matrix like a single row. *)
Definition row_vector (v : list Q) : Matrix := {| ncols := length v; rows := [v] |}.

(** [torch.cat(ms, dim=1)]: the tensors must agree on the number of rows. *)
Definition cat1 (ms : list Matrix) : result Matrix :=
  match ms with
  | [] => Err ShapeError
  | m0 :: _ =>
      if decide (Forall (λ m, nrows m = nrows m0) ms) then
        Ok {| ncols := sum_list (map ncols ms);
              rows := map (λ i, mjoin (map (λ m, row m i) ms)) (seq 0 (nrows m0)) |}
      else Err ShapeError
  end.

(** [torch.cat(ms, dim=0)]: the tensors must agree on the number of columns. *)
Definition cat0 (ms : list Matrix) : result Matrix :=
  match ms with
  | [] => Err ShapeError
  | m0 :: _ =>
      if decide (Forall (λ m, ncols m = ncols m0) ms) then
        Ok {| ncols := ncols m0; rows := mjoin (map rows ms) |}
      else Err ShapeError
  end.

(** Columns [s, e) of a matrix: [m[:, s:e]] for [0 <= s <= e <= ncols m]. *)
Definition narrow (m : Matrix) (s e : nat) : Matrix :=
  {| ncols := Nat.min e (ncols m) - Nat.min s (ncols m);
     rows := map (λ r, take (e - s) (drop s r)) (rows m) |}.

(** [x.view(-1, d)] on contiguous data with [numel] elements. *)
Definition view_rows (d : nat) (data : list Q) : result Matrix :=
  if decide (d = 0%nat) then Err ShapeError
  else if decide (length data `mod` d = 0)%nat then
    Ok {| ncols := d; rows := reshape (replicate (length data `div` d)%nat d) data |}
  else Err ShapeError.

(** [x.view(r, -1)] on contiguous data. *)
Definition view_cols (r : nat) (data : list Q) : result Matrix :=
  if decide (r = 0%nat) then Err ShapeError
  else if decide (length data `mod` r = 0)%nat then
    let c := (length data `div` r)%nat in
    Ok {| ncols := c; rows := reshape (replicate r c) data |}
  else Err ShapeError.

(** Python list indexing [l[i]] with a non-negative index. *)
Definition list_item {A} (l : list A) (i : nat) : result A :=
  match l !! i with
  | Some x => Ok x
  | None => Err IndexError
  end.

(** Python slicing [l[s:e]]: negative bounds count from the end, bounds are
    clamped to the length. *)
Definition slice_bound (n : nat) (x : Z) : nat :=
  if decide (x < 0) then Z.to_nat (Z.max (x + Z.of_nat n) 0)
  else Nat.min (Z.to_nat x) n.

Definition slice {A} (l : list A) (s e : Z) : list A :=
  let s' := slice_bound (length l) s in
  let e' := slice_bound (length l) e in
  take (e' - s') (drop s' l).

(** ** Aggregators *)

(** [neigh_feats.view(node_count, nb_count, neigh_feats.shape[-1])]: the
    view exists when the element counts agree; entry [(i, j, c)] of the view
    is read from the contiguous data. *)
Definition view3 (node_count nb_count : nat) (neigh_feats : Matrix)
    : result (nat → nat → nat → Q) :=
  let d := ncols neigh_feats in
  if decide (node_count * nb_count * d = nrows neigh_feats * d)%nat then
    let data := mjoin (rows neigh_feats) in
    Ok (λ i j c, nth ((i * nb_count + j) * d + c) data 0%Q)
  else Err ShapeError.

(** Sum over axis 1 of a [(node_count, nb_count, d)] tensor. *)
Definition sum_axis1 (node_count nb_count d : nat) (fv : nat → nat → nat → Q) : Matrix :=
  tabulate node_count d (λ i c, sumQ (map (λ j, fv i j c) (seq 0 nb_count))).

(** Mean over axis 1: the sum divided by the number of summands.  (For
    [nb_count = 0] torch yields NaN entries; here [x / 0] is [0].)  The
    quotient is exact here; [Float32.mean_axis1] below rounds it. *)
Definition mean_axis1 (node_count nb_count d : nat) (fv : nat → nat → nat → Q) : Matrix :=
  map_matrix (λ s, s / inject_Z (Z.of_nat nb_count))%Q (sum_axis1 node_count nb_count d fv).

Module MeanAggregator.
Definition forward {A} (features : A → result Matrix)
    (neighs : A) (node_count : nat) : result Matrix :=
  neigh_feats ← features neighs;
  if decide (node_count = 0%nat) then Err ZeroDivisionError else
  let nb_count := (nrows neigh_feats `div` node_count)%nat in
  fv_by_node ← view3 node_count nb_count neigh_feats;
  Ok (mean_axis1 node_count nb_count (ncols neigh_feats) fv_by_node).
End MeanAggregator.

Module SumAggregator.
Definition forward {A} (features : A → result Matrix)
    (neighs : A) (node_count : nat) : result Matrix :=
  neigh_feats ← features neighs;
  if decide (node_count = 0%nat) then Err ZeroDivisionError else
  let nb_count := (nrows neigh_feats `div` node_count)%nat in
  fv_by_node ← view3 node_count nb_count neigh_feats;
  Ok (sum_axis1 node_count nb_count (ncols neigh_feats) fv_by_node).
End SumAggregator.

(** ** Single-precision aggregation

    The tensors of the program hold IEEE binary32 numbers.  Where a property
    depends on rounding, entries are values of [Float32.t]: a rational that
    is a binary32 number, an infinity, or NaN (the sign of a zero is not
    kept).  Each arithmetic operation rounds the exact result to the nearest
    binary32 number, ties to the even significand. *)

Module Float32.
Inductive t : Type :=
  | Finite (q : Q)
  | Infinity (negative : bool)
  | NaN.

(** The integer nearest to [q], ties to even. *)
Definition round_half_even (q : Q) : Z :=
  let n := Qnum q in
  let d := Z.pos (Qden q) in
  let f := n `div` d in
  let r := n `mod` d in
  if decide (2 * r < d) then f
  else if decide (d < 2 * r) then f + 1
  else if Z.even f then f else f + 1.

Definition pow2 (e : Z) : Q := Qpower 2 e.

(** For [0 < q], the exponent [e] with [2 ^ e <= q < 2 ^ (e + 1)]. *)
Definition ilog2 (q : Q) : Z :=
  let e0 := Z.log2 (Qnum q) - Z.log2 (Z.pos (Qden q)) in
  if Qle_bool (pow2 e0) q then e0 else e0 - 1.

(** Rounding to binary32: a significand of 24 bits, the exponent of a
    normal number at least [-126] (below it the spacing stays [2 ^ -149]),
    and infinity from [2 ^ 128] on. *)
Definition round (q : Q) : t :=
  if Qeq_bool q 0 then Finite 0 else
  let a := Qabs q in
  let e := Z.max (ilog2 a) (-126) in
  let quantum := pow2 (e - 23) in
  let v := Qred (inject_Z (round_half_even (a / quantum)) * quantum) in
  if Qle_bool (pow2 128) v then Infinity (negb (Qle_bool 0 q))
  else Finite (if Qle_bool 0 q then v else Qred (- v)).

Definition is_negative (q : Q) : bool := negb (Qle_bool 0 q).

Definition add (a b : t) : t :=
  match a, b with
  | NaN, _ | _, NaN => NaN
  | Infinity s, Infinity s' => if Bool.eqb s s' then Infinity s else NaN
  | Infinity s, Finite _ | Finite _, Infinity s => Infinity s
  | Finite x, Finite y => round (x + y)
  end.

Definition mul (a b : t) : t :=
  match a, b with
  | NaN, _ | _, NaN => NaN
  | Infinity s, Infinity s' => Infinity (xorb s s')
  | Infinity s, Finite y | Finite y, Infinity s =>
      if Qeq_bool y 0 then NaN else Infinity (xorb s (is_negative y))
  | Finite x, Finite y => round (x * y)
  end.

Definition div (a b : t) : t :=
  match a, b with
  | NaN, _ | _, NaN => NaN
  | Infinity _, Infinity _ => NaN
  | Infinity s, Finite y => Infinity (xorb s (is_negative y))
  | Finite _, Infinity _ => Finite 0
  | Finite x, Finite y =>
      if Qeq_bool y 0 then (if Qeq_bool x 0 then NaN else Infinity (is_negative x))
      else round (x / y)
  end.

(** An element count as a binary32 number. *)
Definition of_count (n : nat) : t := round (inject_Z (Z.of_nat n)).

(** Adding the summands one after the other, from zero. *)
Definition sequential_sum (l : list t) : t := foldl add (Finite 0) l.

Record Tensor : Type := mkTensor { ncols : nat; rows : list (list t) }.

Definition nrows (m : Tensor) : nat := length (rows m).

Definition wf (m : Tensor) : Prop :=
  Forall (λ r, length r = ncols m) (rows m).

Definition entry (m : Tensor) (i j : nat) : t := nth j (nth i (rows m) []) NaN.

Definition tabulate (r c : nat) (f : nat → nat → t) : Tensor :=
  {| ncols := c; rows := map (λ i, map (f i) (seq 0 c)) (seq 0 r) |}.

Definition map_tensor (f : t → t) (m : Tensor) : Tensor :=
  {| ncols := ncols m; rows := map (map f) (rows m) |}.

(** [neigh_feats.view(node_count, nb_count, neigh_feats.shape[-1])] *)
Definition view3 (node_count nb_count : nat) (neigh_feats : Tensor)
    : result (nat → nat → nat → t) :=
  let d := ncols neigh_feats in
  if decide (node_count * nb_count * d = nrows neigh_feats * d)%nat then
    let data := mjoin (rows neigh_feats) in
    Ok (λ i j c, nth ((i * nb_count + j) * d + c) data NaN)
  else Err ShapeError.

Section reduction.
(** [torch.sum] does not fix the order in which it adds the summands of an
    output entry (the kernel splits and vectorises the reduction), so the
    reduction of the list of summands is a parameter. *)
Variable sum_kernel : list t → t.

Definition sum_axis1 (node_count nb_count d : nat) (fv : nat → nat → nat → t) : Tensor :=
  tabulate node_count d (λ i c, sum_kernel (map (λ j, fv i j c) (seq 0 nb_count))).

(** [torch.mean] as the CPU kernel computes it: the reduction of
    [torch.sum], then the result divided in place by the number of
    summands, one binary32 division per entry. *)
Definition mean_axis1 (node_count nb_count d : nat) (fv : nat → nat → nat → t) : Tensor :=
  map_tensor (λ s, div s (of_count nb_count)) (sum_axis1 node_count nb_count d fv).
End reduction.

Module MeanAggregator.
Definition forward {A} (sum_kernel : list t → t) (features : A → result Tensor)
    (neighs : A) (node_count : nat) : result Tensor :=
  neigh_feats ← features neighs;
  if decide (node_count = 0%nat) then Err ZeroDivisionError else
  let nb_count := (nrows neigh_feats `div` node_count)%nat in
  fv_by_node ← view3 node_count nb_count neigh_feats;
  Ok (mean_axis1 sum_kernel node_count nb_count (ncols neigh_feats) fv_by_node).
End MeanAggregator.

Module SumAggregator.
Definition forward {A} (sum_kernel : list t → t) (features : A → result Tensor)
    (neighs : A) (node_count : nat) : result Tensor :=
  neigh_feats ← features neighs;
  if decide (node_count = 0%nat) then Err ZeroDivisionError else
  let nb_count := (nrows neigh_feats `div` node_count)%nat in
  fv_by_node ← view3 node_count nb_count neigh_feats;
  Ok (sum_axis1 sum_kernel node_count nb_count (ncols neigh_feats) fv_by_node).
End SumAggregator.

(** The two readings of "the sum aggregate is [k] times the mean
    aggregate" at one entry: the product taken exactly, or in binary32. *)
Definition exact_multiple (k : nat) (mean sum : t) : Prop :=
  ∃ m s, mean = Finite m ∧ sum = Finite s ∧ (s == inject_Z (Z.of_nat k) * m)%Q.

Definition rounded_multiple (k : nat) (mean sum : t) : Prop :=
  sum = mul (of_count k) mean.
End Float32.

(** ** Encoders *)

(** The dictionary built by [query]: always the same three keys. *)
Record Context (A : Type) : Type := mkContext {
  node_feats : A;
  neighbor_feats : A;
  node_count : nat
}.
Arguments mkContext {A} _ _ _.
Arguments node_feats {A} _.
Arguments neighbor_feats {A} _.
Arguments node_count {A} _.

Module SaintEncoder.
Record t (A : Type) : Type := mk {
  features : A → result Matrix;
  aggregator : A → nat → result Matrix;
  num_sample : Z;
  activation_fn : Q → Q;
  weight_1 : Matrix;      (* embed_dim // 2 x intermediate_dim *)
  weight_2 : Matrix       (* embed_dim // 2 x intermediate_dim *)
}.
Arguments features {A} _. Arguments aggregator {A} _.
Arguments num_sample {A} _. Arguments activation_fn {A} _.
Arguments weight_1 {A} _. Arguments weight_2 {A} _.

Definition forward {A} (self : t A) (context : Context A) : result Matrix :=
  neigh_feats ← aggregator self (neighbor_feats context) (node_count context);
  self_feats ← features self (node_feats context);
  a ← mm (weight_1 self) (transpose self_feats);
  b ← mm (weight_2 self) (transpose neigh_feats);
  combined ← cat0 [a; b];
  Ok (map_matrix (activation_fn self) combined).
End SaintEncoder.

Module SageEncoder.
Record t (A : Type) : Type := mk {
  features : A → result Matrix;
  aggregator : A → nat → result Matrix;
  num_sample : Z;
  activation_fn : Q → Q;
  weight : Matrix         (* embed_dim x 2 * intermediate_dim *)
}.
Arguments features {A} _. Arguments aggregator {A} _.
Arguments num_sample {A} _. Arguments activation_fn {A} _.
Arguments weight {A} _.

Definition forward {A} (self : t A) (context : Context A) : result Matrix :=
  neigh_feats ← aggregator self (neighbor_feats context) (node_count context);
  self_feats ← features self (node_feats context);
  combined ← cat1 [self_feats; neigh_feats];
  combined ← mm (weight self) (transpose combined);
  Ok (map_matrix (activation_fn self) combined).
End SageEncoder.

Module GINEncoder.
Record t (A : Type) : Type := mk {
  features : A → result Matrix;
  aggregator : A → nat → result Matrix;
  num_sample : Z;
  activation_fn : Q → Q;
  eps : Q
}.
Arguments features {A} _. Arguments aggregator {A} _.
Arguments num_sample {A} _. Arguments activation_fn {A} _.
Arguments eps {A} _.

Definition forward {A} (self : t A) (context : Context A) : result Matrix :=
  neigh_feats ← aggregator self (neighbor_feats context) (node_count context);
  self_feats ← features self (node_feats context);
  combined ← broadcast2 Qplus neigh_feats
               (map_matrix (λ x, (1 + eps self) * x)%Q self_feats);
  Ok (transpose combined).
End GINEncoder.

(** The default activation [F.relu]. *)
Definition relu (x : Q) : Q := if Qle_bool 0 x then x else 0%Q.

(** ** Label-id batches *)

(** A rank-two tensor of label ids of shape [(batch, K)]. *)
Record IdMatrix : Type := mkIdMatrix { id_ncols : nat; id_rows : list (list Z) }.

(** The second component of the classifier input: absent, rank one or rank
    two. *)
Inductive LabelIds : Type :=
  | NoLabels
  | Labels1D (ids : list Z)
  | Labels2D (ids : IdMatrix).

(** [table[ids]] with an index tensor: negative ids count from the end. *)
Definition index_rows {A} `{Inhabited A} (table : list A) (ids : list Z) : result (list A) :=
  for_each (λ id,
    let n := Z.of_nat (length table) in
    if decide (- n ≤ id < n) then Ok (table !!! Z.to_nat (id `mod` n))
    else Err IndexError) ids.

(** [F.embedding(ids, table)]: ids must lie in [0, len(table)). *)
Definition embedding {A} `{Inhabited A} (table : list A) (ids : list (list Z))
    : result (list (list A)) :=
  for_each (for_each (λ id,
    if decide (0 ≤ id < Z.of_nat (length table)) then Ok (table !!! Z.to_nat id)
    else Err IndexError)) ids.

Definition Device : Type := string.

(** ** One shard of the classifier *)

(** [Softmax(dim=1)]; the exponential is not a rational function and is a
    parameter of the development. *)
Definition softmax_row (exp : Q → Q) (r : list Q) : list Q :=
  let es := map exp r in
  map (λ e, e / sumQ es)%Q es.

(** [w.unsqueeze(1) * a.unsqueeze(2)] for [w] of shape [(n, d)] and [a] of
    shape [(n, 3)]: the [(n, 3, d)] tensor with entries [w[l][j] * a[l][c]],
    as contiguous data. *)
Definition attention_mix (w a : list (list Q)) : list Q :=
  mjoin (zip_with (λ wl al, mjoin (map (λ ac, map (λ wj, wj * ac)%Q wl) al)) w a).

(** [short_bias.squeeze()] of a [(B, K, 1)] tensor, as the matrix it
    broadcasts like: all dimensions of size one are dropped, so a [(B, 1, 1)]
    tensor with [B <> 1] becomes the rank-one tensor [(B,)]. *)
Definition squeeze_all (m : Matrix) : Matrix :=
  if decide (ncols m = 1%nat ∧ nrows m ≠ 1%nat) then transpose m else m.

Module LinearChunk.
(** The values drawn by [reset_parameters]. *)
Record Init : Type := mkInit {
  init_weight : nat → nat → Q;
  init_bias : nat → Q;
  init_attention : nat → nat → Q
}.

Record t : Type := mk {
  device_embeddings : Device;
  input_size : Z;
  output_size : Z;
  weight : Matrix;              (* output_size x input_size *)
  bias : list Q;                (* output_size *)
  attention_weights : Matrix;   (* output_size x 3 *)
  sparse : bool
}.

Definition init (input_size output_size : Z) (device_embeddings : Device)
    (values : Init) : result t :=
  (* torch.Tensor(output_size, input_size) *)
  if decide (output_size < 0 ∨ input_size < 0) then Err NegativeDimension
  (* reset_parameters: stdv = 1. / math.sqrt(self.weight.size(1)) *)
  else if decide (input_size = 0) then Err ZeroDivisionError
  else
    let o := Z.to_nat output_size in
    Ok {| device_embeddings := device_embeddings;
          input_size := input_size;
          output_size := output_size;
          weight := tabulate o (Z.to_nat input_size) (init_weight values);
          bias := map (init_bias values) (seq 0 o);
          attention_weights := tabulate o 3 (init_attention values);
          sparse := false |}.

Section forward.
Variable exp : Q → Q.

(** The common part of the dense and the rank-one branches: mix the
    selected weight rows with their attention, view the result as rows
    of the embedding width and multiply. *)
Definition project (embed : Matrix) (w a : list (list Q)) : result Matrix :=
  let w3 := attention_mix w (map (softmax_row exp) a) in
  w2 ← view_rows (ncols embed) w3;
  mm embed (transpose w2).

Definition forward (self : t) (input : Matrix * LabelIds) : result Matrix :=
  match input.2 with
  | NoLabels =>
      x ← project input.1 (rows (weight self)) (rows (attention_weights self));
      broadcast2 Qplus x (row_vector (bias self))
  | Labels1D ids =>
      w ← index_rows (rows (weight self)) ids;
      a ← index_rows (rows (attention_weights self)) ids;
      x ← project input.1 w a;
      b ← index_rows (bias self) ids;
      broadcast2 Qplus x (row_vector b)
  | Labels2D ids =>
      let B := length (id_rows ids) in
      let K := id_ncols ids in
      let D := ncols input.1 in
      sw ← embedding (rows (weight self)) (id_rows ids);
      short_weights ← view_cols (B * K) (mjoin (mjoin sw));
      sb ← embedding (bias self) (id_rows ids);
      let short_bias := {| ncols := K; rows := sb |} in
      sa ← embedding (rows (attention_weights self)) (id_rows ids);
      short_att ← view_cols (B * K) (mjoin (mjoin sa));
      let w := attention_mix (rows short_weights)
                 (map (softmax_row exp) (rows short_att)) in
      (* w.view((B, K, D)) *)
      if decide (length w = B * K * D)%nat then
        (* input[0].unsqueeze(1).repeat(1, K, 1) * w.view(...), summed over axis 2 *)
        n ← broadcast_dim (nrows input.1) B;
        let x := tabulate n K (λ i p,
                   sumQ (map (λ d, entry input.1 (bidx (nrows input.1) i) d
                                   * nth ((bidx B i * K + p) * D + d) w 0)%Q
                             (seq 0 D))) in
        broadcast2 Qplus x (squeeze_all short_bias)
      else Err ShapeError
  end.
End forward.
End LinearChunk.

(** ** The distributed classifier *)

(** Columns [i * len, (i + 1) * len) of a label-id matrix. *)
Definition id_columns (ids : IdMatrix) (s e : nat) : IdMatrix :=
  {| id_ncols := Nat.min e (id_ncols ids) - Nat.min s (id_ncols ids);
     id_rows := map (λ r, take (e - s) (drop s r)) (id_rows ids) |}.

Module LinearDistributed.
Record t : Type := mk {
  num_partitions : nat;
  device_embeddings : list Device;
  input_size : Z;
  output_size : Z;
  partition_size : Z;
  partition_indices : list (Z * Z);
  classifiers : list LinearChunk.t
}.

Definition init (input_size output_size : Z) (device_embeddings : list Device)
    (values : nat → LinearChunk.Init) : result t :=
  let num_partitions := length device_embeddings in
  (* output_size / self.num_partitions *)
  if decide (num_partitions = 0%nat) then Err ZeroDivisionError else
  let partition_size := ceil_div output_size (Z.of_nat num_partitions) in
  let partition_indices :=
    build_partition_indices partition_size output_size num_partitions in
  classifiers ← for_each (λ i,
      r ← list_item partition_indices i;
      let output_size := r.2 - r.1 in
      d ← list_item device_embeddings i;
      LinearChunk.init input_size output_size d (values i))
    (seq 0 (length device_embeddings));
  Ok {| num_partitions := num_partitions;
        device_embeddings := device_embeddings;
        input_size := input_size;
        output_size := output_size;
        partition_size := partition_size;
        partition_indices := partition_indices;
        classifiers := classifiers |}.

Section forward.
Variable exp : Q → Q.

Definition forward (self : t) (input : Matrix * LabelIds) : result Matrix :=
  match input.2 with
  | NoLabels =>
      total_x ← for_each (λ i,
          c ← list_item (classifiers self) i;
          LinearChunk.forward exp c (input.1, NoLabels))
        (seq 0 (length (device_embeddings self)));
      cat1 total_x
  | Labels1D ids =>
      total_x ← for_each (λ i,
          r ← list_item (partition_indices self) i;
          let indices := slice ids r.1 r.2 in
          c ← list_item (classifiers self) i;
          LinearChunk.forward exp c (input.1, Labels1D indices))
        (seq 0 (length (device_embeddings self)));
      cat1 total_x
  | Labels2D ids =>
      if decide (length (partition_indices self) = 0%nat) then Err ZeroDivisionError else
      let partition_length :=
        (id_ncols ids `div` length (partition_indices self))%nat in
      total_x ← for_each (λ i,
          let short := id_columns ids (i * partition_length)
                         ((i + 1) * partition_length) in
          c ← list_item (classifiers self) i;
          LinearChunk.forward exp c (input.1, Labels2D short))
        (seq 0 (length (device_embeddings self)));
      cat1 total_x
  end.
End forward.
End LinearDistributed.

(** ** Attribute lookup

    What [getattr] sees on the objects built by the constructors: the names
    bound in [__init__] (instance dictionary, registered parameters and
    submodules).  Methods and the names inherited from [nn.Module] are left
    out; none of them is looked up by the code modelled here. *)

#[warnings="-register-all"]
Inductive PyVal : Type :=
  | PyNone
  | PyBool (b : bool)
  | PyInt (z : Z)
  | PyFloat (q : Q)
  | PyStr (s : string)
  | PyList (l : list PyVal)
  | PyOpaque                                (* tensors, callables, collaborators *)
  | PyObject (attrs : gmap string PyVal).

Definition getattr (o : PyVal) (name : string) : result PyVal :=
  match o with
  | PyObject attrs =>
      match attrs !! name with
      | Some v => Ok v
      | None => Err AttributeError
      end
  | _ => Err AttributeError
  end.

Definition vars_LinearChunk (c : LinearChunk.t) : PyVal :=
  PyObject (list_to_map [
    ("device_embeddings", PyStr (LinearChunk.device_embeddings c));
    ("input_size", PyInt (LinearChunk.input_size c));
    ("output_size", PyInt (LinearChunk.output_size c));
    ("weight", PyOpaque);
    ("bias", PyOpaque);
    ("attention_weights", PyOpaque);
    ("sparse", PyBool (LinearChunk.sparse c));
    ("act", PyOpaque)]).

Definition vars_LinearDistributed (c : LinearDistributed.t) : PyVal :=
  PyObject (list_to_map [
    ("num_partitions", PyInt (Z.of_nat (LinearDistributed.num_partitions c)));
    ("device_embeddings", PyList (map PyStr (LinearDistributed.device_embeddings c)));
    ("input_size", PyInt (LinearDistributed.input_size c));
    ("output_size", PyInt (LinearDistributed.output_size c));
    ("partition_size", PyInt (LinearDistributed.partition_size c));
    ("partition_indices",
       PyList (map (λ r, PyList [PyInt r.1; PyInt r.2])
                 (LinearDistributed.partition_indices c)));
    ("classifiers", PyList (map vars_LinearChunk (LinearDistributed.classifiers c)))]).

Definition vars_GINEncoder {A} (e : GINEncoder.t A) (base_model : option PyVal)
    (device_name : string) : PyVal :=
  PyObject (list_to_map ([
    ("device_name", PyStr device_name);
    ("features", PyOpaque);
    ("query_func", PyOpaque);
    ("aggregator", PyOpaque);
    ("num_sample", PyInt (GINEncoder.num_sample e));
    ("activation_fn", PyOpaque);
    ("eps", PyOpaque)]
    ++ match base_model with Some b => [("base_model", b)] | None => [] end)).

(** ** The model orchestrator *)

Module GalaXCBase.
Section model.
(** The graph collaborator and the feature tensors it hands out belong to
    code outside this file; [squeeze0] is [features.squeeze(0)] on such a
    tensor. *)
Variables Graph Raw : Type.
Variable squeeze0 : Raw → result Matrix.
(** [torch.device(name)]. *)
Variable torch_device : string → result Device.
(** [nn.Sequential(nn.ReLU(), nn.Dropout(dropout), Residual(embed_dim,
    hidden_dims, dropout))]: whether it can be built, and its numerical
    action once built. *)
Variable Sequential : Z → Z → Q → result (Matrix → result Matrix).
Variable exp : Q → Q.

(** Values drawn at construction: [torch.rand(1)] of each hop, and the
    parameters of each classifier shard. *)
Record Rand : Type := mkRand {
  rand_eps1 : Q;
  rand_eps2 : Q;
  rand_eps3 : Q;
  rand_chunk : nat → LinearChunk.Init
}.

Record t : Type := mk {
  graph : Graph;
  fanouts : list Z;
  num_labels : Z;
  feature_dim : Z;
  hidden_dims : Z;
  embed_dim : Z;
  device_names : list string;
  device_name : string;
  device_embeddings : Device;
  dropout : Q;
  padding_idx : Z;
  num_clf_partitions : Z;
  first_layer_enc : GINEncoder.t Raw;
  second_layer_enc : GINEncoder.t (Context Raw);
  third_layer_enc : GINEncoder.t (Context (Context Raw));
  transform1 : Matrix → result Matrix;
  transform2 : Matrix → result Matrix;
  transform3 : Matrix → result Matrix;
  classifier : LinearDistributed.t
}.

Definition feature_func (features : Raw) : result Matrix := squeeze0 features.

(** [lambda context: enc(context).t()] *)
Definition transposed_forward {A} (enc : GINEncoder.t A) (context : Context A)
    : result Matrix :=
  e ← GINEncoder.forward enc context; Ok (transpose e).

Definition _construct_embeddings (fanouts : list Z) (rand : Rand)
    : result (GINEncoder.t Raw * GINEncoder.t (Context Raw)
              * GINEncoder.t (Context (Context Raw))) :=
  f0 ← list_item fanouts 0;
  let first_layer_enc :=
    GINEncoder.mk Raw feature_func (SumAggregator.forward feature_func)
      f0 relu (rand_eps1 rand) in
  f1 ← list_item fanouts 1;
  let second_layer_enc :=
    GINEncoder.mk (Context Raw) (transposed_forward first_layer_enc)
      (SumAggregator.forward (transposed_forward first_layer_enc))
      f1 relu (rand_eps2 rand) in
  f2 ← list_item fanouts 2;
  let third_layer_enc :=
    GINEncoder.mk (Context (Context Raw)) (transposed_forward second_layer_enc)
      (SumAggregator.forward (transposed_forward second_layer_enc))
      f2 relu (rand_eps3 rand) in
  Ok (first_layer_enc, second_layer_enc, third_layer_enc).

Definition _construct_transform (embed_dim hidden_dims : Z) (dropout : Q)
    : result (Matrix → result Matrix) :=
  Sequential embed_dim hidden_dims dropout.

Definition _construct_classifier (hidden_dims num_labels : Z)
    (device_names : list string) (rand : Rand) : result LinearDistributed.t :=
  LinearDistributed.init hidden_dims num_labels device_names (rand_chunk rand).

Definition init (num_labels hidden_dims : Z) (device_names : list string)
    (feature_dim : Z) (fanouts : list Z) (graph : Graph) (embed_dim : Z)
    (dropout : Q) (num_clf_partitions padding_idx : Z) (rand : Rand) : result t :=
  (* assert len(fanouts) in [1, 2, 3] *)
  if decide (length fanouts ∈ [1; 2; 3]%nat) then
    device_name ← list_item device_names 0;
    device_embeddings ← torch_device device_name;
    encs ← _construct_embeddings fanouts rand;
    transform1 ← _construct_transform embed_dim hidden_dims dropout;
    transform2 ← _construct_transform embed_dim hidden_dims dropout;
    transform3 ← _construct_transform embed_dim hidden_dims dropout;
    classifier ← _construct_classifier hidden_dims num_labels device_names rand;
    Ok {| graph := graph; fanouts := fanouts; num_labels := num_labels;
          feature_dim := feature_dim; hidden_dims := hidden_dims;
          embed_dim := embed_dim; device_names := device_names;
          device_name := device_name; device_embeddings := device_embeddings;
          dropout := dropout; padding_idx := padding_idx;
          num_clf_partitions := num_clf_partitions;
          first_layer_enc := encs.1.1; second_layer_enc := encs.1.2;
          third_layer_enc := encs.2;
          transform1 := transform1; transform2 := transform2;
          transform3 := transform3; classifier := classifier |}
  else Err AssertionError.

(** The dictionary handed to [forward]. *)
Record Batch : Type := mkBatch {
  encoder : Context (Context (Context Raw));
  label_ids : LabelIds
}.

Definition encode (self : t) (context : Batch) : result Matrix :=
  embed3 ← GINEncoder.forward (third_layer_enc self) (encoder context);
  embed2 ← GINEncoder.forward (second_layer_enc self) (node_feats (encoder context));
  embed1 ← GINEncoder.forward (first_layer_enc self)
             (node_feats (node_feats (encoder context)));
  t1 ← transform1 self (transpose embed1);
  t2 ← transform2 self (transpose embed2);
  t3 ← transform3 self (transpose embed3);
  cat1 [t1; t2; t3].

Definition forward (self : t) (batch_data : Batch) : result Matrix :=
  encoded ← encode self batch_data;
  LinearDistributed.forward exp (classifier self) (encoded, label_ids batch_data).

Definition vars (self : t) : PyVal :=
  let enc1 := vars_GINEncoder (first_layer_enc self) None (device_name self) in
  let enc2 := vars_GINEncoder (second_layer_enc self) (Some enc1) (device_name self) in
  let enc3 := vars_GINEncoder (third_layer_enc self) (Some enc2) (device_name self) in
  PyObject (list_to_map [
    ("graph", PyOpaque);
    ("fanouts", PyList (map PyInt (fanouts self)));
    ("num_labels", PyInt (num_labels self));
    ("feature_dim", PyInt (feature_dim self));
    ("hidden_dims", PyInt (hidden_dims self));
    ("embed_dim", PyInt (embed_dim self));
    ("device_names", PyList (map PyStr (device_names self)));
    ("device_name", PyStr (device_name self));
    ("device_embeddings", PyOpaque);
    ("dropout", PyFloat (dropout self));
    ("padding_idx", PyInt (padding_idx self));
    ("num_clf_partitions", PyInt (num_clf_partitions self));
    ("first_layer_enc", enc1);
    ("second_layer_enc", enc2);
    ("third_layer_enc", enc3);
    ("transform1", PyOpaque);
    ("transform2", PyOpaque);
    ("transform3", PyOpaque);
    ("classifier", vars_LinearDistributed (classifier self))]).

(** [self.embeddings.weight.data.copy_(torch.from_numpy(word_embeddings))]:
    the callee expression is evaluated before the argument. *)
Definition initialize_embeddings (self : t) (word_embeddings : Matrix)
    : result unit :=
  embeddings ← getattr (vars self) "embeddings";
  weight ← getattr embeddings "weight";
  data ← getattr weight "data";
  copy_ ← getattr data "copy_";
  Ok ().

Definition initialize_classifier (self : t) (clf_weights : Matrix)
    : result unit :=
  classifier ← getattr (vars self) "classifier";
  weight ← getattr classifier "weight";
  data ← getattr weight "data";
  copy_ ← getattr data "copy_";
  classifier ← getattr (vars self) "classifier";
  bias ← getattr classifier "bias";
  data ← getattr bias "data";
  copy_ ← getattr data "copy_";
  Ok ().
End model.

Arguments graph {Graph Raw} _.
Arguments fanouts {Graph Raw} _.
Arguments num_labels {Graph Raw} _.
Arguments feature_dim {Graph Raw} _.
Arguments hidden_dims {Graph Raw} _.
Arguments embed_dim {Graph Raw} _.
Arguments device_names {Graph Raw} _.
Arguments device_name {Graph Raw} _.
Arguments device_embeddings {Graph Raw} _.
Arguments dropout {Graph Raw} _.
Arguments padding_idx {Graph Raw} _.
Arguments num_clf_partitions {Graph Raw} _.
Arguments first_layer_enc {Graph Raw} _.
Arguments second_layer_enc {Graph Raw} _.
Arguments third_layer_enc {Graph Raw} _.
Arguments transform1 {Graph Raw} _.
Arguments transform2 {Graph Raw} _.
Arguments transform3 {Graph Raw} _.
Arguments classifier {Graph Raw} _.
Arguments mk {Graph Raw}.
Arguments _construct_embeddings {Raw}.
Arguments init {Graph Raw}.
Arguments encode {Graph Raw}.
Arguments forward {Graph Raw}.
Arguments vars {Graph Raw}.
Arguments initialize_embeddings {Graph Raw}.
Arguments initialize_classifier {Graph Raw}.
Arguments mkBatch {Raw}.
Arguments encoder {Raw} _.
Arguments label_ids {Raw} _.
End GalaXCBase.

(** ** Auxiliary predicates *)

(** The parameter tensors of a shard with [o] labels and input size [d]. *)
Definition shard_shape (c : LinearChunk.t) (o d : nat) : Prop :=
  wf_matrix (LinearChunk.weight c) ∧ nrows (LinearChunk.weight c) = o ∧
  ncols (LinearChunk.weight c) = d ∧
  wf_matrix (LinearChunk.attention_weights c) ∧
  nrows (LinearChunk.attention_weights c) = o ∧
  ncols (LinearChunk.attention_weights c) = 3%nat ∧
  length (LinearChunk.bias c) = o.

(** An id that [table[ids]] accepts for a table of [n] rows. *)
Definition valid_index (n : nat) (id : Z) : Prop :=
  - Z.of_nat n ≤ id < Z.of_nat n.

#[global] Instance valid_index_dec n id : Decision (valid_index n id).
Proof. unfold valid_index. apply _. Defined.

(** An id that [F.embedding] accepts for a table of [n] rows. *)
Definition valid_embedding_id (n : nat) (id : Z) : Prop :=
  0 ≤ id < Z.of_nat n.

Definition wf_ids (ids : IdMatrix) : Prop :=
  Forall (λ r, length r = id_ncols ids) (id_rows ids).

(** What an encoder's [forward] reads from a context: the self features
    [sf] and the aggregated neighbour features [nf], both with one row per
    node of the batch. *)
Definition context_shapes {A} (features : A → result Matrix)
    (aggregator : A → nat → result Matrix) (context : Context A)
    (sf nf : Matrix) : Prop :=
  features (node_feats context) = Ok sf ∧
  aggregator (neighbor_feats context) (node_count context) = Ok nf ∧
  wf_matrix sf ∧ wf_matrix nf ∧
  nrows sf = node_count context ∧ nrows nf = node_count context.

(** The three encoder variants behind one interface. *)
Inductive Encoder (A : Type) : Type :=
  | Sage (e : SageEncoder.t A)
  | Saint (e : SaintEncoder.t A)
  | GIN (e : GINEncoder.t A).
Arguments Sage {A} e.
Arguments Saint {A} e.
Arguments GIN {A} e.

Definition encoder_features {A} (enc : Encoder A) : A → result Matrix :=
  match enc with
  | Sage e => SageEncoder.features e
  | Saint e => SaintEncoder.features e
  | GIN e => GINEncoder.features e
  end.

Definition encoder_aggregator {A} (enc : Encoder A) : A → nat → result Matrix :=
  match enc with
  | Sage e => SageEncoder.aggregator e
  | Saint e => SaintEncoder.aggregator e
  | GIN e => GINEncoder.aggregator e
  end.

Definition encoder_forward {A} (enc : Encoder A) (context : Context A) : result Matrix :=
  match enc with
  | Sage e => SageEncoder.forward e context
  | Saint e => SaintEncoder.forward e context
  | GIN e => GINEncoder.forward e context
  end.

(** The weights of the encoder accept self features of width [ds] and
    aggregated neighbour features of width [dn]. *)
Definition weights_fit {A} (enc : Encoder A) (ds dn : nat) : Prop :=
  match enc with
  | Sage e =>
      wf_matrix (SageEncoder.weight e) ∧ ncols (SageEncoder.weight e) = (ds + dn)%nat
  | Saint e =>
      ncols (SaintEncoder.weight_1 e) = ds ∧ ncols (SaintEncoder.weight_2 e) = dn
  | GIN e => ds = dn
  end.

(** Number of embedding dimensions the encoder produces. *)
Definition embedding_dims {A} (enc : Encoder A) (dn : nat) : nat :=
  match enc with
  | Sage e => nrows (SageEncoder.weight e)
  | Saint e => (nrows (SaintEncoder.weight_1 e) + nrows (SaintEncoder.weight_2 e))%nat
  | GIN e => dn
  end.

(** Embedding dimension [e] of one node, from the node's own feature row and
    its aggregated neighbour row. *)
Definition node_embedding {A} (enc : Encoder A) (self_row neigh_row : list Q)
    (e : nat) : Q :=
  match enc with
  | Sage s =>
      SageEncoder.activation_fn s
        (sumQ (map (λ k, entry (SageEncoder.weight s) e k *
                  (if decide (k < length self_row)%nat then nth k self_row 0
                   else nth (k - length self_row) neigh_row 0))%Q
                 (seq 0 (ncols (SageEncoder.weight s)))))
  | Saint s =>
      SaintEncoder.activation_fn s
        (if decide (e < nrows (SaintEncoder.weight_1 s))%nat then
           sumQ (map (λ k, entry (SaintEncoder.weight_1 s) e k * nth k self_row 0)%Q
                   (seq 0 (length self_row)))
         else
           sumQ (map (λ k, entry (SaintEncoder.weight_2 s)
                             (e - nrows (SaintEncoder.weight_1 s)) k
                           * nth k neigh_row 0)%Q
                   (seq 0 (length neigh_row))))
  | GIN g => (nth e neigh_row 0 + (1 + GINEncoder.eps g) * nth e self_row 0)%Q
  end.

(** Label ids arranged by shard ownership: the ids found at the positions
    of a partition range are labels of that range. *)
Definition bucketed_by_ownership (t : list (Z * Z)) (label_ids : list Z) : Prop :=
  ∀ i r, t !! i = Some r → Forall (λ id, r.1 ≤ id < r.2) (slice label_ids r.1 r.2).

(** ** Concrete inputs *)

(** A stand-in for the exponential: positive on every rational. *)
Definition sample_exp (q : Q) : Q := (1 + q * q)%Q.

Definition sample_values (shard : nat) : LinearChunk.Init :=
  LinearChunk.mkInit
    (λ i j, inject_Z (Z.of_nat (shard + i + j)))
    (λ i, inject_Z (Z.of_nat i))
    (λ i j, inject_Z (Z.of_nat (i * j))).

(** Four labels on two devices, input size one. *)
Definition sample_classifier : LinearDistributed.t :=
  Eval vm_compute in
    match LinearDistributed.init 1 4 ["cpu"; "cpu"] sample_values with
    | Ok c => c
    | Err _ => LinearDistributed.mk 0 [] 0 0 0 [] []
    end.

(** A batch of two embeddings of width three. *)
Definition sample_embed : Matrix :=
  {| ncols := 3; rows := [[1; 2; 3]; [4; 5; 6]]%Q |}.

(** Two nodes with three features each, and two neighbours per node. *)
Definition sample_context : Context Matrix :=
  {| node_feats := {| ncols := 3; rows := [[1; 2; 3]; [4; 5; 6]]%Q |};
     neighbor_feats :=
       {| ncols := 3; rows := [[1; 0; 0]; [0; 1; 0]; [0; 0; 1]; [1; 1; 1]]%Q |};
     node_count := 2 |}.

Definition sample_features (m : Matrix) : result Matrix := Ok m.

Definition sample_sage : SageEncoder.t Matrix :=
  SageEncoder.mk Matrix sample_features (MeanAggregator.forward sample_features) 2 relu
    (tabulate 4 6 (λ i j, inject_Z (Z.of_nat i - Z.of_nat j))).

Definition sample_saint : SaintEncoder.t Matrix :=
  SaintEncoder.mk Matrix sample_features (MeanAggregator.forward sample_features) 2 relu
    (tabulate 2 3 (λ i j, inject_Z (Z.of_nat i - Z.of_nat j)))
    (tabulate 2 3 (λ i j, inject_Z (Z.of_nat j - Z.of_nat i))).

Definition sample_gin : GINEncoder.t Matrix :=
  GINEncoder.mk Matrix sample_features (SumAggregator.forward sample_features) 2 relu
    (1 # 2)%Q.

(** The mean of the neighbour rows of each node of [sample_context]. *)
Definition sample_aggregated : Matrix :=
  Eval vm_compute in
    match MeanAggregator.forward sample_features (neighbor_feats sample_context) 2 with
    | Ok m => m
    | Err _ => {| ncols := 0; rows := [] |}
    end.

(** Three neighbour rows without columns. *)
Definition sample_empty_features : Matrix := {| ncols := 0; rows := [[]; []; []] |}.


Definition sample_rand : GalaXCBase.Rand :=
  GalaXCBase.mkRand (1 # 2) (1 # 3) (1 # 4) sample_values.

(** The effective weight of one label: its weight row scaled by each of the
    three attention components in turn. *)
Definition label_block (exp : Q → Q) (wl al : list Q) : list Q :=
  mjoin (map (λ ac, map (λ wj, wj * ac)%Q wl) (softmax_row exp al)).

(** ** Building the contexts: [query]

    The three encoder classes share the text of [query] and
    [query_feature].  The graph collaborator belongs to code outside this
    file: [sample_neighbors g s nodes k] is
    [graph.sample_neighbors(nodes, k)[0].flatten()], the sampled neighbour
    ids as one flat array; sampling is random, so the sampler threads a
    state [s].  [node_features g nodes] is [graph.node_features(nodes)]. *)

Section query.
Context {Graph Raw S : Type}.
Variable sample_neighbors : Graph → S → list Z → Z → result (list Z * S).
Variable node_features : Graph → list Z → result Raw.

Definition query_feature (nodes : list Z) (graph : Graph) (s : S)
    : result (Raw * S) :=
  features ← node_features graph nodes;
  Ok (features, s).

Definition encoder_query {A} (query_func : list Z → Graph → S → result (A * S))
    (num_sample : Z) (nodes : list Z) (graph : Graph) (s : S)
    : result (Context A * S) :=
  neigh_nodes ← sample_neighbors graph s nodes num_sample;
  node_feats ← query_func nodes graph neigh_nodes.2;
  neighbor_feats ← query_func neigh_nodes.1 graph node_feats.2;
  Ok ({| node_feats := node_feats.1;
         neighbor_feats := neighbor_feats.1;
         node_count := length nodes |}, neighbor_feats.2).

(** [context["encoder"] = self.third_layer_enc.query(context["inputs"],
    self.graph)], with the [query_func] each hop was given in
    [_construct_embeddings]: [query_feature] for the first hop, the [query]
    of the hop below for the other two. *)
Definition GalaXCBase_query (self : GalaXCBase.t Graph Raw) (inputs : list Z) (s : S)
    : result (Context (Context (Context Raw)) * S) :=
  let first_query :=
    encoder_query query_feature
      (GINEncoder.num_sample (GalaXCBase.first_layer_enc self)) in
  let second_query :=
    encoder_query first_query
      (GINEncoder.num_sample (GalaXCBase.second_layer_enc self)) in
  encoder_query second_query
    (GINEncoder.num_sample (GalaXCBase.third_layer_enc self))
    inputs (GalaXCBase.graph self) s.

(** What the code expects of the collaborator: [k] neighbour ids for each
    node, and one feature row of width [d] for each id. *)
Definition sampler_contract (graph : Graph) : Prop :=
  ∀ s nodes k, 0 ≤ k →
    ∃ ids s', sample_neighbors graph s nodes k = Ok (ids, s') ∧
              length ids = (length nodes * Z.to_nat k)%nat.

Definition features_contract (squeeze0 : Raw → result Matrix) (graph : Graph)
    (d : nat) : Prop :=
  ∀ nodes, ∃ raw m,
    node_features graph nodes = Ok raw ∧ squeeze0 raw = Ok m ∧
    wf_matrix m ∧ nrows m = length nodes ∧ ncols m = d.
End query.

(** A transform that maps a batch of width [d] to a batch of width [h]. *)
Definition transform_contract (transform : Matrix → result Matrix) (d h : nat) : Prop :=
  ∀ x, wf_matrix x → ncols x = d →
    ∃ y, transform x = Ok y ∧ wf_matrix y ∧ nrows y = nrows x ∧ ncols y = h.

(** ** Functions of the orchestrator that look up missing names *)

(** The methods class [LinearDistributed] defines; [nn.Module] has no
    method of the names looked up below. *)
Definition methods_LinearDistributed : list string :=
  ["__init__"; "forward"; "move_to_devices"; "reset_parameters"].

(** [o.name] on an object of a class with these methods. *)
Definition getattr_of (methods : list string) (o : PyVal) (name : string)
    : result PyVal :=
  match getattr o name with
  | Ok v => Ok v
  | Err _ => if decide (name ∈ methods) then Ok PyOpaque else Err AttributeError
  end.

Section missing_names.
Context {Graph Raw : Type}.
(** Calling a Python object found by lookup. *)
Variable call : PyVal → result Matrix.

(** [embed = self.embeddings(context["encoder"], self.device_embeddings);
    return embed.t()] *)
Definition encode_graph_embedding (self : GalaXCBase.t Graph Raw)
    (context : GalaXCBase.Batch Raw) : result Matrix :=
  embeddings ← getattr (GalaXCBase.vars self) "embeddings";
  device_embeddings ← getattr (GalaXCBase.vars self) "device_embeddings";
  embed ← call embeddings;
  Ok (transpose embed).

(** [return self.classifier.get_weights()] *)
Definition get_clf_weights (self : GalaXCBase.t Graph Raw) : result Matrix :=
  classifier ← getattr (GalaXCBase.vars self) "classifier";
  get_weights ← getattr_of methods_LinearDistributed classifier "get_weights";
  call get_weights.
End missing_names.

(** ** Nearest-neighbour answers: [HNSW._filter] *)

Module HNSW.
(** numpy raises [ValueError] when an array cannot be broadcast into the
    row it is assigned to. *)
Inductive outcome (A : Type) : Type :=
  | Returned (a : A)
  | ValueError.
Arguments Returned {A} a.
Arguments ValueError {A}.

(** [target[idx] = value] for a row of [num_search] cells: an array of
    [num_search] elements is stored as it is, a single element fills the
    row, any other length cannot be broadcast. *)
Definition assign_row {A} (num_search : nat) (value : list A) : option (list A) :=
  if decide (length value = num_search) then Some value
  else match value with
       | [x] => Some (replicate num_search x)
       | _ => None
       end.

(** A value written into an [np.int32] array keeps its low 32 bits, read
    as a signed number; nothing is raised when that changes the value. *)
Definition int32 (z : Z) : Z := (z + 2 ^ 31) `mod` 2 ^ 32 - 2 ^ 31.

Section filter.
Context {D F : Type}.
(** Distances come as values of [D] and are held in the [np.float32] array
    as values of [F]: [float32] is the conversion on assignment, [zero] is
    [0.0]. *)
Variable float32 : D → F.
Variable zero : F.

Definition Arrays : Type := list (list Z) * list (list F).

(** One turn of the loop: [indices[idx] = item[0]; distances[idx] = item[1]],
    each value converted to the element type of the array it goes into. *)
Definition store (num_search : nat) (arrays : Arrays) (idx : nat)
    (item : list Z * list D) : outcome Arrays :=
  match assign_row num_search (map int32 item.1) with
  | None => ValueError
  | Some ids =>
      match assign_row num_search (map float32 item.2) with
      | None => ValueError
      | Some ds => Returned (<[idx := ids]> arrays.1, <[idx := ds]> arrays.2)
      end
  end.

(** [for idx, item in enumerate(output)], from index [idx] on. *)
Fixpoint loop (num_search : nat) (arrays : Arrays) (idx : nat)
    (output : list (list Z * list D)) : outcome Arrays :=
  match output with
  | [] => Returned arrays
  | item :: rest =>
      match store num_search arrays idx item with
      | Returned arrays' => loop num_search arrays' (S idx) rest
      | ValueError => ValueError
      end
  end.

Definition _filter (output : list (list Z * list D)) (num_search : nat)
    : outcome Arrays :=
  let indices := replicate (length output) (replicate num_search 0) in
  let distances := replicate (length output) (replicate num_search zero) in
  loop num_search (indices, distances) 0 output.

(** [predict]: the answer of the index, one item per query, filtered. *)
Definition predict {Index Data : Type}
    (knnQueryBatch : Index → Data → nat → list (list Z * list D))
    (index : Index) (data : Data) (num_search : nat) : outcome Arrays :=
  let output := knnQueryBatch index data num_search in
  _filter output num_search.
End filter.

(** An array that fits a row of [num_search] cells. *)
Definition fits {A} (num_search : nat) (value : list A) : Prop :=
  length value = num_search ∨ length value = 1%nat.
End HNSW.

(** One shard of two labels with input size one. *)
Definition sample_shard : LinearChunk.t :=
  Eval vm_compute in
    match LinearChunk.init 1 2 "cpu" (sample_values 0) with
    | Ok c => c
    | Err _ => LinearChunk.mk "cpu" 0 0 (mkMatrix 0 []) [] (mkMatrix 0 []) false
    end.

(** Two rows of two candidate ids. *)
Definition sample_shortlist : IdMatrix :=
  {| id_ncols := 2; id_rows := [[0; 1]; [1; 1]] |}.

(** ** Shapes of the contexts [query] builds *)

Section hop_contexts.
Context {Raw : Type}.
Variable squeeze0 : Raw → result Matrix.

(** Raw features of [n] nodes: after [squeeze(0)], one row of width [d] for
    each node. *)
Definition raw_features (raw : Raw) (n d : nat) : Prop :=
  ∃ m, squeeze0 raw = Ok m ∧ wf_matrix m ∧ nrows m = n ∧ ncols m = d.

(** The context of one hop over [n] nodes with [k1] neighbours each. *)
Definition hop1_context (c : Context Raw) (n k1 d : nat) : Prop :=
  node_count c = n ∧ raw_features (node_feats c) n d ∧
  raw_features (neighbor_feats c) (n * k1) d.

(** Two hops: the nodes and their [n * k2] neighbours, each described by a
    context of one hop. *)
Definition hop2_context (c : Context (Context Raw)) (n k1 k2 d : nat) : Prop :=
  node_count c = n ∧ hop1_context (node_feats c) n k1 d ∧
  hop1_context (neighbor_feats c) (n * k2) k1 d.

Definition hop3_context (c : Context (Context (Context Raw)))
    (n k1 k2 k3 d : nat) : Prop :=
  node_count c = n ∧ hop2_context (node_feats c) n k1 k2 d ∧
  hop2_context (neighbor_feats c) (n * k3) k1 k2 d.
End hop_contexts.

(** ** The residual transform *)

(** [nn.init.eye_(weight)] on a tensor of shape [(r, c)]. *)
Definition eye_ (r c : nat) : Matrix :=
  tabulate r c (λ i j, if decide (i = j) then 1 else 0)%Q.

(** [nn.Linear]: [x.mm(weight.t()) + bias] for a weight of shape
    [(out_features, in_features)]. *)
Definition linear (weight : Matrix) (bias : list Q) (x : Matrix) : result Matrix :=
  y ← mm x (transpose weight);
  broadcast2 Qplus y (row_vector bias).

(** [F.pad(embed, (0, padding_size), 'constant', 0)]: zeros appended to the
    right of each row; a negative size cuts columns off instead, as long as
    there are enough of them. *)
Definition pad_right (embed : Matrix) (padding_size : Z) : result Matrix :=
  if decide (0 ≤ padding_size) then
    Ok {| ncols := ncols embed + Z.to_nat padding_size;
          rows := map (λ r, r ++ replicate (Z.to_nat padding_size) 0%Q) (rows embed) |}
  else if decide (0 ≤ Z.of_nat (ncols embed) + padding_size) then
    Ok (narrow embed 0 (Z.to_nat (Z.of_nat (ncols embed) + padding_size)))
  else Err ShapeError.

Module Residual.
Section layers.
(** [nn.BatchNorm1d(output_size)] and [nn.Dropout(p)] depend on the training
    mode, on batch statistics and on random masks: whether they can be
    built, and their action once built, are parameters. *)
Variable BatchNorm1d : Z → result (Matrix → result Matrix).
Variable Dropout : Q → result (Matrix → result Matrix).

Record t : Type := mk {
  input_size : Z;
  output_size : Z;
  init : string;
  dropout : Q;
  padding_size : Z;
  weight : Matrix;                       (* hidden_layer[0].weight *)
  bias : list Q;                         (* hidden_layer[0].bias *)
  batch_norm : Matrix → result Matrix;   (* hidden_layer[1] *)
  drop : Matrix → result Matrix          (* hidden_layer[3] *)
}.

(** The weight and the bias of [hidden_layer[0]] after [initialize];
    [xavier] stands for the values [xavier_uniform_] draws. *)
Definition initialize (init_type : string) (xavier : nat → nat → Q)
    (output_size input_size : nat) : result (Matrix * list Q) :=
  if decide (init_type = "random") then
    (* std = gain * math.sqrt(2.0 / float(fan_in + fan_out)) *)
    if decide (input_size + output_size = 0)%nat then Err ZeroDivisionError
    else Ok (tabulate output_size input_size xavier, replicate output_size 0%Q)
  else Ok (eye_ output_size input_size, replicate output_size 0%Q).

Definition __init__ (input_size output_size : Z) (dropout : Q) (init : string)
    (xavier : nat → nat → Q) : result t :=
  (* nn.Linear(self.input_size, self.output_size) *)
  if decide (input_size < 0 ∨ output_size < 0) then Err NegativeDimension else
  batch_norm ← BatchNorm1d output_size;
  drop ← Dropout dropout;
  wb ← initialize init xavier (Z.to_nat output_size) (Z.to_nat input_size);
  Ok {| input_size := input_size;
        output_size := output_size;
        init := init;
        dropout := dropout;
        padding_size := output_size - input_size;
        weight := wb.1;
        bias := wb.2;
        batch_norm := batch_norm;
        drop := drop |}.

Definition forward (self : t) (embed : Matrix) : result Matrix :=
  temp ← pad_right embed (padding_size self);
  h ← linear (weight self) (bias self) embed;
  h ← batch_norm self h;
  h ← drop self (map_matrix relu h);
  broadcast2 Qplus h temp.

(** [nn.Sequential(nn.ReLU(), nn.Dropout(dropout), Residual(embed_dim,
    hidden_dims, dropout))] of [GalaXCBase._construct_transform]; [Residual]
    is built with its default [init='eye']. *)
Definition transform (embed_dim hidden_dims : Z) (dropout : Q)
    : result (Matrix → result Matrix) :=
  drop ← Dropout dropout;
  residual ← __init__ embed_dim hidden_dims dropout "eye" (λ _ _, 0%Q);
  Ok (λ x, y ← drop (map_matrix relu x); forward residual y).
End layers.
End Residual.

(** A layer that keeps the shape of its input. *)
Definition keeps_shape (layer : Matrix → result Matrix) : Prop :=
  ∀ x, wf_matrix x →
    ∃ y, layer x = Ok y ∧ wf_matrix y ∧ nrows y = nrows x ∧ ncols y = ncols x.

(** ** A small graph

    Every node is its own neighbour, as often as asked for; the features of
    node [n] are [(n, 1)]. *)
Definition sample_sample_neighbors (graph : unit) (s : nat) (nodes : list Z) (k : Z)
    : result (list Z * nat) :=
  Ok (mjoin (map (λ n, replicate (Z.to_nat k) n) nodes), S s).

Definition sample_node_features (graph : unit) (nodes : list Z) : result Matrix :=
  Ok {| ncols := 2; rows := map (λ n, [inject_Z n; 1%Q]) nodes |}.

(** A transform that repeats the first column [hidden_dims] times. *)
Definition sample_Sequential (embed_dim hidden_dims : Z) (dropout : Q)
    : result (Matrix → result Matrix) :=
  Ok (λ x, Ok (tabulate (nrows x) (Z.to_nat hidden_dims) (λ i j, entry x i 0))).

(** Layers that do nothing, as in evaluation mode with fresh statistics. *)
Definition sample_layer {P : Type} (p : P) : result (Matrix → result Matrix) :=
  Ok (λ x, Ok x).

(** The context of the nodes [10] and [20] with two neighbours on every hop. *)
Definition sample_hops : Context (Context (Context Matrix)) :=
  Eval vm_compute in
    match encoder_query sample_sample_neighbors
            (encoder_query sample_sample_neighbors
               (encoder_query sample_sample_neighbors
                  (query_feature sample_node_features) 2) 2) 2
            [10; 20] () 0%nat with
    | Ok (c, _) => c
    | Err _ =>
        let m := {| ncols := 0; rows := [] |} in
        let c1 := mkContext m m 0 in
        let c2 := mkContext c1 c1 0 in
        mkContext c2 c2 0
    end.

(** The context of an empty batch on the same graph. *)
Definition sample_no_hops : Context (Context (Context Matrix)) :=
  Eval vm_compute in
    match encoder_query sample_sample_neighbors
            (encoder_query sample_sample_neighbors
               (encoder_query sample_sample_neighbors
                  (query_feature sample_node_features) 2) 2) 2
            [] () 0%nat with
    | Ok (c, _) => c
    | Err _ =>
        let m := {| ncols := 0; rows := [] |} in
        let c1 := mkContext m m 0 in
        let c2 := mkContext c1 c1 0 in
        mkContext c2 c2 0
    end.

(** ** Constructors of the SAINT and SAGE encoders *)

(** [nn.init.xavier_uniform_] on [nn.Parameter(torch.FloatTensor(r, c))];
    [values] stands for the numbers drawn. *)
Definition xavier_parameter (r c : Z) (values : nat → nat → Q) : result Matrix :=
  (* torch.FloatTensor(r, c) *)
  if decide (r < 0 ∨ c < 0) then Err NegativeDimension
  (* std = gain * math.sqrt(2.0 / float(fan_in + fan_out)) *)
  else if decide (c + r = 0) then Err ZeroDivisionError
  else Ok (tabulate (Z.to_nat r) (Z.to_nat c) values).

(** [SaintEncoder.__init__]; the arguments that only pass through
    ([query_func], [device_name], [feature_dim], [base_model]) are left
    out. *)
Definition SaintEncoder_init {A} (features : A → result Matrix)
    (aggregator : A → nat → result Matrix) (num_sample : Z)
    (intermediate_dim embed_dim : Z) (activation_fn : Q → Q)
    (values_1 values_2 : nat → nat → Q) : result (SaintEncoder.t A) :=
  weight_1 ← xavier_parameter (embed_dim `div` 2) intermediate_dim values_1;
  weight_2 ← xavier_parameter (embed_dim `div` 2) intermediate_dim values_2;
  Ok (SaintEncoder.mk A features aggregator num_sample activation_fn
        weight_1 weight_2).

(** [SageEncoder.__init__], with the same arguments left out. *)
Definition SageEncoder_init {A} (features : A → result Matrix)
    (aggregator : A → nat → result Matrix) (num_sample : Z)
    (intermediate_dim embed_dim : Z) (activation_fn : Q → Q)
    (values : nat → nat → Q) : result (SageEncoder.t A) :=
  weight ← xavier_parameter embed_dim (2 * intermediate_dim) values;
  Ok (SageEncoder.mk A features aggregator num_sample activation_fn weight).

(** Binary32 neighbour features: two nodes with two neighbours each, and
    one node with seven neighbours whose values add up to 31. *)
Definition sample_float_feats : Float32.Tensor :=
  Float32.mkTensor 3
    (map (map (λ v, Float32.Finite (inject_Z v)))
         [[1; 2; 3]; [4; 5; 6]; [7; 8; 9]; [10; 11; 12]]).

Definition seven_neighbours : Float32.Tensor :=
  Float32.mkTensor 1
    (map (λ v, [Float32.Finite (inject_Z v)]) [1; 2; 3; 4; 5; 6; 10]).

(** * Properties *)

(** ** The partition table *)

Lemma ceil_div_spec (a b : Z) :
  0 < b → a ≤ b * ceil_div a b < a + b.
Proof.
  intros Hb. unfold ceil_div.
  pose proof (Z.div_mod (- a) b ltac:(lia)) as Hdm.
  pose proof (Z.mod_pos_bound (- a) b Hb) as Hm.
  lia.
Qed.

Lemma ceil_div_nonneg (a b : Z) : 0 < b → 0 ≤ a → 0 ≤ ceil_div a b.
Proof. intros Hb Ha. pose proof (ceil_div_spec a b Hb). nia. Qed.

Lemma build_partition_indices_length ps L n :
  length (build_partition_indices ps L n) = n.
Proof. unfold build_partition_indices. by rewrite length_map, length_seq. Qed.

Lemma build_partition_indices_lookup ps L n i :
  (i < n)%nat →
  build_partition_indices ps L n !! i = Some (partition_range ps L i).
Proof.
  intros Hi. unfold build_partition_indices.
  rewrite list_lookup_fmap, lookup_seq_lt by done. done.
Qed.

Lemma build_partition_indices_lookup_Some ps L n i r :
  build_partition_indices ps L n !! i = Some r →
  (i < n)%nat ∧ r = partition_range ps L i.
Proof.
  intros Hr. assert (i < n)%nat as Hi.
  { apply lookup_lt_Some in Hr. by rewrite build_partition_indices_length in Hr. }
  rewrite build_partition_indices_lookup in Hr by done. split; congruence.
Qed.

Lemma contiguous_from_sum lo hi t :
  contiguous_from lo hi t → sum_sizes t = hi - lo.
Proof.
  revert lo. induction t as [|r t IH]; intros lo; simpl.
  - lia.
  - intros (H1 & H2 & H3). apply IH in H3. unfold sum_sizes in *. simpl.
    unfold shard_size at 1. lia.
Qed.

Lemma contiguous_ranges ps L k n :
  0 ≤ ps → (Z.of_nat (k + n) - 1) * ps ≤ L ≤ Z.of_nat (k + n) * ps →
  (0 < n)%nat →
  contiguous_from (Z.of_nat k * ps) L (map (partition_range ps L) (seq k n)).
Proof.
  intros Hps. revert k. induction n as [|n IH]; intros k HL Hn; [lia|].
  simpl. split; [done|]. destruct n as [|n].
  - simpl. split; [nia|]. replace (k + 1)%nat with (S k) in HL by lia. nia.
  - assert (Z.of_nat k * ps + ps ≤ L) as Hle by nia.
    split; [nia|]. rewrite Z.min_l by done.
    replace (Z.of_nat k * ps + ps) with (Z.of_nat (S k) * ps) by lia.
    apply IH; [|lia]. by replace (S k + S n)%nat with (k + S (S n))%nat by lia.
Qed.

(** The table is an exact partition whenever the last start does not pass
    [num_labels]. *)
Lemma partition_table_exact (num_labels : Z) (N : nat) :
  0 ≤ num_labels → (1 ≤ N)%nat →
  (Z.of_nat N - 1) * ceil_div num_labels (Z.of_nat N) ≤ num_labels →
  exact_partition num_labels (partition_table num_labels N).
Proof.
  intros HL HN Hlast. unfold partition_table.
  set (ps := ceil_div num_labels (Z.of_nat N)) in *.
  pose proof (ceil_div_spec num_labels (Z.of_nat N) ltac:(lia)) as Hspec.
  fold ps in Hspec.
  assert (0 ≤ ps) as Hps by (apply ceil_div_nonneg; lia).
  assert (contiguous_from 0 num_labels (build_partition_indices ps num_labels N)) as Hc.
  { change 0 with (Z.of_nat 0 * ps). apply contiguous_ranges; simpl; [done|lia|lia]. }
  assert (∀ i x, in_range (build_partition_indices ps num_labels N) i x ↔
            (i < N)%nat ∧ Z.of_nat i * ps ≤ x < Z.of_nat i * ps + ps ∧ x < num_labels) as Hin.
  { intros i x. unfold in_range. split.
    - intros (r & Hr & Hx). apply build_partition_indices_lookup_Some in Hr as [Hi ->].
      simpl in Hx. lia.
    - intros (Hi & Hx & HxL). eexists. split;
        [by apply build_partition_indices_lookup|]. simpl. lia. }
  split_and!.
  - done.
  - intros i j x Hi Hj. apply Hin in Hi, Hj. nia.
  - intros x. split.
    + intros Hx. exists (Z.to_nat (x `div` ps)). apply Hin.
      assert (0 < ps) as Hps' by nia.
      pose proof (Z.div_mod x ps ltac:(lia)) as Hdm.
      pose proof (Z.mod_pos_bound x ps Hps') as Hm.
      assert (0 ≤ x `div` ps) by (apply Z.div_pos; lia).
      rewrite Z2Nat.id by done.
      assert (x `div` ps < Z.of_nat N) by nia.
      lia.
    + intros [i Hi]. apply Hin in Hi. nia.
  - apply contiguous_from_sum in Hc. lia.
Qed.

(** Claim C1, evaluated on the code.  With [num_labels = 5] and four
    devices the table built by [LinearDistributed.__init__] is
    [(0,2); (2,4); (4,5); (6,5)]: the last range starts at 6, past the end 5
    of the range before it and past [num_labels], its size is [-1], the sizes
    add up to 4 rather than 5, so the table is not an exact partition of
    [0, 5); the constructor then fails on the shard of negative size. *)
Theorem C1_partition_table_five_labels_four_shards :
  partition_table 5 4 = [(0, 2); (2, 4); (4, 5); (6, 5)] ∧
  sum_sizes (partition_table 5 4) = 4 ∧
  ¬ exact_partition 5 (partition_table 5 4) ∧
  ∀ values,
    LinearDistributed.init 4 5 ["cpu"; "cpu"; "cpu"; "cpu"] values
    = Err NegativeDimension.
Proof.
  split_and!.
  - reflexivity.
  - reflexivity.
  - intros (_ & _ & _ & Hsum). vm_compute in Hsum. discriminate.
  - intros values. reflexivity.
Qed.

(** ** The error monad and loops *)

Lemma bind_Ok {A B} (m : result A) (f : A → result B) (b : B) :
  m ≫= f = Ok b ↔ ∃ a, m = Ok a ∧ f a = Ok b.
Proof.
  destruct m as [a|e]; simpl; split.
  - eauto.
  - by intros (a' & [= ->] & ?).
  - done.
  - by intros (? & ? & ?).
Qed.

Lemma bind_Ok_l {A B} (a : A) (f : A → result B) : Ok a ≫= f = f a.
Proof. done. Qed.

Lemma for_each_Ok {A B} (f : A → result B) (xs : list A) (ys : list B) :
  for_each f xs = Ok ys ↔ Forall2 (λ x y, f x = Ok y) xs ys.
Proof.
  revert ys. induction xs as [|x xs IH]; intros ys; simpl.
  - split; [intros [= <-]; constructor | by inversion 1].
  - split.
    + intros (y & Hy & (ys' & Hys & [= <-])%bind_Ok)%bind_Ok.
      constructor; [done|]. by apply IH.
    + inversion 1 as [|? y ? ys' Hy Hys]; subst.
      apply bind_Ok. exists y. split; [done|]. apply bind_Ok.
      exists ys'. split; [by apply IH|done].
Qed.

Lemma for_each_total {A B} (f : A → result B) (xs : list A) :
  Forall (λ x, ∃ y, f x = Ok y) xs → ∃ ys, for_each f xs = Ok ys.
Proof.
  induction 1 as [|x xs [y Hy] _ [ys Hys]]; simpl.
  - by eexists.
  - rewrite Hy. simpl. rewrite Hys. simpl. by eexists.
Qed.

Lemma list_item_Ok {A} (l : list A) (i : nat) (x : A) :
  list_item l i = Ok x ↔ l !! i = Some x.
Proof. unfold list_item. destruct (l !! i); split; congruence. Qed.

(** A loop over [range(n)]. *)
Lemma for_each_range {B} (f : nat → result B) (n : nat) (ys : list B) :
  for_each f (seq 0 n) = Ok ys ↔
  length ys = n ∧ ∀ i y, ys !! i = Some y → f i = Ok y.
Proof.
  rewrite for_each_Ok, Forall2_same_length_lookup, length_seq. split.
  - intros [Hlen H]. split; [done|]. intros i y Hy.
    apply (H i i y); [|done]. apply lookup_seq_lt.
    apply lookup_lt_Some in Hy. lia.
  - intros [Hlen H]. split; [done|]. intros i x y [-> _]%lookup_seq Hy. by apply H.
Qed.

(** ** Shapes of the matrix operations *)

Lemma tabulate_nrows r c f : nrows (tabulate r c f) = r.
Proof. unfold nrows, tabulate. simpl. by rewrite length_map, length_seq. Qed.

Lemma tabulate_ncols r c f : ncols (tabulate r c f) = c.
Proof. done. Qed.

Lemma tabulate_wf r c f : wf_matrix (tabulate r c f).
Proof.
  unfold wf_matrix, tabulate. simpl. apply Forall_forall.
  intros x (i & -> & _)%list_elem_of_fmap. by rewrite length_map, length_seq.
Qed.

Lemma tabulate_row r c f i :
  (i < r)%nat → row (tabulate r c f) i = map (f i) (seq 0 c).
Proof.
  intros Hi. unfold row, tabulate. simpl.
  apply nth_lookup_Some. rewrite list_lookup_fmap, lookup_seq_lt by done. done.
Qed.

Lemma tabulate_entry r c f i j :
  (i < r)%nat → (j < c)%nat → entry (tabulate r c f) i j = f i j.
Proof.
  intros Hi Hj. unfold entry. rewrite tabulate_row by done.
  apply nth_lookup_Some. rewrite list_lookup_fmap, lookup_seq_lt by done. done.
Qed.

Lemma row_length m i : wf_matrix m → (i < nrows m)%nat → length (row m i) = ncols m.
Proof.
  intros Hwf Hi. unfold row. apply lookup_lt_is_Some_2 in Hi as [r Hr].
  rewrite (nth_lookup_Some _ _ _ _ Hr).
  by eapply (Forall_lookup_1 _ _ _ _ Hwf).
Qed.

Lemma rows_tabulate_row m : rows m = map (row m) (seq 0 (nrows m)).
Proof.
  apply list_eq. intros i. rewrite list_lookup_fmap.
  destruct (rows m !! i) as [r|] eqn:Hr.
  - rewrite lookup_seq_lt by (by eapply lookup_lt_Some). simpl.
    unfold row. by rewrite (nth_lookup_Some _ _ _ _ Hr).
  - rewrite lookup_seq_ge by (by apply lookup_ge_None). done.
Qed.

Lemma transpose_shape m :
  nrows (transpose m) = ncols m ∧ ncols (transpose m) = nrows m ∧
  wf_matrix (transpose m).
Proof.
  unfold transpose. rewrite tabulate_nrows, tabulate_ncols.
  split_and!; auto using tabulate_wf.
Qed.

Lemma mm_shape a b :
  ncols a = nrows b →
  ∃ x, mm a b = Ok x ∧ nrows x = nrows a ∧ ncols x = ncols b ∧ wf_matrix x.
Proof.
  intros H. unfold mm. rewrite decide_True by done. eexists. split; [done|].
  rewrite tabulate_nrows, tabulate_ncols. split_and!; auto using tabulate_wf.
Qed.

Lemma map_matrix_shape f m :
  nrows (map_matrix f m) = nrows m ∧ ncols (map_matrix f m) = ncols m ∧
  (wf_matrix m → wf_matrix (map_matrix f m)).
Proof.
  unfold map_matrix, nrows, wf_matrix. simpl. rewrite length_map.
  split_and!; [done..|]. intros Hwf. apply Forall_fmap.
  eapply Forall_impl; [done|]. intros r Hr. simpl. by rewrite length_map.
Qed.

Lemma broadcast_dim_same n : broadcast_dim n n = Ok n.
Proof. unfold broadcast_dim. by rewrite decide_True. Qed.

Lemma broadcast_dim_one_r n : broadcast_dim n 1 = Ok n.
Proof.
  unfold broadcast_dim. destruct (decide (n = 1%nat)) as [->|]; [done|].
  by rewrite decide_True.
Qed.

Lemma broadcast2_row_vector f x b :
  length b = ncols x →
  ∃ y, broadcast2 f x (row_vector b) = Ok y ∧
       nrows y = nrows x ∧ ncols y = ncols x ∧ wf_matrix y.
Proof.
  intros Hb. unfold broadcast2.
  change (nrows (row_vector b)) with 1%nat. change (ncols (row_vector b)) with (length b).
  rewrite broadcast_dim_one_r, Hb, broadcast_dim_same. simpl.
  eexists. split; [done|]. rewrite tabulate_nrows, tabulate_ncols.
  split_and!; auto using tabulate_wf.
Qed.

Lemma broadcast2_same_shape f a b :
  nrows a = nrows b → ncols a = ncols b →
  ∃ y, broadcast2 f a b = Ok y ∧
       nrows y = nrows a ∧ ncols y = ncols a ∧ wf_matrix y.
Proof.
  intros Hr Hc. unfold broadcast2. rewrite Hr, Hc, !broadcast_dim_same. simpl.
  eexists. split; [done|]. rewrite tabulate_nrows, tabulate_ncols.
  split_and!; auto using tabulate_wf.
Qed.

(** ** Entries of the matrix operations *)

Lemma bidx_lt n i : (i < n)%nat → bidx n i = i.
Proof. intros Hi. unfold bidx. case_decide; lia. Qed.

Lemma entry_transpose m i j :
  (i < ncols m)%nat → (j < nrows m)%nat → entry (transpose m) i j = entry m j i.
Proof. intros Hi Hj. unfold transpose. by rewrite tabulate_entry. Qed.

Lemma row_map_matrix f m i : row (map_matrix f m) i = map f (row m i).
Proof. unfold row, map_matrix. simpl. apply (map_nth (map f) (rows m) [] i). Qed.

Lemma entry_map_matrix f m i j :
  wf_matrix m → (i < nrows m)%nat → (j < ncols m)%nat →
  entry (map_matrix f m) i j = f (entry m i j).
Proof.
  intros Hwf Hi Hj. unfold entry. rewrite row_map_matrix.
  pose proof (row_length m i Hwf Hi) as Hlen.
  destruct (lookup_lt_is_Some_2 (row m i) j) as [x Hx]; [lia|].
  rewrite (nth_lookup_Some _ _ _ _ Hx).
  apply nth_lookup_Some. by rewrite list_lookup_fmap, Hx.
Qed.

Lemma entry_mm a b x i j :
  mm a b = Ok x → (i < nrows a)%nat → (j < ncols b)%nat →
  entry x i j = sumQ (map (λ k, entry a i k * entry b k j)%Q (seq 0 (ncols a))).
Proof.
  unfold mm. case_decide; [|done]. intros [= <-] Hi Hj. by rewrite tabulate_entry.
Qed.

Lemma entry_broadcast2_same f a b y i j :
  broadcast2 f a b = Ok y → nrows a = nrows b → ncols a = ncols b →
  (i < nrows a)%nat → (j < ncols a)%nat →
  entry y i j = f (entry a i j) (entry b i j).
Proof.
  intros Hy Hr Hc Hi Hj. unfold broadcast2 in Hy.
  rewrite Hr, Hc, !broadcast_dim_same, !bind_Ok_l in Hy. injection Hy as <-.
  rewrite tabulate_entry by lia. by rewrite !bidx_lt by lia.
Qed.

Lemma entry_cat1_pair a b y i j :
  wf_matrix a → cat1 [a; b] = Ok y → (i < nrows a)%nat →
  entry y i j = if decide (j < ncols a)%nat then entry a i j
                else entry b i (j - ncols a).
Proof.
  intros Hwf Hy Hi. unfold cat1 in Hy. case_decide as HB; [|done].
  injection Hy as <-. unfold entry at 1, row at 1. simpl.
  rewrite (nth_lookup_Some _ _ _ (mjoin [row a i; row b i])); last first.
  { rewrite list_lookup_fmap, lookup_seq_lt by done. done. }
  simpl. rewrite app_nil_r. pose proof (row_length a i Hwf Hi) as Hlen.
  case_decide.
  - by rewrite app_nth1 by lia.
  - rewrite app_nth2 by lia. by rewrite Hlen.
Qed.

Lemma entry_cat0_pair a b y i j :
  cat0 [a; b] = Ok y →
  entry y i j = if decide (i < nrows a)%nat then entry a i j
                else entry b (i - nrows a) j.
Proof.
  intros Hy. unfold cat0 in Hy. case_decide as HB; [|done].
  injection Hy as <-. unfold entry, row. simpl. rewrite app_nil_r.
  case_decide.
  - by rewrite app_nth1 by done.
  - by rewrite app_nth2 by (unfold nrows in *; lia).
Qed.

Lemma sumQ_ext (f g : nat → Q) (n : nat) :
  (∀ k, (k < n)%nat → f k = g k) → sumQ (map f (seq 0 n)) = sumQ (map g (seq 0 n)).
Proof.
  intros H. f_equal. apply list_fmap_ext. intros i k [-> Hk]%lookup_seq. by apply H.
Qed.

(** ** Views of contiguous data *)

Lemma reshape_join_same {A} (ls : list (list A)) (d : nat) :
  Forall (λ l, length l = d) ls →
  reshape (replicate (length ls) d) (mjoin ls) = ls.
Proof.
  induction 1 as [|l ls Hl _ IH]; [done|]. simpl.
  rewrite take_app_length', drop_app_length' by done. by rewrite IH.
Qed.

Lemma join_length_same {A} (ls : list (list A)) (d : nat) :
  Forall (λ l, length l = d) ls → length (mjoin ls) = (length ls * d)%nat.
Proof. intros H. rewrite length_join. by apply sum_list_fmap_same. Qed.

Lemma view_cols_join (ls : list (list Q)) (d : nat) :
  Forall (λ l, length l = d) ls → ls ≠ [] →
  view_cols (length ls) (mjoin ls) = Ok {| ncols := d; rows := ls |}.
Proof.
  intros Hls Hne. unfold view_cols.
  assert (length ls ≠ 0)%nat as Hn by (by destruct ls).
  rewrite decide_False by done. rewrite (join_length_same ls d Hls).
  rewrite (Nat.mul_comm (length ls) d), Nat.Div0.mod_mul, decide_True by done.
  rewrite Nat.div_mul by done. by rewrite reshape_join_same.
Qed.

Lemma view_rows_join (ls : list (list Q)) (d : nat) :
  Forall (λ l, length l = d) ls → (0 < d)%nat →
  view_rows d (mjoin ls) = Ok {| ncols := d; rows := ls |}.
Proof.
  intros Hls Hd. unfold view_rows. rewrite decide_False by lia.
  rewrite (join_length_same ls d Hls), Nat.Div0.mod_mul, decide_True by done.
  rewrite Nat.div_mul by lia. by rewrite reshape_join_same.
Qed.

(** ** Concatenation along the columns *)

Lemma join_rows_length (xs : list Matrix) (B i : nat) :
  Forall wf_matrix xs → Forall (λ m, nrows m = B) xs → (i < B)%nat →
  length (mjoin (map (λ m, row m i) xs)) = sum_list (map ncols xs).
Proof.
  intros Hwf HB Hi. induction xs as [|x xs IH]; [done|].
  apply Forall_cons in Hwf as [Hx Hwf]. apply Forall_cons in HB as [HxB HB].
  simpl. rewrite length_app, IH by done.
  rewrite row_length by (done || lia). done.
Qed.

Lemma cat1_Ok (xs : list Matrix) (B : nat) :
  xs ≠ [] → Forall (λ m, nrows m = B) xs →
  ∃ y, cat1 xs = Ok y ∧ nrows y = B ∧ ncols y = sum_list (map ncols xs) ∧
       rows y = map (λ i, mjoin (map (λ m, row m i) xs)) (seq 0 B).
Proof.
  intros Hne HB. destruct xs as [|x0 xs]; [done|]. unfold cat1.
  assert (nrows x0 = B) as Hx0 by (by apply Forall_cons in HB as [? _]).
  rewrite decide_True by (by rewrite Hx0).
  eexists. split; [done|]. unfold nrows at 1. simpl.
  rewrite length_map, length_seq, Hx0. done.
Qed.

Lemma cat1_wf (xs : list Matrix) (y : Matrix) :
  Forall wf_matrix xs → cat1 xs = Ok y → wf_matrix y.
Proof.
  intros Hwf. destruct xs as [|x0 xs]; [done|]. unfold cat1.
  case_decide as HB; [|done]. intros [= <-]. unfold wf_matrix. simpl.
  apply Forall_forall. intros r (i & -> & Hi%elem_of_seq)%list_elem_of_fmap.
  apply (join_rows_length (x0 :: xs) (nrows x0)); [done..|lia].
Qed.

(** Cutting the concatenation at the offset of block [k] gives back block
    [k]. *)
Lemma cat1_narrow (xs : list Matrix) (B k : nat) (x y : Matrix) :
  Forall wf_matrix xs → Forall (λ m, nrows m = B) xs →
  cat1 xs = Ok y → xs !! k = Some x →
  let off := sum_list (map ncols (take k xs)) in
  narrow y off (off + ncols x) = x.
Proof.
  intros Hwf HB Hy Hk off.
  assert (xs ≠ []) as Hne by (by intros ->).
  destruct (cat1_Ok xs B Hne HB) as (y' & Hy' & Hrows & Hcols & Hdata).
  rewrite Hy in Hy'. injection Hy' as <-.
  pose proof (take_drop_middle _ _ _ Hk) as Hsplit.
  assert (nrows x = B) as HxB by (by eapply (Forall_lookup_1 _ _ _ _ HB)).
  assert (wf_matrix x) as Hxwf by (by eapply (Forall_lookup_1 _ _ _ _ Hwf)).
  assert (ncols y = off + ncols x + sum_list (map ncols (drop (S k) xs)))%nat as Hsum.
  { rewrite Hcols. rewrite <- Hsplit at 1. rewrite map_app, sum_list_with_app.
    simpl. fold off. lia. }
  destruct x as [xc xr]. unfold narrow. f_equal.
  - simpl in *. lia.
  - rewrite Hdata. change xr with (rows (mkMatrix xc xr)).
    rewrite (rows_tabulate_row (mkMatrix xc xr)), HxB.
    rewrite <- list_fmap_compose. apply list_fmap_ext.
    intros j i [-> Hi]%lookup_seq. simpl.
    rewrite <- Hsplit at 1. rewrite map_app, join_app. simpl.
    rewrite drop_app_length'; last first.
    { symmetry. apply (join_rows_length _ B);
        [by apply Forall_take|by apply Forall_take|done]. }
    replace (off + xc - off)%nat with xc by lia.
    apply take_app_length'. symmetry.
    apply (row_length (mkMatrix xc xr)); [done|lia].
Qed.

(** ** Shapes inside one shard *)

Lemma LinearChunk_init_Ok input_size output_size dev values c :
  LinearChunk.init input_size output_size dev values = Ok c →
  0 ≤ output_size ∧ 0 < input_size ∧
  shard_shape c (Z.to_nat output_size) (Z.to_nat input_size) ∧
  LinearChunk.input_size c = input_size ∧ LinearChunk.output_size c = output_size.
Proof.
  unfold LinearChunk.init. case_decide as Hneg; [done|].
  case_decide as Hz; [done|]. intros [= <-]. simpl.
  split_and!; try lia; try done.
  unfold shard_shape. simpl. rewrite !tabulate_nrows.
  rewrite length_map, length_seq. split_and!; auto using tabulate_wf.
Qed.

Lemma LinearChunk_init_total input_size output_size dev values :
  0 ≤ output_size → 0 < input_size →
  ∃ c, LinearChunk.init input_size output_size dev values = Ok c.
Proof.
  intros Ho Hi. unfold LinearChunk.init.
  rewrite decide_False by lia. rewrite decide_False by lia. by eexists.
Qed.

Lemma softmax_row_length exp r : length (softmax_row exp r) = length r.
Proof. unfold softmax_row. by rewrite !length_map. Qed.

Lemma attention_mix_length (w a : list (list Q)) (d : nat) :
  Forall (λ r, length r = d) w → Forall (λ r, length r = 3%nat) a →
  length w = length a →
  length (attention_mix w a) = (length w * (3 * d))%nat.
Proof.
  intros Hw. revert a. induction Hw as [|wl w Hwl Hw IH]; intros a Ha Hlen.
  - done.
  - destruct a as [|al a]; [done|]. apply Forall_cons in Ha as [Hal Ha].
    unfold attention_mix in *. simpl. rewrite length_app, IH by (done || (simpl in Hlen; lia)).
    destruct al as [|a1 [|a2 [|a3 [|]]]]; try done. simpl.
    rewrite !length_app, !length_map. simpl. lia.
Qed.

Lemma view_rows_Ok (d n : nat) (data : list Q) :
  (0 < d)%nat → length data = (n * d)%nat →
  ∃ m, view_rows d data = Ok m ∧ ncols m = d ∧ nrows m = n.
Proof.
  intros Hd Hlen. unfold view_rows. rewrite decide_False by lia.
  rewrite Hlen, Nat.Div0.mod_mul, decide_True by done.
  eexists. split; [done|]. split; [done|]. unfold nrows. simpl.
  rewrite length_reshape, length_replicate. apply Nat.div_mul. lia.
Qed.

Lemma project_shape exp (embed : Matrix) (w a : list (list Q)) (d n : nat) :
  (0 < d)%nat → ncols embed = (3 * d)%nat →
  Forall (λ r, length r = d) w → Forall (λ r, length r = 3%nat) a →
  length w = n → length a = n →
  ∃ x, LinearChunk.project exp embed w a = Ok x ∧
       nrows x = nrows embed ∧ ncols x = n ∧ wf_matrix x.
Proof.
  intros Hd He Hw Ha Hlw Hla. unfold LinearChunk.project.
  destruct (view_rows_Ok (ncols embed) n
              (attention_mix w (map (softmax_row exp) a))) as (w2 & -> & Hc & Hr).
  { lia. }
  { rewrite (attention_mix_length _ _ d), Hlw, He; [done|done| |].
    - apply Forall_fmap. eapply Forall_impl; [done|].
      intros r Hr. simpl. by rewrite softmax_row_length.
    - rewrite length_map. lia. }
  simpl. destruct (transpose_shape w2) as (Htr & Htc & _).
  destruct (mm_shape embed (transpose w2)) as (x & -> & Hxr & Hxc & Hxwf).
  { by rewrite Htr, Hc. }
  exists x. split; [done|]. split_and!; [done| |done]. by rewrite Hxc, Htc.
Qed.

(** Dense mode of one shard: one logit column per label of the shard. *)
Lemma LinearChunk_forward_dense_shape exp (c : LinearChunk.t) (embed : Matrix) (o d : nat) :
  shard_shape c o d → (0 < d)%nat → ncols embed = (3 * d)%nat →
  ∃ x, LinearChunk.forward exp c (embed, NoLabels) = Ok x ∧
       nrows x = nrows embed ∧ ncols x = o ∧ wf_matrix x.
Proof.
  intros (Hw & Hwr & Hwc & Ha & Har & Hac & Hb) Hd He.
  unfold LinearChunk.forward. simpl.
  destruct (project_shape exp embed (rows (LinearChunk.weight c))
              (rows (LinearChunk.attention_weights c)) d o)
    as (x & -> & Hxr & Hxc & Hxwf); try done.
  { by rewrite <- Hwc. }
  { by rewrite <- Hac. }
  simpl. destruct (broadcast2_row_vector Qplus x (LinearChunk.bias c))
    as (y & -> & Hyr & Hyc & Hywf); [by rewrite Hxc|].
  exists y. split_and!; [done| | |done]; congruence.
Qed.

(** ** Construction of the distributed classifier *)

Lemma contiguous_from_prefix lo hi t k r :
  contiguous_from lo hi t → t !! k = Some r →
  lo + sum_sizes (take k t) = r.1 ∧ r.1 ≤ r.2.
Proof.
  revert lo k. induction t as [|r0 t IH]; intros lo k Hc Hk; [done|].
  destruct Hc as (H1 & H2 & H3). destruct k as [|k]; simpl in *.
  - injection Hk as <-. unfold sum_sizes. simpl. lia.
  - destruct (IH _ _ H3 Hk) as [IH1 IH2]. split; [|done].
    unfold sum_sizes in *. simpl. unfold shard_size at 1. lia.
Qed.

Lemma sum_sizes_ncols (xs : list Matrix) (t : list (Z * Z)) :
  Forall2 (λ x r, Z.of_nat (ncols x) = shard_size r) xs t →
  Z.of_nat (sum_list (map ncols xs)) = sum_sizes t.
Proof.
  induction 1 as [|x r xs t Hx _ IH]; [done|].
  unfold sum_sizes in *. simpl. lia.
Qed.

Lemma LinearDistributed_init_Ok input_size output_size devs values c :
  LinearDistributed.init input_size output_size devs values = Ok c →
  let N := length devs in
  (0 < N)%nat ∧ 0 < input_size ∧ 0 ≤ output_size ∧
  LinearDistributed.num_partitions c = N ∧
  LinearDistributed.device_embeddings c = devs ∧
  LinearDistributed.input_size c = input_size ∧
  LinearDistributed.output_size c = output_size ∧
  LinearDistributed.partition_indices c = partition_table output_size N ∧
  exact_partition output_size (partition_table output_size N) ∧
  length (LinearDistributed.classifiers c) = N ∧
  ∀ i sh, LinearDistributed.classifiers c !! i = Some sh →
    ∃ r, partition_table output_size N !! i = Some r ∧ 0 ≤ r.1 ≤ r.2 ∧
         shard_shape sh (Z.to_nat (r.2 - r.1)) (Z.to_nat input_size).
Proof.
  intros Hinit N. unfold LinearDistributed.init in Hinit. fold N in Hinit.
  case_decide as HN; [done|].
  apply bind_Ok in Hinit as (cls & Hcls & [= <-]). simpl.
  apply for_each_range in Hcls as [Hlen Hcls].
  set (ps := ceil_div output_size (Z.of_nat N)) in *.
  assert (∀ i sh, cls !! i = Some sh →
            (i < N)%nat ∧ 0 < input_size ∧
            Z.of_nat i * ps ≤ Z.min (Z.of_nat i * ps + ps) output_size ∧
            shard_shape sh
              (Z.to_nat (Z.min (Z.of_nat i * ps + ps) output_size - Z.of_nat i * ps))
              (Z.to_nat input_size)) as Hsh.
  { intros i sh Hi. pose proof (lookup_lt_Some _ _ _ Hi) as HiN. rewrite Hlen in HiN.
    apply Hcls in Hi.
    apply bind_Ok in Hi as (r & Hr%list_item_Ok & Hi).
    apply bind_Ok in Hi as (d & Hd & Hi).
    apply build_partition_indices_lookup_Some in Hr as [_ ->].
    apply LinearChunk_init_Ok in Hi as (Ho & Hin & Hshape & _). simpl in *.
    split_and!; [done|done|lia|done]. }
  destruct (lookup_lt_is_Some_2 cls 0) as [sh0 Hsh0]; [lia|].
  destruct (lookup_lt_is_Some_2 cls (N - 1)) as [shl Hshl]; [lia|].
  destruct (Hsh _ _ Hsh0) as (_ & Hin & H0 & _).
  destruct (Hsh _ _ Hshl) as (_ & _ & Hl & _).
  assert (0 ≤ output_size) as HL by lia.
  assert (0 ≤ ps) as Hps by (apply ceil_div_nonneg; lia).
  split_and!; try done; try lia.
  - apply partition_table_exact; [done|lia|]. fold ps.
    replace (Z.of_nat N - 1) with (Z.of_nat (N - 1)) by lia. lia.
  - intros i sh Hi. destruct (Hsh _ _ Hi) as (HiN & _ & Hle & Hshape).
    exists (partition_range ps output_size i). split.
    { unfold partition_table. by apply build_partition_indices_lookup. }
    simpl. split; [nia|done].
Qed.

(** The loop over the shards: when every shard answers, the loop collects
    the answers in shard order. *)
Lemma shard_loop {S X} (cls : list S) (g : nat → S → result X) :
  (∀ i sh, cls !! i = Some sh → ∃ x, g i sh = Ok x) →
  ∃ xs, for_each (λ i, c ← list_item cls i; g i c) (seq 0 (length cls)) = Ok xs ∧
        length xs = length cls ∧
        ∀ i x, xs !! i = Some x → ∃ sh, cls !! i = Some sh ∧ g i sh = Ok x.
Proof.
  intros Hg.
  destruct (for_each_total (λ i, c ← list_item cls i; g i c) (seq 0 (length cls)))
    as [xs Hxs].
  { apply Forall_forall. intros i Hi%elem_of_seq.
    destruct (lookup_lt_is_Some_2 cls i) as [sh Hsh]; [lia|].
    destruct (Hg _ _ Hsh) as [x Hx]. exists x. apply bind_Ok.
    exists sh. by rewrite list_item_Ok. }
  exists xs. split; [done|]. apply for_each_range in Hxs as [Hlen Hxs].
  split; [done|]. intros i x Hx. apply Hxs in Hx.
  apply bind_Ok in Hx as (sh & Hsh%list_item_Ok & Hx). eauto.
Qed.

(** ** Dense mode *)

(** Claim C2.  For a classifier built by the constructor and an embedding
    batch of the width the shards expect (three times [input_size]), the
    dense forward returns a [(batch, num_labels)] matrix; it is the
    column-wise concatenation, in partition order, of what each shard's own
    forward returns on the same embedding, and cutting it at the partition
    range of shard [i] gives back exactly the output of shard [i]. *)
Theorem C2_dense_forward_concatenates_shards
    (exp : Q → Q) (input_size num_labels : Z) (devs : list Device)
    (values : nat → LinearChunk.Init) (c : LinearDistributed.t) (embed : Matrix) :
  LinearDistributed.init input_size num_labels devs values = Ok c →
  ncols embed = (3 * Z.to_nat input_size)%nat →
  ∃ y xs,
    LinearDistributed.forward exp c (embed, NoLabels) = Ok y ∧
    nrows y = nrows embed ∧ Z.of_nat (ncols y) = num_labels ∧
    Forall2 (λ sh x, LinearChunk.forward exp sh (embed, NoLabels) = Ok x)
      (LinearDistributed.classifiers c) xs ∧
    cat1 xs = Ok y ∧
    ∀ i r x, LinearDistributed.partition_indices c !! i = Some r →
      xs !! i = Some x → narrow y (Z.to_nat r.1) (Z.to_nat r.2) = x.
Proof.
  intros Hinit He.
  destruct (LinearDistributed_init_Ok _ _ _ _ _ Hinit)
    as (HN & Hin & HL & _ & Hdev & _ & _ & Hpi & Hexact & Hlen & Hsh).
  set (N := length devs) in *. set (t := partition_table num_labels N) in *.
  destruct (shard_loop (LinearDistributed.classifiers c)
              (λ _ sh, LinearChunk.forward exp sh (embed, NoLabels)))
    as (xs & Hloop & Hxlen & Hxs).
  { intros i sh Hi. destruct (Hsh _ _ Hi) as (r & _ & _ & Hshape).
    destruct (LinearChunk_forward_dense_shape exp sh embed _ _ Hshape)
      as (x & Hx & _); [lia|done|]. eauto. }
  assert (∀ i x, xs !! i = Some x →
            nrows x = nrows embed ∧ wf_matrix x ∧
            ∃ r, t !! i = Some r ∧ 0 ≤ r.1 ≤ r.2 ∧ Z.of_nat (ncols x) = shard_size r)
    as Hshape.
  { intros i x Hx. destruct (Hxs _ _ Hx) as (sh & Hi & Hfw).
    destruct (Hsh _ _ Hi) as (r & Hr & Hle & Hss).
    destruct (LinearChunk_forward_dense_shape exp sh embed _ _ Hss)
      as (x' & Hx' & Hxr & Hxc & Hxwf); [lia|done|].
    rewrite Hfw in Hx'. injection Hx' as <-.
    split_and!; [done..|]. exists r. split_and!; try done; try lia.
    unfold shard_size. lia. }
  assert (Forall wf_matrix xs) as Hwf.
  { apply Forall_lookup. intros i x Hx. by apply Hshape in Hx as (_ & ? & _). }
  assert (Forall (λ m, nrows m = nrows embed) xs) as HB.
  { apply Forall_lookup. intros i x Hx. by apply Hshape in Hx as (? & _). }
  assert (Forall2 (λ x r, Z.of_nat (ncols x) = shard_size r) xs t) as Hcols.
  { apply Forall2_same_length_lookup. split.
    - unfold t, partition_table. rewrite build_partition_indices_length. lia.
    - intros i x r Hx Hr. apply Hshape in Hx as (_ & _ & r' & Hr' & _ & ?). congruence. }
  destruct (cat1_Ok xs (nrows embed)) as (y & Hy & Hyr & Hyc & _); [|done|].
  { intros ->. simpl in Hxlen. lia. }
  exists y, xs. split_and!.
  - unfold LinearDistributed.forward. simpl. rewrite Hdev. fold N. rewrite <- Hlen.
    rewrite Hloop. done.
  - done.
  - rewrite Hyc, (sum_sizes_ncols _ _ Hcols). apply Hexact.
  - apply Forall2_same_length_lookup. split; [done|].
    intros i sh x Hi Hx. destruct (Hxs _ _ Hx) as (sh' & Hi' & Hfw). congruence.
  - done.
  - intros i r x Hr Hx. rewrite Hpi in Hr. fold t in Hr.
    destruct (Hshape _ _ Hx) as (_ & _ & r' & Hr' & Hle & Hc).
    assert (r' = r) as -> by congruence.
    destruct Hexact as (Hcont & _).
    destruct (contiguous_from_prefix _ _ _ _ _ Hcont Hr) as [Hoff _].
    pose proof (sum_sizes_ncols _ _ (Forall2_take _ _ _ i Hcols)) as Hpre.
    pose proof (cat1_narrow xs (nrows embed) i x y Hwf HB Hy Hx) as Hnar.
    simpl in Hnar. unfold shard_size in Hc.
    replace (Z.to_nat r.1) with (sum_list (map ncols (take i xs))) by lia.
    replace (Z.to_nat r.2) with (sum_list (map ncols (take i xs)) + ncols x)%nat by lia.
    done.
Qed.

(** ** Rank-one label ids *)

Lemma for_each_ext {A B} (f g : A → result B) (xs : list A) :
  (∀ x, x ∈ xs → f x = g x) → for_each f xs = for_each g xs.
Proof.
  induction xs as [|x xs IH]; intros Hfg; [done|]. simpl.
  rewrite Hfg by apply list_elem_of_here. rewrite IH; [done|].
  intros x' Hx'. apply Hfg. by apply list_elem_of_further.
Qed.

Lemma index_rows_Ok {A} `{Inhabited A} (table : list A) (ids : list Z) :
  Forall (valid_index (length table)) ids →
  ∃ rs, index_rows table ids = Ok rs ∧ length rs = length ids ∧
        Forall (λ r, r ∈ table) rs.
Proof.
  unfold index_rows. induction 1 as [|id ids Hid _ (rs & Hrs & Hlen & Hin)]; simpl.
  - by exists [].
  - unfold valid_index in Hid. rewrite decide_True by done. simpl.
    rewrite Hrs. simpl. eexists. split; [done|]. simpl. split; [by rewrite Hlen|].
    constructor; [|done]. apply list_elem_of_lookup_total_2.
    pose proof (Z.mod_pos_bound id (Z.of_nat (length table)) ltac:(lia)). lia.
Qed.

Lemma slice_length {A} (l : list A) (s e : Z) :
  0 ≤ s ≤ e →
  length (slice l s e)
  = (Nat.min (Z.to_nat e) (length l) - Nat.min (Z.to_nat s) (length l))%nat.
Proof.
  intros Hse. unfold slice, slice_bound.
  rewrite !decide_False by lia. rewrite length_take, length_drop. lia.
Qed.

Lemma sum_slices {A} (l : list A) (xs : list Matrix) (t : list (Z * Z)) (lo hi : Z) :
  contiguous_from lo hi t → 0 ≤ lo →
  Forall2 (λ x r, ncols x = length (slice l r.1 r.2)) xs t →
  (sum_list (map ncols xs) + Nat.min (Z.to_nat lo) (length l)
   = Nat.min (Z.to_nat hi) (length l))%nat.
Proof.
  intros Hc Hlo HF. revert lo Hc Hlo.
  induction HF as [|x r xs t Hx _ IH]; intros lo Hc Hlo; simpl in *.
  - by subst.
  - destruct Hc as (H1 & H2 & H3). specialize (IH _ H3 ltac:(lia)).
    rewrite Hx, slice_length by lia. rewrite H1 in *. lia.
Qed.

(** Rank-one mode of one shard: one logit column per id, read from the rows
    of the shard's own tables that the ids select. *)
Lemma LinearChunk_forward_1d_shape exp (c : LinearChunk.t) (embed : Matrix)
    (o d : nat) (ids : list Z) :
  shard_shape c o d → (0 < d)%nat → ncols embed = (3 * d)%nat →
  Forall (valid_index o) ids →
  ∃ x, LinearChunk.forward exp c (embed, Labels1D ids) = Ok x ∧
       nrows x = nrows embed ∧ ncols x = length ids ∧ wf_matrix x.
Proof.
  intros (Hw & Hwr & Hwc & Ha & Har & Hac & Hb) Hd He Hids.
  unfold LinearChunk.forward. simpl.
  destruct (index_rows_Ok (rows (LinearChunk.weight c)) ids)
    as (w & -> & Hwl & Hwin); [by rewrite <- Hwr in Hids|].
  destruct (index_rows_Ok (rows (LinearChunk.attention_weights c)) ids)
    as (a & -> & Hal & Hain); [by rewrite <- Har in Hids|].
  destruct (index_rows_Ok (LinearChunk.bias c) ids)
    as (b & Hbb & Hbl & _); [by rewrite Hb|].
  simpl.
  destruct (project_shape exp embed w a d (length ids))
    as (x & -> & Hxr & Hxc & Hxwf); try done.
  { eapply Forall_impl; [done|]. intros r Hr. simpl in Hr.
    rewrite <- Hwc. by eapply (proj1 (Forall_forall _ _) Hw). }
  { eapply Forall_impl; [done|]. intros r Hr. simpl in Hr.
    rewrite <- Hac. by eapply (proj1 (Forall_forall _ _) Ha). }
  simpl. rewrite Hbb. simpl.
  destruct (broadcast2_row_vector Qplus x b)
    as (y & -> & Hyr & Hyc & Hywf); [by rewrite Hxc|].
  exists y. split_and!; [done| | |done]; congruence.
Qed.

(** ** Entries of the logits of one shard *)

Lemma attention_mix_blocks exp (w a : list (list Q)) :
  attention_mix w (map (softmax_row exp) a) = mjoin (zip_with (label_block exp) w a).
Proof. unfold attention_mix. by rewrite zip_with_fmap_r. Qed.

Lemma label_block_length exp (wl al : list Q) :
  length al = 3%nat → length (label_block exp wl al) = (3 * length wl)%nat.
Proof.
  intros Hal. unfold label_block.
  pose proof (softmax_row_length exp al) as Hs. rewrite Hal in Hs.
  destruct (softmax_row exp al) as [|a1 [|a2 [|a3 [|]]]]; try done. simpl.
  rewrite !length_app, !length_map. simpl. lia.
Qed.

(** Column [j] of the projection is the product of the embedding with the
    effective weight of the [j]-th selected label. *)
Lemma project_entry exp (embed : Matrix) (w a : list (list Q)) (d : nat)
    (x : Matrix) (b j : nat) (wl al : list Q) :
  (0 < d)%nat → ncols embed = (3 * d)%nat →
  Forall (λ r, length r = d) w → Forall (λ r, length r = 3%nat) a →
  LinearChunk.project exp embed w a = Ok x →
  (b < nrows embed)%nat → w !! j = Some wl → a !! j = Some al →
  entry x b j
  = sumQ (map (λ k, entry embed b k * nth k (label_block exp wl al) 0)%Q
            (seq 0 (ncols embed))).
Proof.
  intros Hd He Hw Ha Hx Hb Hwl Hal. unfold LinearChunk.project in Hx.
  rewrite attention_mix_blocks in Hx.
  set (blocks := zip_with (label_block exp) w a) in *.
  assert (Forall (λ l, length l = ncols embed) blocks) as Hblocks.
  { apply Forall_forall. intros l (i & wl' & al' & -> & Hi1 & Hi2)%elem_of_lookup_zip_with.
    rewrite label_block_length, He.
    - by rewrite (Forall_lookup_1 _ _ _ _ Hw Hi1).
    - by apply (Forall_lookup_1 _ _ _ _ Ha Hi2). }
  rewrite (view_rows_join blocks (ncols embed)), bind_Ok_l in Hx by (done || lia).
  set (w2 := {| ncols := ncols embed; rows := blocks |}) in *.
  assert (blocks !! j = Some (label_block exp wl al)) as Hj.
  { unfold blocks. rewrite lookup_zip_with, Hwl, Hal. done. }
  assert (j < nrows w2)%nat as Hjn by (by apply lookup_lt_Some in Hj).
  rewrite (entry_mm _ _ _ _ _ Hx); [|done|].
  - apply sumQ_ext. intros k Hk. f_equal.
    rewrite entry_transpose by done. unfold entry, row. simpl.
    by rewrite (nth_lookup_Some _ _ _ _ Hj).
  - by destruct (transpose_shape w2) as (_ & -> & _).
Qed.

Lemma index_rows_lookup {A} `{Inhabited A} (table : list A) (ids : list Z)
    (rs : list A) (j : nat) (id : Z) :
  index_rows table ids = Ok rs → ids !! j = Some id →
  valid_index (length table) id ∧
  rs !! j = table !! Z.to_nat (id `mod` Z.of_nat (length table)).
Proof.
  unfold index_rows. rewrite for_each_Ok. intros HF Hid.
  destruct (Forall2_lookup_l _ _ _ _ _ HF Hid) as (r & Hr & Hdec).
  case_decide as Hv; [|done]. injection Hdec as <-. split; [done|].
  rewrite Hr. symmetry. apply list_lookup_lookup_total_lt.
  pose proof (Z.mod_pos_bound id (Z.of_nat (length table)) ltac:(lia)). lia.
Qed.

Lemma entry_broadcast2_row_vector f (x : Matrix) (v : list Q) (y : Matrix) (b j : nat) :
  broadcast2 f x (row_vector v) = Ok y → length v = ncols x →
  (b < nrows x)%nat → (j < ncols x)%nat →
  entry y b j = f (entry x b j) (nth j v 0%Q).
Proof.
  intros Hy Hv Hb Hj. unfold broadcast2 in Hy.
  change (nrows (row_vector v)) with 1%nat in Hy.
  change (ncols (row_vector v)) with (length v) in Hy.
  rewrite broadcast_dim_one_r, Hv, broadcast_dim_same, !bind_Ok_l in Hy.
  injection Hy as <-. rewrite tabulate_entry by done.
  rewrite !bidx_lt by lia. unfold bidx. rewrite decide_True by done. done.
Qed.

(** In rank-one mode a shard reads, for the id at position [j], the row of
    its own tables that the id selects: the logit column [j] is the dense
    logit column of that row. *)
Lemma LinearChunk_forward_1d_columns exp (c : LinearChunk.t) (embed : Matrix)
    (o d : nat) (ids : list Z) (x z : Matrix) (b j : nat) (id : Z) :
  shard_shape c o d → (0 < d)%nat → ncols embed = (3 * d)%nat →
  LinearChunk.forward exp c (embed, Labels1D ids) = Ok x →
  LinearChunk.forward exp c (embed, NoLabels) = Ok z →
  (b < nrows embed)%nat → ids !! j = Some id →
  entry x b j = entry z b (Z.to_nat (id `mod` Z.of_nat o)).
Proof.
  intros (Hw & Hwr & Hwc & Ha & Har & Hac & Hb) Hd He Hx Hz Hbn Hid.
  unfold LinearChunk.forward in Hx, Hz. simpl in Hx, Hz.
  apply bind_Ok in Hx as (w & Hwi & Hx). apply bind_Ok in Hx as (a & Hai & Hx).
  apply bind_Ok in Hx as (xp & Hxp & Hx). apply bind_Ok in Hx as (bv & Hbi & Hx).
  apply bind_Ok in Hz as (zp & Hzp & Hz).
  destruct (index_rows_lookup _ _ _ _ _ Hwi Hid) as [Hv Hwj].
  destruct (index_rows_lookup _ _ _ _ _ Hai Hid) as [_ Haj].
  destruct (index_rows_lookup _ _ _ _ _ Hbi Hid) as [_ Hbj].
  fold (nrows (LinearChunk.weight c)) in Hv, Hwj. rewrite Hwr in Hv, Hwj.
  fold (nrows (LinearChunk.attention_weights c)) in Haj. rewrite Har in Haj.
  rewrite Hb in Hbj.
  set (k := Z.to_nat (id `mod` Z.of_nat o)) in *.
  assert (k < o)%nat as Hk.
  { unfold valid_index in Hv.
    pose proof (Z.mod_pos_bound id (Z.of_nat o) ltac:(lia)). lia. }
  destruct (lookup_lt_is_Some_2 (rows (LinearChunk.weight c)) k) as [wl Hwl];
    [by fold (nrows (LinearChunk.weight c)); rewrite Hwr|].
  destruct (lookup_lt_is_Some_2 (rows (LinearChunk.attention_weights c)) k) as [al Hal];
    [by fold (nrows (LinearChunk.attention_weights c)); rewrite Har|].
  destruct (lookup_lt_is_Some_2 (LinearChunk.bias c) k) as [bk Hbk]; [by rewrite Hb|].
  rewrite Hwl in Hwj. rewrite Hal in Haj. rewrite Hbk in Hbj.
  assert (Forall (λ r, length r = d) (rows (LinearChunk.weight c))) as Hwd
    by (by rewrite <- Hwc).
  assert (Forall (λ r, length r = 3%nat) (rows (LinearChunk.attention_weights c))) as Ha3
    by (by rewrite <- Hac).
  assert (Forall (λ r, r ∈ rows (LinearChunk.weight c)) w ∧ length w = length ids)
    as [Hwin Hwlen].
  { destruct (index_rows_Ok (rows (LinearChunk.weight c)) ids) as (w' & Hw' & ? & ?).
    - apply Forall_lookup. intros i id' Hid'.
      destruct (index_rows_lookup _ _ _ _ _ Hwi Hid') as [Hv' _]. done.
    - by assert (w' = w) as -> by congruence. }
  assert (Forall (λ r, r ∈ rows (LinearChunk.attention_weights c)) a ∧
          length a = length ids) as [Hain Halen].
  { destruct (index_rows_Ok (rows (LinearChunk.attention_weights c)) ids)
      as (a' & Ha' & ? & ?).
    - apply Forall_lookup. intros i id' Hid'.
      destruct (index_rows_lookup _ _ _ _ _ Hai Hid') as [Hv' _]. done.
    - by assert (a' = a) as -> by congruence. }
  assert (length bv = length ids) as Hbvlen.
  { destruct (index_rows_Ok (LinearChunk.bias c) ids) as (b' & Hb' & ? & ?).
    - apply Forall_lookup. intros i id' Hid'.
      destruct (index_rows_lookup _ _ _ _ _ Hbi Hid') as [Hv' _]. done.
    - by assert (b' = bv) as -> by congruence. }
  assert (Forall (λ r, length r = d) w) as Hwd'.
  { eapply Forall_impl; [done|]. intros r Hr. simpl in Hr.
    by eapply (proj1 (Forall_forall _ _) Hwd). }
  assert (Forall (λ r, length r = 3%nat) a) as Ha3'.
  { eapply Forall_impl; [done|]. intros r Hr. simpl in Hr.
    by eapply (proj1 (Forall_forall _ _) Ha3). }
  destruct (project_shape exp embed w a d (length ids)) as (xp' & Hxp' & Hxpr & Hxpc & _);
    try done.
  assert (xp' = xp) as -> by congruence.
  destruct (project_shape exp embed (rows (LinearChunk.weight c))
              (rows (LinearChunk.attention_weights c)) d o)
    as (zp' & Hzp' & Hzpr & Hzpc & _); try done.
  assert (zp' = zp) as -> by congruence.
  assert (j < length ids)%nat as Hj by (by apply lookup_lt_Some in Hid).
  rewrite (entry_broadcast2_row_vector _ _ _ _ _ _ Hx) by lia.
  rewrite (entry_broadcast2_row_vector _ _ _ _ _ _ Hz) by lia.
  rewrite (project_entry exp embed w a d xp b j wl al) by done.
  rewrite (project_entry exp embed (rows (LinearChunk.weight c))
             (rows (LinearChunk.attention_weights c)) d zp b k wl al) by done.
  by rewrite (nth_lookup_Some _ _ _ _ Hbj), (nth_lookup_Some _ _ _ _ Hbk).
Qed.

(** ** Global ids on several shards *)

Lemma index_rows_invalid {A} `{Inhabited A} (table : list A) (ids : list Z) :
  Exists (λ id, ¬ valid_index (length table) id) ids →
  index_rows table ids = Err IndexError.
Proof.
  unfold index_rows, valid_index. induction ids as [|id ids IH]; intros Hex.
  - by apply Exists_nil in Hex.
  - simpl. case_decide as Hid; [|done]. rewrite bind_Ok_l.
    apply Exists_cons in Hex as [?|Hex]; [done|]. by rewrite IH.
Qed.

Lemma LinearChunk_forward_1d_invalid exp (c : LinearChunk.t) (embed : Matrix)
    (ids : list Z) :
  Exists (λ id, ¬ valid_index (nrows (LinearChunk.weight c)) id) ids →
  LinearChunk.forward exp c (embed, Labels1D ids) = Err IndexError.
Proof.
  intros Hex. unfold LinearChunk.forward. simpl.
  by rewrite (index_rows_invalid (rows (LinearChunk.weight c)) ids Hex).
Qed.

(** A loop in which every step either answers or raises [e], and some step
    raises [e], raises [e]. *)
Lemma for_each_Err {A B} (f : A → result B) (xs : list A) (e : error) :
  Forall (λ x, is_ok (f x) = true ∨ f x = Err e) xs →
  Exists (λ x, f x = Err e) xs →
  for_each f xs = Err e.
Proof.
  induction 1 as [|x xs Hx _ IH]; intros Hex.
  - by apply Exists_nil in Hex.
  - simpl. destruct Hx as [Hx|Hx].
    + destruct (f x) as [y|e'] eqn:Hfx; [|done]. rewrite bind_Ok_l.
      apply Exists_cons in Hex as [?|Hex]; [congruence|]. by rewrite IH.
    + by rewrite Hx.
Qed.

(** With global label ids arranged by shard ownership, forward raises
    [IndexError] as soon as a shard other than the first receives an id: the
    id is at least the start of the shard's range, hence no row index of the
    shard's own tables. *)
Lemma LinearDistributed_forward_1d_global_ids
    (exp : Q → Q) (input_size num_labels : Z) (devs : list Device)
    (values : nat → LinearChunk.Init) (c : LinearDistributed.t)
    (embed : Matrix) (label_ids : list Z) (k : nat) (rk : Z * Z) :
  LinearDistributed.init input_size num_labels devs values = Ok c →
  ncols embed = (3 * Z.to_nat input_size)%nat →
  bucketed_by_ownership (LinearDistributed.partition_indices c) label_ids →
  LinearDistributed.partition_indices c !! k = Some rk → (1 ≤ k)%nat →
  slice label_ids rk.1 rk.2 ≠ [] →
  LinearDistributed.forward exp c (embed, Labels1D label_ids) = Err IndexError.
Proof.
  intros Hinit He Hown Hk Hk1 Hne.
  destruct (LinearDistributed_init_Ok _ _ _ _ _ Hinit)
    as (HN & Hin & HL & _ & Hdev & _ & _ & Hpi & Hexact & Hlen & Hsh).
  set (N := length devs) in *. set (t := partition_table num_labels N) in *.
  unfold LinearDistributed.forward. simpl. rewrite Hdev. fold N.
  set (f := λ i : nat,
         r ← list_item (LinearDistributed.partition_indices c) i;
         sh ← list_item (LinearDistributed.classifiers c) i;
         LinearChunk.forward exp sh (embed, Labels1D (slice label_ids r.1 r.2))).
  assert (for_each f (seq 0 N) = Err IndexError) as ->; [|done].
  assert (∀ i sh r, (i < N)%nat → LinearDistributed.classifiers c !! i = Some sh →
            t !! i = Some r →
            f i = LinearChunk.forward exp sh (embed, Labels1D (slice label_ids r.1 r.2)))
    as Hf.
  { intros i sh r Hi Hc Hr. unfold f. rewrite Hpi. fold t.
    rewrite (proj2 (list_item_Ok _ _ _) Hr), bind_Ok_l.
    by rewrite (proj2 (list_item_Ok _ _ _) Hc), bind_Ok_l. }
  assert (∀ i sh r, LinearDistributed.classifiers c !! i = Some sh → t !! i = Some r →
            (1 ≤ i)%nat → ∀ id, r.1 ≤ id → ¬ valid_index (nrows (LinearChunk.weight sh)) id)
    as Hbad.
  { intros i sh r Hc Hr Hi id Hid.
    destruct (Hsh _ _ Hc) as (r' & Hr' & Hle & Hshape).
    assert (r' = r) as -> by congruence.
    destruct Hshape as (_ & -> & _). unfold valid_index.
    unfold t, partition_table in Hr.
    apply build_partition_indices_lookup_Some in Hr as [HiN ->]. simpl in *.
    pose proof (ceil_div_nonneg num_labels (Z.of_nat N) ltac:(lia) HL). nia. }
  apply for_each_Err.
  - apply Forall_forall. intros i Hi%elem_of_seq.
    destruct (lookup_lt_is_Some_2 (LinearDistributed.classifiers c) i) as [sh Hc]; [lia|].
    destruct (Hsh _ _ Hc) as (r & Hr & Hle & Hshape). fold t in Hr.
    rewrite (Hf i sh r) by (done || lia).
    destruct (decide (Forall (valid_index (Z.to_nat (r.2 - r.1))) (slice label_ids r.1 r.2)))
      as [Hv|Hnv].
    + left. destruct (LinearChunk_forward_1d_shape exp sh embed _ _
                        (slice label_ids r.1 r.2) Hshape)
        as (x & -> & _); [lia|done|done|done].
    + right. apply LinearChunk_forward_1d_invalid.
      destruct Hshape as (_ & -> & _).
      apply not_Forall_Exists in Hnv; [|apply _].
      eapply Exists_impl; [done|]. intros id Hid. apply Hid.
  - apply Exists_exists. exists k.
    assert (k < N)%nat as HkN.
    { apply lookup_lt_Some in Hk. rewrite Hpi in Hk. unfold t, partition_table in Hk.
      by rewrite build_partition_indices_length in Hk. }
    split; [apply elem_of_seq; lia|].
    destruct (lookup_lt_is_Some_2 (LinearDistributed.classifiers c) k) as [sh Hc]; [lia|].
    rewrite Hpi in Hk. fold t in Hk. rewrite (Hf k sh rk) by done.
    apply LinearChunk_forward_1d_invalid.
    destruct (slice label_ids rk.1 rk.2) as [|id rest] eqn:Hs; [done|].
    apply Exists_cons_hd. apply (Hbad k sh rk); [done..|].
    specialize (Hown k rk). rewrite Hpi in Hown. specialize (Hown Hk).
    rewrite Hs in Hown. by apply Forall_cons in Hown as [[? _] _].
Qed.

(** Claim C3, as amended.  For a classifier built by the constructor and an
    embedding batch of the expected width, the rank-one forward cuts
    [label_ids] by position at the partition ranges and hands slice [i],
    unchanged, to shard [i], which uses the entries as row indices into its
    own tables.  When every entry is a valid row index for the shard that
    receives it, the result is the column-wise concatenation of the shard
    outputs, with one column per entry among the first [num_labels] positions
    of [label_ids]; the column of an entry is the dense logit column of the
    row of the shard that the entry selects. *)
Theorem C3_rank_one_forward_slices_by_position
    (exp : Q → Q) (input_size num_labels : Z) (devs : list Device)
    (values : nat → LinearChunk.Init) (c : LinearDistributed.t)
    (embed : Matrix) (label_ids : list Z) :
  LinearDistributed.init input_size num_labels devs values = Ok c →
  ncols embed = (3 * Z.to_nat input_size)%nat →
  (∀ i r, LinearDistributed.partition_indices c !! i = Some r →
     Forall (valid_index (Z.to_nat (r.2 - r.1))) (slice label_ids r.1 r.2)) →
  ∃ y xs,
    LinearDistributed.forward exp c (embed, Labels1D label_ids) = Ok y ∧
    cat1 xs = Ok y ∧
    length xs = length (LinearDistributed.classifiers c) ∧
    (∀ i sh r x,
       LinearDistributed.classifiers c !! i = Some sh →
       LinearDistributed.partition_indices c !! i = Some r →
       xs !! i = Some x →
       LinearChunk.forward exp sh (embed, Labels1D (slice label_ids r.1 r.2)) = Ok x ∧
       ncols x = length (slice label_ids r.1 r.2) ∧
       ∀ z b j id,
         LinearChunk.forward exp sh (embed, NoLabels) = Ok z →
         (b < nrows embed)%nat → slice label_ids r.1 r.2 !! j = Some id →
         entry x b j = entry z b (Z.to_nat (id `mod` (r.2 - r.1)))) ∧
    nrows y = nrows embed ∧
    ncols y = Nat.min (length label_ids) (Z.to_nat num_labels).
Proof.
  intros Hinit He Hvalid.
  destruct (LinearDistributed_init_Ok _ _ _ _ _ Hinit)
    as (HN & Hin & HL & _ & Hdev & _ & _ & Hpi & Hexact & Hlen & Hsh).
  set (N := length devs) in *. set (t := partition_table num_labels N) in *.
  set (g := λ (i : nat) (sh : LinearChunk.t),
         r ← list_item (LinearDistributed.partition_indices c) i;
         LinearChunk.forward exp sh (embed, Labels1D (slice label_ids r.1 r.2))).
  assert (∀ i sh, LinearDistributed.classifiers c !! i = Some sh →
            ∃ r x, t !! i = Some r ∧ 0 ≤ r.1 ≤ r.2 ∧ g i sh = Ok x ∧
              LinearChunk.forward exp sh (embed, Labels1D (slice label_ids r.1 r.2)) = Ok x ∧
              nrows x = nrows embed ∧ ncols x = length (slice label_ids r.1 r.2) ∧
              wf_matrix x) as Hshard.
  { intros i sh Hi. destruct (Hsh _ _ Hi) as (r & Hr & Hle & Hshape).
    destruct (LinearChunk_forward_1d_shape exp sh embed _ _ (slice label_ids r.1 r.2) Hshape)
      as (x & Hx & Hxr & Hxc & Hxwf); [lia|done|apply (Hvalid i); by rewrite Hpi|].
    exists r, x. split_and!; try done; try lia. unfold g. rewrite Hpi.
    apply bind_Ok. exists r. by rewrite list_item_Ok. }
  destruct (shard_loop (LinearDistributed.classifiers c) g) as (xs & Hloop & Hxlen & Hxs).
  { intros i sh Hi. destruct (Hshard _ _ Hi) as (r & x & _ & _ & Hg & _). eauto. }
  assert (∀ i x, xs !! i = Some x →
            ∃ sh r, LinearDistributed.classifiers c !! i = Some sh ∧ t !! i = Some r ∧
              LinearChunk.forward exp sh (embed, Labels1D (slice label_ids r.1 r.2)) = Ok x ∧
              nrows x = nrows embed ∧ ncols x = length (slice label_ids r.1 r.2) ∧
              wf_matrix x) as Hx.
  { intros i x Hix. destruct (Hxs _ _ Hix) as (sh & Hi & Hg).
    destruct (Hshard _ _ Hi) as (r & x' & Hr & _ & Hg' & Hfw & ? & ? & ?).
    assert (x' = x) as -> by congruence. exists sh, r. by split_and!. }
  destruct (cat1_Ok xs (nrows embed)) as (y & Hy & Hyr & Hyc & _).
  { intros ->. simpl in Hxlen. lia. }
  { apply Forall_lookup. intros i x Hix.
    by destruct (Hx _ _ Hix) as (? & ? & _ & _ & _ & ? & _). }
  exists y, xs. split_and!; try done.
  - unfold LinearDistributed.forward. simpl. rewrite Hdev. fold N. rewrite <- Hlen.
    rewrite (for_each_ext _
               (λ i, sh ← list_item (LinearDistributed.classifiers c) i; g i sh)).
    { rewrite Hloop. done. }
    intros i _. unfold g, list_item.
    by destruct (LinearDistributed.partition_indices c !! i),
                (LinearDistributed.classifiers c !! i).
  - intros i sh r x Hi Hr Hix. destruct (Hx _ _ Hix) as (sh' & r' & Hi' & Hr' & Hfw & _ & Hc & _).
    rewrite Hpi in Hr. fold t in Hr. assert (sh' = sh) as -> by congruence.
    assert (r' = r) as -> by congruence. split_and!; [done|done|].
    intros z b j id Hz Hb Hid. destruct (Hsh _ _ Hi) as (r'' & Hr'' & Hle & Hshape).
    assert (r'' = r) as -> by congruence.
    rewrite <- (Z2Nat.id (r.2 - r.1)) at 1 by lia.
    eapply (LinearChunk_forward_1d_columns exp sh embed); try done. lia.
  - rewrite Hyc. destruct Hexact as (Hcont & _).
    pose proof (sum_slices label_ids xs t 0 num_labels Hcont ltac:(lia)) as Hsum.
    rewrite Nat.min_comm. simpl in Hsum. rewrite <- Hsum; [lia|].
    apply Forall2_same_length_lookup. split.
    + unfold t, partition_table. rewrite build_partition_indices_length. lia.
    + intros i x r Hix Hr. destruct (Hx _ _ Hix) as (_ & r' & _ & Hr' & _ & _ & Hc & _).
      congruence.
Qed.

(** ** Rank-two label ids *)

Lemma embedding_Ok {A} `{Inhabited A} (table : list A) (ids : list (list Z)) :
  Forall (Forall (valid_embedding_id (length table))) ids →
  ∃ rs, embedding table ids = Ok rs ∧
        Forall2 (λ r ir, length r = length ir ∧ Forall (λ a, a ∈ table) r) rs ids.
Proof.
  unfold embedding. induction 1 as [|ir ids Hir _ (rs & Hrs & HF)]; simpl.
  - exists []. split; [done|]. constructor.
  - assert (∃ r, for_each (λ id,
              if decide (0 ≤ id < Z.of_nat (length table))
              then Ok (table !!! Z.to_nat id) else Err IndexError) ir = Ok r ∧
              length r = length ir ∧ Forall (λ a, a ∈ table) r) as (r & Hr & Hrl & Hrin).
    { clear -Hir. induction Hir as [|id ir Hid _ (r & Hr & Hrl & Hrin)]; simpl.
      - by exists [].
      - unfold valid_embedding_id in Hid. rewrite decide_True by done. simpl.
        rewrite Hr. simpl. eexists. split; [done|]. simpl. split; [by rewrite Hrl|].
        constructor; [|done]. apply list_elem_of_lookup_total_2. lia. }
    rewrite Hr. simpl. rewrite Hrs. simpl. eexists. split; [done|].
    by constructor.
Qed.

(** Gathered rows, flattened over the batch: [B * K] rows of the table. *)
Lemma embedding_join {A} (P : A → Prop) (table : list A) (rs : list (list A))
    (ids : list (list Z)) (K : nat) :
  Forall P table → Forall (λ r, length r = K) ids →
  Forall2 (λ r ir, length r = length ir ∧ Forall (λ a, a ∈ table) r) rs ids →
  length (mjoin rs) = (length ids * K)%nat ∧ Forall P (mjoin rs) ∧
  length rs = length ids ∧ Forall (λ r, length r = K) rs.
Proof.
  intros HP HK HF. revert HK.
  induction HF as [|r ir rs ids [Hl Hin] _ IH]; intros HK; simpl.
  - done.
  - apply Forall_cons in HK as [HirK HK]. destruct (IH HK) as (IH1 & IH2 & IH3 & IH4).
    rewrite length_app, IH1, Hl, HirK. split_and!; [lia| |lia|].
    + apply Forall_app. split; [|done]. eapply Forall_impl; [done|].
      intros a Ha. simpl in Ha. by eapply (proj1 (Forall_forall _ _) HP).
    + constructor; [congruence|done].
Qed.





Lemma join_nils {A} (ls : list (list A)) :
  Forall (λ l, l = []) ls → mjoin ls = [].
Proof. induction 1 as [|l ls -> _ IH]; [done|]. done. Qed.




(** ** Aggregators *)

Lemma map_matrix_tabulate f r c g :
  map_matrix f (tabulate r c g) = tabulate r c (λ i j, f (g i j)).
Proof.
  unfold map_matrix, tabulate. simpl. f_equal.
  rewrite <- list_fmap_compose. apply list_fmap_ext. intros _ i _. simpl.
  by rewrite <- list_fmap_compose.
Qed.

Lemma view3_Ok (node_count nb_count : nat) (m : Matrix) :
  nrows m = (node_count * nb_count)%nat →
  ∃ fv, view3 node_count nb_count m = Ok fv.
Proof.
  intros H. unfold view3. rewrite decide_True by (rewrite H; lia). by eexists.
Qed.

Lemma view3_Err (node_count : nat) (m : Matrix) :
  (1 ≤ node_count)%nat → (1 ≤ ncols m)%nat →
  (nrows m `mod` node_count ≠ 0)%nat →
  view3 node_count (nrows m `div` node_count) m = Err ShapeError.
Proof.
  intros Hn Hd Hmod. unfold view3. rewrite decide_False; [done|].
  pose proof (Nat.div_mod_eq (nrows m) node_count). nia.
Qed.

(** The view groups the rows node by node: neighbour [j] of node [i] is
    row [i * nb_count + j]. *)
Lemma view3_entry (node_count nb_count : nat) (m : Matrix) fv (i j c : nat) :
  wf_matrix m → view3 node_count nb_count m = Ok fv →
  nrows m = (node_count * nb_count)%nat →
  (i < node_count)%nat → (j < nb_count)%nat → (c < ncols m)%nat →
  fv i j c = entry m (i * nb_count + j) c.
Proof.
  intros Hwf Hfv Hrows Hi Hj Hc. unfold view3 in Hfv.
  case_decide; [|done]. injection Hfv as <-.
  assert (i * nb_count + j < nrows m)%nat as Hlt by nia.
  destruct (lookup_lt_is_Some_2 (rows m) (i * nb_count + j) Hlt) as [r Hr].
  assert (length r = ncols m) as Hlen by (by eapply (Forall_lookup_1 _ _ _ _ Hwf)).
  destruct (lookup_lt_is_Some_2 r c) as [v Hv]; [lia|].
  unfold entry, row. rewrite (nth_lookup_Some _ _ _ _ Hr), (nth_lookup_Some _ _ _ _ Hv).
  apply nth_lookup_Some.
  apply (join_lookup_Some_same_length' (ncols m)); [done|done|]. eauto.
Qed.

(** The sum aggregate of node [i] adds up the rows of its own neighbours. *)
Lemma SumAggregator_forward_entry {A} (features : A → result Matrix) (neighs : A)
    (neigh_feats sum : Matrix) (B k i c : nat) :
  features neighs = Ok neigh_feats → wf_matrix neigh_feats →
  (1 ≤ B)%nat → nrows neigh_feats = (B * k)%nat →
  SumAggregator.forward features neighs B = Ok sum →
  (i < B)%nat → (c < ncols neigh_feats)%nat →
  entry sum i c = sumQ (map (λ j, entry neigh_feats (i * k + j) c) (seq 0 k)).
Proof.
  intros Hf Hwf HB Hrows Hsum Hi Hc.
  unfold SumAggregator.forward in Hsum. rewrite Hf, bind_Ok_l in Hsum.
  destruct (decide (B = 0%nat)) as [?|_]; [lia|].
  assert (nrows neigh_feats `div` B = k)%nat as Hk.
  { rewrite Hrows, Nat.mul_comm. apply Nat.div_mul. lia. }
  rewrite Hk in Hsum. apply bind_Ok in Hsum as (fv & Hfv & [= <-]).
  unfold sum_axis1. rewrite tabulate_entry by done.
  apply sumQ_ext. intros j Hj. by apply (view3_entry B k neigh_feats).
Qed.

Section float32_facts.
Import Float32.
Local Open Scope Q_scope.

Lemma round_half_even_exact (q : Q) (z : Z) :
  q == inject_Z z → round_half_even q = z.
Proof.
  intros Hq. unfold round_half_even. destruct q as [n d]. simpl.
  unfold Qeq in Hq. simpl in Hq.
  assert (n = z * Z.pos d)%Z as -> by lia.
  rewrite Z.div_mul, Z.mod_mul by lia. by rewrite decide_True by lia.
Qed.

Lemma round_half_even_error (q : Q) :
  Qabs (inject_Z (round_half_even q) - q) <= 1 # 2.
Proof.
  unfold round_half_even. destruct q as [n d]. cbn [Qnum Qden].
  pose proof (Z.div_mod n (Z.pos d) ltac:(lia)) as Hdm.
  pose proof (Z.mod_pos_bound n (Z.pos d) ltac:(lia)) as Hr.
  set (f := (n `div` Z.pos d)%Z) in *. set (r := (n `mod` Z.pos d)%Z) in *.
  apply Qabs_Qle_condition.
  assert (∀ z : Z, (- (Z.pos d) <= 2 * (z * Z.pos d - n) <= Z.pos d)%Z →
            - (1 # 2) <= inject_Z z - (n # d) <= 1 # 2) as Hsub.
  { intros z Hz. unfold Qminus, Qplus, Qopp, inject_Z, Qle. simpl. split; lia. }
  repeat case_decide; try destruct (Z.even f); apply Hsub; nia.
Qed.

Lemma pow2_pos (e : Z) : 0 < pow2 e.
Proof. unfold pow2. by apply Qpower_0_lt. Qed.

Lemma pow2_add (x y : Z) : pow2 (x + y) == pow2 x * pow2 y.
Proof. unfold pow2. by apply Qpower_plus. Qed.

Lemma pow2_Z (e : Z) : (0 ≤ e)%Z → pow2 e == inject_Z (2 ^ e).
Proof. intros He. unfold pow2. by rewrite Zpower_Qpower. Qed.

Lemma pow2_lt_inv (x y : Z) : pow2 x < pow2 y → (x < y)%Z.
Proof. unfold pow2. intros H. by apply Qpower_lt_compat_l_inv in H. Qed.

Lemma ilog2_spec (q : Q) :
  0 < q → pow2 (ilog2 q) <= q ∧ q < pow2 (ilog2 q + 1).
Proof.
  intros Hq. unfold ilog2. destruct q as [n d].
  assert (0 < n)%Z as Hn by (unfold Qlt in Hq; simpl in Hq; lia).
  cbn [Qnum Qden].
  pose proof (Z.log2_spec n Hn) as Ha.
  pose proof (Z.log2_spec (Z.pos d) ltac:(lia)) as Hb.
  pose proof (Z.log2_nonneg n) as Ha0.
  pose proof (Z.log2_nonneg (Z.pos d)) as Hb0.
  set (a := Z.log2 n) in *. set (b := Z.log2 (Z.pos d)) in *.
  assert ((n # d) * inject_Z (Z.pos d) == inject_Z n) as HqD.
  { unfold Qeq, Qmult, inject_Z. simpl. lia. }
  assert (inject_Z (2 ^ a) <= inject_Z n ∧ inject_Z n < 2 * inject_Z (2 ^ a)) as [HA1 HA2].
  { rewrite <- Zle_Qle. split; [lia|].
    change 2 with (inject_Z 2). rewrite <- inject_Z_mult, <- Zlt_Qlt.
    replace (Z.succ a) with (a + 1)%Z in Ha by lia.
    rewrite Z.pow_add_r in Ha by lia. lia. }
  assert (inject_Z (2 ^ b) <= inject_Z (Z.pos d) ∧
          inject_Z (Z.pos d) < 2 * inject_Z (2 ^ b)) as [HB1 HB2].
  { rewrite <- Zle_Qle. split; [lia|].
    change 2 with (inject_Z 2). rewrite <- inject_Z_mult, <- Zlt_Qlt.
    replace (Z.succ b) with (b + 1)%Z in Hb by lia.
    rewrite Z.pow_add_r in Hb by lia. lia. }
  assert (0 < inject_Z (2 ^ b)) as HBpos.
  { change 0 with (inject_Z 0). rewrite <- Zlt_Qlt. lia. }
  assert (pow2 (a - b) * inject_Z (2 ^ b) == inject_Z (2 ^ a)) as HP.
  { rewrite <- !pow2_Z by lia. rewrite <- pow2_add. by replace (a - b + b)%Z with a by lia. }
  assert (pow2 (a - b + 1) == 2 * pow2 (a - b)) as HP1.
  { rewrite pow2_add. unfold pow2 at 2. simpl. ring. }
  assert (pow2 (a - b - 1 + 1) == pow2 (a - b)) as HP2
    by (by replace (a - b - 1 + 1)%Z with (a - b)%Z by lia).
  assert (2 * pow2 (a - b - 1) == pow2 (a - b)) as HP3.
  { rewrite <- HP2, pow2_add. unfold pow2 at 3. simpl. ring. }
  pose proof (pow2_pos (a - b)) as HPpos.
  set (P := pow2 (a - b)) in *. set (Bq := inject_Z (2 ^ b)) in *.
  set (Aq := inject_Z (2 ^ a)) in *. set (Nq := inject_Z n) in *.
  set (Dq := inject_Z (Z.pos d)) in *. set (x := n # d) in *.
  destruct (Qle_bool P x) eqn:Hle.
  - apply Qle_bool_iff in Hle. split; [done|]. rewrite HP1. nra.
  - assert (x < P) as Hlt.
    { apply Qnot_le_lt. intros H. apply Qle_bool_iff in H. congruence. }
    rewrite HP2. split; [|done]. set (P' := pow2 (a - b - 1)) in *. nra.
Qed.

Lemma round_error (q v : Q) :
  round q = Finite v → pow2 (-126) <= Qabs q →
  Qabs (v - q) <= pow2 (-24) * Qabs q.
Proof.
  intros Hround Hnormal.
  pose proof (pow2_pos (-126)) as H126.
  assert (0 < Qabs q) as Hpos by lra.
  unfold round in Hround.
  destruct (Qeq_bool q 0) eqn:Hz.
  { apply Qeq_bool_iff in Hz. rewrite Hz in Hpos. by apply Qlt_irrefl in Hpos. }
  destruct (ilog2_spec (Qabs q) Hpos) as [He1 He2].
  assert (-126 ≤ ilog2 (Qabs q))%Z as He.
  { assert (pow2 (-126) < pow2 (ilog2 (Qabs q) + 1)) as Hlt by lra.
    apply pow2_lt_inv in Hlt. lia. }
  rewrite Z.max_l in Hround by lia.
  set (e := ilog2 (Qabs q)) in *.
  pose proof (pow2_pos (e - 23)) as Hqpos.
  pose proof (round_half_even_error (Qabs q / pow2 (e - 23))) as Herr.
  set (m := inject_Z (round_half_even (Qabs q / pow2 (e - 23)))) in *.
  assert (pow2 e == pow2 (e - 23) * pow2 23) as H23.
  { rewrite <- pow2_add. by replace (e - 23 + 23)%Z with e by lia. }
  assert (pow2 (-24) * pow2 23 == 1 # 2) as H24 by reflexivity.
  assert (Qabs (m * pow2 (e - 23) - Qabs q) <= pow2 (-24) * Qabs q) as Hv.
  { apply Qabs_Qle_condition in Herr as [Hlo Hhi].
    assert (Qabs q / pow2 (e - 23) * pow2 (e - 23) == Qabs q) as Hdiv
      by (field; lra).
    set (x := Qabs q / pow2 (e - 23)) in *. set (u := pow2 (e - 23)) in *.
    set (a := Qabs q) in *.
    assert (pow2 (-24) * pow2 e == (1 # 2) * u) as Hhalf.
    { rewrite H23.
      assert ((pow2 (-24) * (u * pow2 23)) == (pow2 (-24) * pow2 23 * u)) as -> by ring.
      by rewrite H24. }
    assert (pow2 (-24) * pow2 e <= pow2 (-24) * a) as Hle.
    { apply Qmult_le_l; [apply pow2_pos|done]. }
    assert ((m - x) * u <= (1 # 2) * u) as Hup
      by (apply Qmult_le_compat_r; lra).
    assert (- (1 # 2) * u <= (m - x) * u) as Hdown
      by (apply Qmult_le_compat_r; lra).
    set (p24 := pow2 (-24)) in *. set (pe := pow2 e) in *.
    apply Qabs_Qle_condition. split; lra. }
  destruct (Qle_bool (pow2 128) _); [done|]. injection Hround as <-.
  destruct (Qle_bool 0 q) eqn:Hsign.
  - apply Qle_bool_iff in Hsign. rewrite Qred_correct.
    assert (m * pow2 (e - 23) - q == m * pow2 (e - 23) - Qabs q) as ->
      by (by rewrite (Qabs_pos q Hsign)).
    done.
  - assert (q <= 0) as Hneg.
    { apply Qlt_le_weak, Qnot_le_lt. intros H. apply Qle_bool_iff in H. congruence. }
    rewrite !Qred_correct.
    assert (- (m * pow2 (e - 23)) - q == - (m * pow2 (e - 23) - Qabs q)) as ->
      by (rewrite (Qabs_neg q Hneg); ring).
    by rewrite Qabs_opp.
Qed.

Lemma round_count (k : Z) :
  (1 ≤ k < 2 ^ 24)%Z → ∃ c, round (inject_Z k) = Finite c ∧ c == inject_Z k.
Proof.
  intros Hk. unfold round.
  assert (0 < inject_Z k) as Hpos.
  { change 0 with (inject_Z 0). rewrite <- Zlt_Qlt. lia. }
  destruct (Qeq_bool (inject_Z k) 0) eqn:Hz.
  { apply Qeq_bool_iff in Hz. lra. }
  assert (Qle_bool 0 (inject_Z k) = true) as -> by (apply Qle_bool_iff; lra).
  assert (Qabs (inject_Z k) == inject_Z k) as Habs by (apply Qabs_pos; lra).
  assert (0 < Qabs (inject_Z k)) as Hapos by lra.
  destruct (ilog2_spec _ Hapos) as [He1 He2].
  set (e := ilog2 (Qabs (inject_Z k))) in *.
  assert (0 ≤ e ≤ 23)%Z as He.
  { split.
    - assert (pow2 0 < pow2 (e + 1)) as Hlt.
      { assert (pow2 0 <= inject_Z k) as H1.
        { change (pow2 0) with (inject_Z 1). rewrite <- Zle_Qle. lia. }
        lra. }
      apply pow2_lt_inv in Hlt. lia.
    - assert (pow2 e < pow2 24) as Hlt.
      { assert (inject_Z k < pow2 24) as H1.
        { rewrite pow2_Z by lia. rewrite <- Zlt_Qlt. lia. }
        lra. }
      apply pow2_lt_inv in Hlt. lia. }
  rewrite Z.max_l by lia.
  assert (pow2 (e - 23) * inject_Z (2 ^ (23 - e)) == 1) as Hinv.
  { rewrite <- pow2_Z by lia. rewrite <- pow2_add.
    by replace (e - 23 + (23 - e))%Z with 0%Z by lia. }
  pose proof (pow2_pos (e - 23)) as Hqpos.
  assert (Qabs (inject_Z k) / pow2 (e - 23) == inject_Z (k * 2 ^ (23 - e))) as Hx.
  { rewrite inject_Z_mult, Habs.
    set (u := pow2 (e - 23)) in *. set (w := inject_Z (2 ^ (23 - e))) in *.
    apply (Qmult_inj_r _ _ u); [lra|].
    assert ((inject_Z k / u * u) == (inject_Z k)) as -> by (field; lra).
    assert ((inject_Z k * w * u) == (inject_Z k * (u * w))) as -> by ring.
    rewrite Hinv. ring. }
  rewrite (round_half_even_exact _ _ Hx).
  assert (inject_Z (k * 2 ^ (23 - e)) * pow2 (e - 23) == inject_Z k) as Hv.
  { rewrite inject_Z_mult.
    assert ((inject_Z k * inject_Z (2 ^ (23 - e)) * pow2 (e - 23)) == (inject_Z k * (pow2 (e - 23) * inject_Z (2 ^ (23 - e))))) as -> by ring.
    rewrite Hinv. ring. }
  destruct (Qle_bool (pow2 128) _) eqn:Hinf.
  - apply Qle_bool_iff in Hinf. rewrite Qred_correct, Hv in Hinf.
    assert (inject_Z k < pow2 128) as H1.
    { rewrite pow2_Z by lia. rewrite <- Zlt_Qlt.
      assert (2 ^ 24 < 2 ^ 128)%Z by (by apply Z.pow_lt_mono_r). lia. }
    lra.
  - eexists. split; [done|]. by rewrite Qred_correct.
Qed.

Lemma Qabs_scale (c x : Q) : 0 <= c → Qabs (c * x) == c * Qabs x.
Proof. intros Hc. by rewrite Qabs_Qmult, (Qabs_pos c Hc). Qed.

(** Dividing a finite sum by a count [k < 2 ^ 24] loses at most one
    rounding: [k] times the quotient is within [2 ^ -24 * |s|] of [s],
    unless the quotient is subnormal. *)
Lemma div_count_error (s m : Q) (k : nat) :
  (1 ≤ k)%nat → (Z.of_nat k < 2 ^ 24)%Z →
  div (Finite s) (of_count k) = Finite m →
  pow2 (-126) <= Qabs (s / inject_Z (Z.of_nat k)) →
  Qabs (inject_Z (Z.of_nat k) * m - s) <= pow2 (-24) * Qabs s.
Proof.
  intros Hk1 Hk2 Hdiv Hnormal.
  destruct (round_count (Z.of_nat k)) as (c & Hc & Hck); [lia|].
  set (K := inject_Z (Z.of_nat k)) in *.
  assert (0 < K) as HK.
  { unfold K. change 0 with (inject_Z 0). rewrite <- Zlt_Qlt. lia. }
  unfold div, of_count in Hdiv. fold K in Hdiv. rewrite Hc in Hdiv.
  destruct (Qeq_bool c 0) eqn:Hz.
  { apply Qeq_bool_iff in Hz. lra. }
  assert (s / c == s / K) as Hq by (by rewrite Hck).
  apply round_error in Hdiv; [|by rewrite Hq].
  rewrite Hq in Hdiv.
  set (x := s / K) in *.
  assert (s == K * x) as Hs by (unfold x; field; lra).
  assert (K * m - s == K * (m - x)) as -> by (rewrite Hs at 1; ring).
  assert (Qabs s == K * Qabs x) as ->.
  { rewrite <- Qabs_scale by lra. by rewrite <- Hs. }
  rewrite Qabs_scale by lra.
  assert (K * Qabs (m - x) <= K * (pow2 (-24) * Qabs x)) as Hle
    by (apply Qmult_le_l; done).
  assert (pow2 (-24) * (K * Qabs x) == K * (pow2 (-24) * Qabs x)) as -> by ring.
  done.
Qed.

Lemma tensor_tabulate_nrows r c f : nrows (tabulate r c f) = r.
Proof. unfold nrows, tabulate. simpl. by rewrite length_map, length_seq. Qed.

Lemma tensor_tabulate_wf r c f : wf (tabulate r c f).
Proof.
  unfold wf, tabulate. simpl. apply Forall_forall.
  intros x (i & -> & _)%list_elem_of_fmap. by rewrite length_map, length_seq.
Qed.

Lemma tensor_tabulate_entry r c f i j :
  (i < r)%nat → (j < c)%nat → entry (tabulate r c f) i j = f i j.
Proof.
  intros Hi Hj. unfold entry, tabulate. simpl.
  assert (nth i (map (λ i0, map (f i0) (seq 0 c)) (seq 0 r)) [] = map (f i) (seq 0 c))
    as ->.
  { apply nth_lookup_Some. by rewrite list_lookup_fmap, lookup_seq_lt by done. }
  apply nth_lookup_Some. by rewrite list_lookup_fmap, lookup_seq_lt by done.
Qed.

Lemma map_tensor_tabulate f r c g :
  map_tensor f (tabulate r c g) = tabulate r c (λ i j, f (g i j)).
Proof.
  unfold map_tensor, tabulate. simpl. f_equal.
  rewrite <- list_fmap_compose. apply list_fmap_ext. intros _ i _. simpl.
  by rewrite <- list_fmap_compose.
Qed.

Lemma tensor_view3_Ok (node_count nb_count : nat) (m : Tensor) :
  nrows m = (node_count * nb_count)%nat →
  ∃ fv, view3 node_count nb_count m = Ok fv.
Proof.
  intros H. unfold view3. rewrite decide_True by (rewrite H; lia). by eexists.
Qed.
End float32_facts.

(** Claim C7, as amended.  For [B >= 1] nodes, fan-out [k >= 1] and a
    neighbour-feature matrix with [B * k] rows and [d] columns, the mean
    aggregator and the sum aggregator both return a [(B, d)] matrix, whatever
    the order in which the reduction adds; every entry of the mean aggregate
    is the corresponding entry of the sum aggregate divided by [k] in
    binary32 (the CPU kernel of [torch.mean]).  So [k] times the mean
    aggregate is the sum aggregate up to the rounding of that one division:
    for [k < 2 ^ 24], a finite entry [s] of the sum and the entry [m] of the
    mean, [|k * m - s| <= 2 ^ -24 * |s|] unless the quotient is subnormal. *)
Theorem C7_mean_aggregate_is_rounded_sum_over_k
    {A} (sum_kernel : list Float32.t → Float32.t)
    (features : A → result Float32.Tensor) (neighs : A)
    (neigh_feats : Float32.Tensor) (B k d : nat) :
  features neighs = Ok neigh_feats →
  (1 ≤ B)%nat → (1 ≤ k)%nat →
  Float32.nrows neigh_feats = (B * k)%nat → Float32.ncols neigh_feats = d →
  ∃ mean sum,
    Float32.MeanAggregator.forward sum_kernel features neighs B = Ok mean ∧
    Float32.SumAggregator.forward sum_kernel features neighs B = Ok sum ∧
    Float32.nrows mean = B ∧ Float32.ncols mean = d ∧ Float32.wf mean ∧
    Float32.nrows sum = B ∧ Float32.ncols sum = d ∧ Float32.wf sum ∧
    ∀ i j, (i < B)%nat → (j < d)%nat →
      Float32.entry mean i j
        = Float32.div (Float32.entry sum i j) (Float32.of_count k) ∧
      ∀ s m,
        Float32.entry sum i j = Float32.Finite s →
        Float32.entry mean i j = Float32.Finite m →
        Z.of_nat k < 2 ^ 24 →
        (Float32.pow2 (-126) <= Qabs (s / inject_Z (Z.of_nat k)))%Q →
        (Qabs (inject_Z (Z.of_nat k) * m - s) <= Float32.pow2 (-24) * Qabs s)%Q.
Proof.
  intros Hf HB Hk Hrows Hcols.
  unfold Float32.MeanAggregator.forward, Float32.SumAggregator.forward.
  rewrite Hf, !bind_Ok_l.
  destruct (decide (B = 0%nat)) as [?|_]; [lia|].
  assert (Float32.nrows neigh_feats `div` B = k)%nat as ->.
  { rewrite Hrows, Nat.mul_comm. apply Nat.div_mul. lia. }
  destruct (tensor_view3_Ok B k neigh_feats Hrows) as [fv ->]. rewrite !bind_Ok_l.
  eexists _, _. split; [done|]. split; [done|].
  unfold Float32.mean_axis1, Float32.sum_axis1.
  rewrite map_tensor_tabulate, Hcols. rewrite !tensor_tabulate_nrows.
  split_and!; auto using tensor_tabulate_wf.
  intros i j Hi Hj. rewrite !tensor_tabulate_entry by done.
  split; [done|]. intros s m Hs Hm Hk24 Hnormal.
  rewrite Hs in Hm. by apply div_count_error.
Qed.

(** Claim C8, as amended.  For [node_count >= 1] and a neighbour-feature
    matrix with at least one column, each aggregator raises a shape error if
    and only if the number of rows is not divisible by [node_count]; when it
    is divisible, aggregation returns a [(node_count, d)] matrix. *)
Theorem C8_aggregator_shape_error_iff_not_divisible
    {A} (features : A → result Matrix) (neighs : A) (neigh_feats : Matrix)
    (node_count : nat) :
  features neighs = Ok neigh_feats →
  (1 ≤ node_count)%nat → (1 ≤ ncols neigh_feats)%nat →
  (MeanAggregator.forward features neighs node_count = Err ShapeError ↔
     (nrows neigh_feats `mod` node_count ≠ 0)%nat) ∧
  (SumAggregator.forward features neighs node_count = Err ShapeError ↔
     (nrows neigh_feats `mod` node_count ≠ 0)%nat) ∧
  ((nrows neigh_feats `mod` node_count = 0)%nat →
     ∃ mean sum,
       MeanAggregator.forward features neighs node_count = Ok mean ∧
       SumAggregator.forward features neighs node_count = Ok sum ∧
       nrows mean = node_count ∧ ncols mean = ncols neigh_feats ∧
       nrows sum = node_count ∧ ncols sum = ncols neigh_feats).
Proof.
  intros Hf Hn Hd.
  unfold MeanAggregator.forward, SumAggregator.forward. rewrite Hf, !bind_Ok_l.
  destruct (decide (node_count = 0%nat)) as [?|_]; [lia|].
  destruct (decide (nrows neigh_feats `mod` node_count = 0)%nat) as [Hdiv|Hndiv].
  - destruct (view3_Ok node_count (nrows neigh_feats `div` node_count) neigh_feats)
      as [fv ->].
    { pose proof (Nat.div_mod_eq (nrows neigh_feats) node_count). lia. }
    rewrite !bind_Ok_l. split_and!.
    + split; [done|]. intros Hne. by destruct Hne.
    + split; [done|]. intros Hne. by destruct Hne.
    + intros _. eexists _, _. split; [done|]. split; [done|].
      unfold mean_axis1, sum_axis1. rewrite map_matrix_tabulate.
      by rewrite !tabulate_nrows.
  - rewrite (view3_Err node_count neigh_feats) by done. split_and!; done.
Qed.

(** ** Encoders *)

Lemma SageEncoder_forward_columns {A} (self : SageEncoder.t A) (context : Context A)
    (sf nf : Matrix) :
  context_shapes (SageEncoder.features self) (SageEncoder.aggregator self) context sf nf →
  wf_matrix (SageEncoder.weight self) →
  ncols (SageEncoder.weight self) = (ncols sf + ncols nf)%nat →
  ∃ y, SageEncoder.forward self context = Ok y ∧
       nrows y = nrows (SageEncoder.weight self) ∧ ncols y = node_count context ∧
       wf_matrix y ∧
       ∀ e j, (e < nrows (SageEncoder.weight self))%nat → (j < node_count context)%nat →
         entry y e j =
         SageEncoder.activation_fn self
           (sumQ (map (λ k, entry (SageEncoder.weight self) e k *
                     (if decide (k < ncols sf)%nat then entry sf j k
                      else entry nf j (k - ncols sf)))%Q
                    (seq 0 (ncols (SageEncoder.weight self))))).
Proof.
  intros (Hsf & Hnf & Hsfwf & Hnfwf & Hsfr & Hnfr) HW HWc.
  unfold SageEncoder.forward. rewrite Hnf, bind_Ok_l, Hsf, bind_Ok_l.
  destruct (cat1_Ok [sf; nf] (node_count context)) as (cb & Hcb & Hcbr & Hcbc & Hcbd);
    [done|by repeat constructor|].
  assert (wf_matrix cb) as Hcbwf by (apply (cat1_wf [sf; nf]); by repeat constructor).
  simpl in Hcbc. rewrite Hcb, bind_Ok_l.
  destruct (transpose_shape cb) as (Htr & Htc & Htwf).
  destruct (mm_shape (SageEncoder.weight self) (transpose cb))
    as (x & Hx & Hxr & Hxc & Hxwf); [rewrite Htr; lia|].
  rewrite Hx, bind_Ok_l. eexists. split; [done|].
  destruct (map_matrix_shape (SageEncoder.activation_fn self) x) as (Hmr & Hmc & Hmwf).
  rewrite Hmr, Hmc, Hxr, Hxc, Htc, Hcbr. split_and!; [done|done|by apply Hmwf|].
  intros e j He Hj. rewrite entry_map_matrix by (done || lia). f_equal.
  rewrite (entry_mm _ _ _ _ _ Hx) by lia. apply sumQ_ext. intros k Hk. f_equal.
  rewrite entry_transpose by lia.
  apply (entry_cat1_pair sf nf cb); [done|done|lia].
Qed.

Lemma SaintEncoder_forward_columns {A} (self : SaintEncoder.t A) (context : Context A)
    (sf nf : Matrix) :
  context_shapes (SaintEncoder.features self) (SaintEncoder.aggregator self) context sf nf →
  ncols (SaintEncoder.weight_1 self) = ncols sf →
  ncols (SaintEncoder.weight_2 self) = ncols nf →
  ∃ y, SaintEncoder.forward self context = Ok y ∧
       nrows y = (nrows (SaintEncoder.weight_1 self) + nrows (SaintEncoder.weight_2 self))%nat ∧
       ncols y = node_count context ∧ wf_matrix y ∧
       ∀ e j, (e < nrows y)%nat → (j < node_count context)%nat →
         entry y e j =
         SaintEncoder.activation_fn self
           (if decide (e < nrows (SaintEncoder.weight_1 self))%nat then
              sumQ (map (λ k, entry (SaintEncoder.weight_1 self) e k * entry sf j k)%Q
                      (seq 0 (ncols sf)))
            else
              sumQ (map (λ k, entry (SaintEncoder.weight_2 self)
                                (e - nrows (SaintEncoder.weight_1 self)) k
                              * entry nf j k)%Q
                      (seq 0 (ncols nf)))).
Proof.
  intros (Hsf & Hnf & Hsfwf & Hnfwf & Hsfr & Hnfr) HW1 HW2.
  unfold SaintEncoder.forward. rewrite Hnf, bind_Ok_l, Hsf, bind_Ok_l.
  destruct (transpose_shape sf) as (Hsr & Hsc & _).
  destruct (transpose_shape nf) as (Hnr & Hnc & _).
  destruct (mm_shape (SaintEncoder.weight_1 self) (transpose sf))
    as (a & Ha & Har & Hac & Hawf); [by rewrite Hsr|].
  destruct (mm_shape (SaintEncoder.weight_2 self) (transpose nf))
    as (b & Hb & Hbr & Hbc & Hbwf); [by rewrite Hnr|].
  rewrite Ha, bind_Ok_l, Hb, bind_Ok_l.
  assert (∃ cb, cat0 [a; b] = Ok cb ∧ ncols cb = ncols a ∧ rows cb = rows a ++ rows b)
    as (cb & Hcb & Hcbc & Hcbrows).
  { unfold cat0. rewrite decide_True.
    - eexists. split; [done|]. simpl. by rewrite app_nil_r.
    - repeat constructor. congruence. }
  rewrite Hcb, bind_Ok_l. eexists. split; [done|].
  assert (nrows cb = nrows a + nrows b)%nat as Hcbr.
  { unfold nrows. by rewrite Hcbrows, length_app. }
  assert (wf_matrix cb) as Hcbwf.
  { unfold wf_matrix. rewrite Hcbrows, Hcbc. apply Forall_app. split; [done|].
    unfold wf_matrix in Hbwf. replace (ncols a) with (ncols b) by congruence. done. }
  destruct (map_matrix_shape (SaintEncoder.activation_fn self) cb) as (Hmr & Hmc & Hmwf).
  rewrite Hmr, Hmc, Hcbr, Hcbc, Har, Hbr, Hac, Hsc, Hsfr.
  split_and!; [done|done|by apply Hmwf|].
  intros e j He Hj. rewrite entry_map_matrix by (done || lia). f_equal.
  rewrite (entry_cat0_pair a b cb) by done. rewrite Har.
  case_decide as Hlt.
  - rewrite (entry_mm _ _ _ _ _ Ha) by lia. rewrite HW1. apply sumQ_ext.
    intros k Hk. f_equal. apply entry_transpose; lia.
  - rewrite (entry_mm _ _ _ _ _ Hb) by lia. rewrite HW2. apply sumQ_ext.
    intros k Hk. f_equal. apply entry_transpose; lia.
Qed.

Lemma GINEncoder_forward_columns {A} (self : GINEncoder.t A) (context : Context A)
    (sf nf : Matrix) :
  context_shapes (GINEncoder.features self) (GINEncoder.aggregator self) context sf nf →
  ncols sf = ncols nf →
  ∃ y, GINEncoder.forward self context = Ok y ∧
       nrows y = ncols nf ∧ ncols y = node_count context ∧ wf_matrix y ∧
       ∀ e j, (e < ncols nf)%nat → (j < node_count context)%nat →
         entry y e j = (entry nf j e + (1 + GINEncoder.eps self) * entry sf j e)%Q.
Proof.
  intros (Hsf & Hnf & Hsfwf & Hnfwf & Hsfr & Hnfr) Hc.
  unfold GINEncoder.forward. rewrite Hnf, bind_Ok_l, Hsf, bind_Ok_l.
  set (scaled := map_matrix (λ x, (1 + GINEncoder.eps self) * x)%Q sf).
  destruct (map_matrix_shape (λ x, (1 + GINEncoder.eps self) * x)%Q sf)
    as (Hmr & Hmc & Hmwf). fold scaled in Hmr, Hmc, Hmwf.
  destruct (broadcast2_same_shape Qplus nf scaled)
    as (cb & Hcb & Hcbr & Hcbc & Hcbwf); [congruence|congruence|].
  rewrite Hcb, bind_Ok_l. eexists. split; [done|].
  destruct (transpose_shape cb) as (Htr & Htc & Htwf).
  rewrite Htr, Htc, Hcbr, Hcbc, Hnfr. split_and!; try done.
  intros e j He Hj. rewrite entry_transpose by lia.
  rewrite (entry_broadcast2_same _ _ _ _ _ _ Hcb) by (congruence || lia).
  f_equal. unfold scaled. apply entry_map_matrix; [done|lia|lia].
Qed.

(** Claim C4, as amended.  For each encoder variant (SAGE, SAINT, GIN) and a
    context with [node_count = B] whose self features and aggregated
    neighbour features have one row per node, [forward] returns a matrix
    whose columns are the [B] nodes in batch order and whose rows are the
    embedding dimensions: its shape is [(dims, B)], and column [j] is computed
    from row [j] of the self features and row [j] of the aggregated neighbour
    features only. *)
Theorem C4_encoder_forward_is_dims_by_nodes
    {A} (enc : Encoder A) (context : Context A) (sf nf : Matrix) :
  context_shapes (encoder_features enc) (encoder_aggregator enc) context sf nf →
  weights_fit enc (ncols sf) (ncols nf) →
  ∃ y, encoder_forward enc context = Ok y ∧
       nrows y = embedding_dims enc (ncols nf) ∧
       ncols y = node_count context ∧
       wf_matrix y ∧
       ∀ e j, (e < nrows y)%nat → (j < node_count context)%nat →
         entry y e j = node_embedding enc (row sf j) (row nf j) e.
Proof.
  intros Hctx Hfit.
  pose proof Hctx as (_ & _ & Hsfwf & Hnfwf & Hsfr & Hnfr).
  destruct enc as [s|s|g]; simpl in *.
  - destruct Hfit as [HW HWc].
    destruct (SageEncoder_forward_columns s context sf nf Hctx HW HWc)
      as (y & Hy & Hyr & Hyc & Hywf & Hent).
    exists y. split_and!; try done. intros e j He Hj.
    rewrite Hent by lia. rewrite row_length by (done || lia). done.
  - destruct Hfit as [HW1 HW2].
    destruct (SaintEncoder_forward_columns s context sf nf Hctx HW1 HW2)
      as (y & Hy & Hyr & Hyc & Hywf & Hent).
    exists y. split_and!; try done. intros e j He Hj.
    rewrite Hent by lia. rewrite !row_length by (done || lia). done.
  - destruct (GINEncoder_forward_columns g context sf nf Hctx Hfit)
      as (y & Hy & Hyr & Hyc & Hywf & Hent).
    exists y. split_and!; try done. intros e j He Hj.
    rewrite Hent by lia. done.
Qed.

(** ** The model orchestrator *)

Section orchestrator.
Context {Graph Raw : Type}.
Variable squeeze0 : Raw → result Matrix.
Variable torch_device : string → result Device.
Variable Sequential : Z → Z → Q → result (Matrix → result Matrix).
Variable exp : Q → Q.

Local Abbreviation init :=
  (GalaXCBase.init (Graph:=Graph) squeeze0 torch_device Sequential).

(** A fan-out list of any length other than 1, 2 or 3 is rejected by the
    assertion. *)
Lemma GalaXCBase_init_assertion num_labels hidden_dims device_names feature_dim
    fanouts (graph : Graph) embed_dim dropout num_clf_partitions padding_idx rand :
  length fanouts ∉ [1; 2; 3]%nat →
  init num_labels hidden_dims device_names feature_dim fanouts graph embed_dim
    dropout num_clf_partitions padding_idx rand = Err AssertionError.
Proof. intros H. unfold GalaXCBase.init. by rewrite decide_False. Qed.

(** With fewer than three fan-outs [_construct_embeddings] indexes past
    the end of the list. *)
Lemma construct_embeddings_short fanouts rand :
  (length fanouts < 3)%nat →
  GalaXCBase._construct_embeddings squeeze0 fanouts rand = Err IndexError.
Proof.
  intros H. destruct fanouts as [|f0 [|f1 [|f2 ?]]]; simpl in *; done || lia.
Qed.

(** Construction with three fan-outs succeeds when the device name is
    accepted, the transforms can be built and the classifier can be
    built. *)
Lemma GalaXCBase_init_three num_labels hidden_dims d ds feature_dim f0 f1 f2
    (graph : Graph) embed_dim dropout num_clf_partitions padding_idx rand dev tr c :
  torch_device d = Ok dev →
  Sequential embed_dim hidden_dims dropout = Ok tr →
  LinearDistributed.init hidden_dims num_labels (d :: ds) (GalaXCBase.rand_chunk rand)
    = Ok c →
  is_ok (init num_labels hidden_dims (d :: ds) feature_dim [f0; f1; f2] graph embed_dim
           dropout num_clf_partitions padding_idx rand) = true.
Proof.
  intros Hd Htr Hc. unfold GalaXCBase.init. rewrite decide_True by set_solver.
  simpl. rewrite Hd. simpl.
  unfold GalaXCBase._construct_transform, GalaXCBase._construct_classifier.
  rewrite Htr. simpl. rewrite Hc. done.
Qed.

(** Claim C9.  On every model, [initialize_embeddings] and
    [initialize_classifier] raise [AttributeError] whatever array they are
    given: [__init__] binds no attribute [embeddings], and the
    [LinearDistributed] classifier has neither a [weight] nor a [bias]
    attribute. *)
Theorem C9_pretrained_initialisation_raises_attribute_error
    (self : GalaXCBase.t Graph Raw) (array : Matrix) :
  GalaXCBase.initialize_embeddings self array = Err AttributeError ∧
  GalaXCBase.initialize_classifier self array = Err AttributeError ∧
  getattr (GalaXCBase.vars self) "embeddings" = Err AttributeError ∧
  getattr (vars_LinearDistributed (GalaXCBase.classifier self)) "weight"
    = Err AttributeError ∧
  getattr (vars_LinearDistributed (GalaXCBase.classifier self)) "bias"
    = Err AttributeError.
Proof.
  assert (getattr (GalaXCBase.vars self) "embeddings" = Err AttributeError) as He.
  { unfold GalaXCBase.vars, getattr.
    rewrite not_elem_of_list_to_map_1; [done|]. cbn [fmap list_fmap fst].
    repeat (apply not_elem_of_cons; split; [done|]). apply not_elem_of_nil. }
  assert (getattr (GalaXCBase.vars self) "classifier"
          = Ok (vars_LinearDistributed (GalaXCBase.classifier self))) as Hc.
  { unfold GalaXCBase.vars, getattr. unfold list_to_map. cbn [foldr fst snd].
    rewrite !lookup_insert_ne by done. by rewrite lookup_insert_eq. }
  assert (getattr (vars_LinearDistributed (GalaXCBase.classifier self)) "weight"
          = Err AttributeError) as Hw.
  { unfold vars_LinearDistributed, getattr.
    rewrite not_elem_of_list_to_map_1; [done|]. cbn [fmap list_fmap fst].
    repeat (apply not_elem_of_cons; split; [done|]). apply not_elem_of_nil. }
  assert (getattr (vars_LinearDistributed (GalaXCBase.classifier self)) "bias"
          = Err AttributeError) as Hb.
  { unfold vars_LinearDistributed, getattr.
    rewrite not_elem_of_list_to_map_1; [done|]. cbn [fmap list_fmap fst].
    repeat (apply not_elem_of_cons; split; [done|]). apply not_elem_of_nil. }
  unfold GalaXCBase.initialize_embeddings, GalaXCBase.initialize_classifier.
  rewrite He, Hc, bind_Ok_l, Hw. by split_and!.
Qed.

(** Claim C10.  When construction succeeds, the classifier has one shard
    per device name, partitioned as for [len(device_names)] partitions;
    with any other value of [num_clf_partitions] construction succeeds as
    well, builds the same classifier, and every forward pass (and every
    encoding) gives the same result. *)
Theorem C10_num_clf_partitions_has_no_effect
    num_labels hidden_dims device_names feature_dim fanouts (graph : Graph)
    embed_dim dropout padding_idx rand (p1 p2 : Z) (m1 : GalaXCBase.t Graph Raw) :
  init num_labels hidden_dims device_names feature_dim fanouts graph embed_dim
    dropout p1 padding_idx rand = Ok m1 →
  LinearDistributed.num_partitions (GalaXCBase.classifier m1) = length device_names ∧
  length (LinearDistributed.classifiers (GalaXCBase.classifier m1))
    = length device_names ∧
  LinearDistributed.partition_indices (GalaXCBase.classifier m1)
    = partition_table num_labels (length device_names) ∧
  GalaXCBase.num_clf_partitions m1 = p1 ∧
  ∃ m2,
    init num_labels hidden_dims device_names feature_dim fanouts graph embed_dim
      dropout p2 padding_idx rand = Ok m2 ∧
    GalaXCBase.num_clf_partitions m2 = p2 ∧
    GalaXCBase.classifier m2 = GalaXCBase.classifier m1 ∧
    (∀ batch, GalaXCBase.encode m2 batch = GalaXCBase.encode m1 batch) ∧
    (∀ batch, GalaXCBase.forward exp m2 batch = GalaXCBase.forward exp m1 batch).
Proof.
  unfold GalaXCBase.init. case_decide as Hlen; [|done].
  intros (dn & Hdn & H)%bind_Ok. apply bind_Ok in H as (de & Hde & H).
  apply bind_Ok in H as (encs & Hencs & H). apply bind_Ok in H as (t1 & Ht1 & H).
  apply bind_Ok in H as (t2 & Ht2 & H). apply bind_Ok in H as (t3 & Ht3 & H).
  apply bind_Ok in H as (c & Hc & [= <-]). simpl.
  unfold GalaXCBase._construct_classifier in Hc.
  destruct (LinearDistributed_init_Ok _ _ _ _ _ Hc)
    as (_ & _ & _ & Hnp & _ & _ & _ & Hpi & _ & Hcl & _).
  split_and!; try done.
  assert (t2 = t1) as -> by congruence. assert (t3 = t1) as -> by congruence.
  rewrite Hdn, bind_Ok_l, Hde, bind_Ok_l, Hencs, bind_Ok_l, Ht1, !bind_Ok_l.
  unfold GalaXCBase._construct_classifier. rewrite Hc, bind_Ok_l.
  eexists. split; [done|]. done.
Qed.
End orchestrator.

(** Claim C6, evaluated on the code.  The assertion of [__init__] admits
    fan-out lists of length 1, 2 and 3, but [_construct_embeddings] reads
    [fanouts[0]], [fanouts[1]] and [fanouts[2]] unconditionally: with one or
    two fan-outs construction fails with [IndexError], whatever the
    collaborators are. *)
Theorem C6_one_or_two_fanouts_raise_index_error :
  ∀ (Graph Raw : Type) (squeeze0 : Raw → result Matrix)
    (Sequential : Z → Z → Q → result (Matrix → result Matrix))
    (graph : Graph) (rand : GalaXCBase.Rand),
    GalaXCBase.init squeeze0 (λ name, Ok name) Sequential
      100 16 ["cpu"] 8 [2] graph 16 (1 # 2) 1 0 rand = Err IndexError ∧
    GalaXCBase.init squeeze0 (λ name, Ok name) Sequential
      100 16 ["cpu"] 8 [2; 2] graph 16 (1 # 2) 1 0 rand = Err IndexError.
Proof. intros. split; reflexivity. Qed.

(** * Concrete instances *)

Lemma sample_classifier_built :
  LinearDistributed.init 1 4 ["cpu"; "cpu"] sample_values = Ok sample_classifier.
Proof. reflexivity. Qed.

Lemma C2_dense_forward_witness :
  ∃ y xs,
    LinearDistributed.forward sample_exp sample_classifier (sample_embed, NoLabels) = Ok y ∧
    nrows y = nrows sample_embed ∧ Z.of_nat (ncols y) = 4 ∧
    Forall2 (λ sh x, LinearChunk.forward sample_exp sh (sample_embed, NoLabels) = Ok x)
      (LinearDistributed.classifiers sample_classifier) xs ∧
    cat1 xs = Ok y ∧
    ∀ i r x, LinearDistributed.partition_indices sample_classifier !! i = Some r →
      xs !! i = Some x → narrow y (Z.to_nat r.1) (Z.to_nat r.2) = x.
Proof.
  apply (C2_dense_forward_concatenates_shards sample_exp 1 4 ["cpu"; "cpu"]
           sample_values sample_classifier sample_embed).
  - reflexivity.
  - reflexivity.
Defined.

(** Claim C3 fails as stated.  The ids [0; 1; 2; 3] are arranged by shard
    ownership for four labels on two shards, yet forward raises
    [IndexError]: shard 1 receives the global ids 2 and 3 and uses them as
    row indices into its own two-row tables.  And with one shard of two
    labels, three ids give only two output columns. *)
Lemma C3_global_ids_counterexample :
  bucketed_by_ownership (LinearDistributed.partition_indices sample_classifier)
    [0; 1; 2; 3] ∧
  (∀ exp, LinearDistributed.forward exp sample_classifier
            (sample_embed, Labels1D [0; 1; 2; 3]) = Err IndexError) ∧
  ∃ c y,
    LinearDistributed.init 1 2 ["cpu"] sample_values = Ok c ∧
    LinearDistributed.forward sample_exp c (sample_embed, Labels1D [0; 1; 1]) = Ok y ∧
    ncols y = 2%nat ∧ length [0; 1; 1] = 3%nat.
Proof.
  assert (bucketed_by_ownership
            (LinearDistributed.partition_indices sample_classifier) [0; 1; 2; 3]) as Hown.
  { intros i r Hr. destruct i as [|[|i]]; simpl in Hr; [| |done].
    - injection Hr as <-. vm_compute. repeat constructor; discriminate.
    - injection Hr as <-. vm_compute. repeat constructor; discriminate. }
  split_and!.
  - done.
  - intros exp.
    apply (LinearDistributed_forward_1d_global_ids exp 1 4 ["cpu"; "cpu"] sample_values
             sample_classifier sample_embed [0; 1; 2; 3] 1 (2, 4));
      [reflexivity|reflexivity|done|reflexivity|lia|done].
  - eexists _, _. split; [reflexivity|]. split; [vm_compute; reflexivity|]. done.
Qed.

Lemma C3_rank_one_forward_witness :
  ∃ y xs,
    LinearDistributed.forward sample_exp sample_classifier
      (sample_embed, Labels1D [0; 1; 0; 1]) = Ok y ∧
    cat1 xs = Ok y ∧
    length xs = length (LinearDistributed.classifiers sample_classifier) ∧
    (∀ i sh r x,
       LinearDistributed.classifiers sample_classifier !! i = Some sh →
       LinearDistributed.partition_indices sample_classifier !! i = Some r →
       xs !! i = Some x →
       LinearChunk.forward sample_exp sh
         (sample_embed, Labels1D (slice [0; 1; 0; 1] r.1 r.2)) = Ok x ∧
       ncols x = length (slice [0; 1; 0; 1] r.1 r.2) ∧
       ∀ z b j id,
         LinearChunk.forward sample_exp sh (sample_embed, NoLabels) = Ok z →
         (b < nrows sample_embed)%nat → slice [0; 1; 0; 1] r.1 r.2 !! j = Some id →
         entry x b j = entry z b (Z.to_nat (id `mod` (r.2 - r.1)))) ∧
    nrows y = nrows sample_embed ∧
    ncols y = Nat.min (length [0; 1; 0; 1]) (Z.to_nat 4).
Proof.
  apply (C3_rank_one_forward_slices_by_position sample_exp 1 4 ["cpu"; "cpu"]
           sample_values sample_classifier sample_embed [0; 1; 0; 1]).
  - reflexivity.
  - reflexivity.
  - intros i r Hr. destruct i as [|[|i]]; simpl in Hr; [| |done].
    + injection Hr as <-. vm_compute. repeat constructor; discriminate.
    + injection Hr as <-. vm_compute. repeat constructor; discriminate.
Defined.


(** With one candidate column per shard and a batch of two rows,
    [short_bias.squeeze()] also drops the column axis and the sum broadcasts
    to [(2, 2)] in each shard: two candidate columns come back as four. *)
Lemma LinearDistributed_forward_2d_single_column :
  ∃ y,
    LinearDistributed.forward sample_exp sample_classifier
      (sample_embed, Labels2D {| id_ncols := 2; id_rows := [[0; 1]; [1; 1]] |}) = Ok y ∧
    nrows y = 2%nat ∧ ncols y = 4%nat.
Proof. eexists. split; [vm_compute; reflexivity|]. done. Qed.


(** Claim C4 fails as stated.  On a context of two nodes, each encoder
    variant returns a matrix with two columns, one per node, and with as
    many rows as embedding dimensions (four, four and three): the rows are
    not the nodes. *)
Lemma C4_rows_are_not_nodes_counterexample :
  node_count sample_context = 2%nat ∧
  (∃ y, SageEncoder.forward sample_sage sample_context = Ok y ∧
        nrows y = 4%nat ∧ ncols y = 2%nat) ∧
  (∃ y, SaintEncoder.forward sample_saint sample_context = Ok y ∧
        nrows y = 4%nat ∧ ncols y = 2%nat) ∧
  (∃ y, GINEncoder.forward sample_gin sample_context = Ok y ∧
        nrows y = 3%nat ∧ ncols y = 2%nat).
Proof.
  split_and!; [done|..];
    (eexists; split; [vm_compute; reflexivity|]; split; reflexivity).
Qed.

Lemma C4_encoder_forward_witness :
  ∃ y, encoder_forward (Sage sample_sage) sample_context = Ok y ∧
       nrows y = embedding_dims (Sage sample_sage) (ncols sample_aggregated) ∧
       ncols y = node_count sample_context ∧
       wf_matrix y ∧
       ∀ e j, (e < nrows y)%nat → (j < node_count sample_context)%nat →
         entry y e j
         = node_embedding (Sage sample_sage)
             (row (node_feats sample_context) j) (row sample_aggregated j) e.
Proof.
  apply (C4_encoder_forward_is_dims_by_nodes (Sage sample_sage) sample_context
           (node_feats sample_context) sample_aggregated).
  - split_and!; [reflexivity|reflexivity|repeat constructor|repeat constructor|
                 reflexivity|reflexivity].
  - split; [apply tabulate_wf|reflexivity].
Defined.

(** Claim C7 fails as stated.  One node with the seven neighbour values
    1, 2, 3, 4, 5, 6, 10 has the sum 31 (every partial sum is a small
    integer, so every order of addition gives it) and the mean
    [9287387 / 2097152], the binary32 number nearest to [31 / 7]; seven
    times that mean is not 31, neither exactly nor after rounding the
    product, which is [16252927 / 524288]. *)
Lemma C7_float32_counterexample :
  Float32.nrows seven_neighbours = (1 * 7)%nat ∧
  Float32.ncols seven_neighbours = 1%nat ∧
  ∃ mean sum,
    Float32.MeanAggregator.forward Float32.sequential_sum Ok seven_neighbours 1
      = Ok mean ∧
    Float32.SumAggregator.forward Float32.sequential_sum Ok seven_neighbours 1
      = Ok sum ∧
    Float32.entry sum 0 0 = Float32.Finite 31 ∧
    Float32.entry mean 0 0 = Float32.Finite (9287387 # 2097152) ∧
    Float32.mul (Float32.of_count 7) (Float32.entry mean 0 0)
      = Float32.Finite (16252927 # 524288) ∧
    ¬ Float32.exact_multiple 7 (Float32.entry mean 0 0) (Float32.entry sum 0 0) ∧
    ¬ Float32.rounded_multiple 7 (Float32.entry mean 0 0) (Float32.entry sum 0 0).
Proof.
  split; [reflexivity|]. split; [reflexivity|].
  eexists _, _. split; [vm_compute; reflexivity|]. split; [vm_compute; reflexivity|].
  split; [reflexivity|]. split; [reflexivity|]. split; [vm_compute; reflexivity|].
  split.
  - intros (m & s & [= <-] & [= <-] & H). vm_compute in H. discriminate.
  - unfold Float32.rounded_multiple. vm_compute. discriminate.
Qed.

Lemma C7_mean_aggregate_witness :
  ∃ mean sum,
    Float32.MeanAggregator.forward Float32.sequential_sum Ok sample_float_feats 2
      = Ok mean ∧
    Float32.SumAggregator.forward Float32.sequential_sum Ok sample_float_feats 2
      = Ok sum ∧
    Float32.nrows mean = 2%nat ∧ Float32.ncols mean = 3%nat ∧ Float32.wf mean ∧
    Float32.nrows sum = 2%nat ∧ Float32.ncols sum = 3%nat ∧ Float32.wf sum ∧
    ∀ i j, (i < 2)%nat → (j < 3)%nat →
      Float32.entry mean i j
        = Float32.div (Float32.entry sum i j) (Float32.of_count 2) ∧
      ∀ s m,
        Float32.entry sum i j = Float32.Finite s →
        Float32.entry mean i j = Float32.Finite m →
        Z.of_nat 2 < 2 ^ 24 →
        (Float32.pow2 (-126) <= Qabs (s / inject_Z (Z.of_nat 2)))%Q →
        (Qabs (inject_Z (Z.of_nat 2) * m - s) <= Float32.pow2 (-24) * Qabs s)%Q.
Proof.
  apply (C7_mean_aggregate_is_rounded_sum_over_k Float32.sequential_sum
           Ok sample_float_feats sample_float_feats 2 2 3).
  - reflexivity.
  - lia.
  - lia.
  - reflexivity.
  - reflexivity.
Defined.

(** Claim C8 fails as stated.  Three neighbour rows are not divisible among
    two nodes, yet on a matrix without columns neither aggregator raises:
    the view holds no element and both return a [(2, 0)] matrix. *)
Lemma C8_no_columns_counterexample :
  (nrows sample_empty_features `mod` 2 ≠ 0)%nat ∧
  MeanAggregator.forward sample_features sample_empty_features 2
    = Ok {| ncols := 0; rows := [[]; []] |} ∧
  SumAggregator.forward sample_features sample_empty_features 2
    = Ok {| ncols := 0; rows := [[]; []] |}.
Proof. split_and!; [done|reflexivity|reflexivity]. Qed.

Lemma C8_aggregator_shape_error_witness :
  (MeanAggregator.forward sample_features (neighbor_feats sample_context) 3
     = Err ShapeError ↔
   (nrows (neighbor_feats sample_context) `mod` 3 ≠ 0)%nat) ∧
  (SumAggregator.forward sample_features (neighbor_feats sample_context) 3
     = Err ShapeError ↔
   (nrows (neighbor_feats sample_context) `mod` 3 ≠ 0)%nat) ∧
  ((nrows (neighbor_feats sample_context) `mod` 3 = 0)%nat →
     ∃ mean sum,
       MeanAggregator.forward sample_features (neighbor_feats sample_context) 3 = Ok mean ∧
       SumAggregator.forward sample_features (neighbor_feats sample_context) 3 = Ok sum ∧
       nrows mean = 3%nat ∧ ncols mean = ncols (neighbor_feats sample_context) ∧
       nrows sum = 3%nat ∧ ncols sum = ncols (neighbor_feats sample_context)).
Proof.
  apply (C8_aggregator_shape_error_iff_not_divisible sample_features
           (neighbor_feats sample_context) (neighbor_feats sample_context) 3).
  - reflexivity.
  - lia.
  - vm_compute. lia.
Defined.

Lemma C10_num_clf_partitions_witness :
  ∃ m1 : GalaXCBase.t unit Matrix,
    GalaXCBase.init sample_features (λ name, Ok name) (λ _ _ _, Ok (λ m, Ok m))
      4 1 ["cpu"; "cpu"] 1 [2; 2; 2] () 1 (1 # 2) 1 0 sample_rand = Ok m1 ∧
    LinearDistributed.num_partitions (GalaXCBase.classifier m1) = 2%nat ∧
    length (LinearDistributed.classifiers (GalaXCBase.classifier m1)) = 2%nat ∧
    LinearDistributed.partition_indices (GalaXCBase.classifier m1) = partition_table 4 2 ∧
    GalaXCBase.num_clf_partitions m1 = 1 ∧
    ∃ m2,
      GalaXCBase.init sample_features (λ name, Ok name) (λ _ _ _, Ok (λ m, Ok m))
        4 1 ["cpu"; "cpu"] 1 [2; 2; 2] () 1 (1 # 2) 7 0 sample_rand = Ok m2 ∧
      GalaXCBase.num_clf_partitions m2 = 7 ∧
      GalaXCBase.classifier m2 = GalaXCBase.classifier m1 ∧
      (∀ batch, GalaXCBase.encode m2 batch = GalaXCBase.encode m1 batch) ∧
      (∀ batch, GalaXCBase.forward sample_exp m2 batch
                = GalaXCBase.forward sample_exp m1 batch).
Proof.
  eexists. split; [reflexivity|].
  apply (C10_num_clf_partitions_has_no_effect sample_features (λ name, Ok name)
           (λ _ _ _, Ok (λ m, Ok m)) sample_exp
           4 1 ["cpu"; "cpu"] 1 [2; 2; 2] () 1 (1 # 2) 0 sample_rand 1 7).
  reflexivity.
Defined.

(** * Further properties *)

(** ** When the distributed classifier can be built *)

(** X1. [LinearDistributed.__init__] returns a classifier exactly when there
    is at least one device, the input size is at least one, the number of
    labels is not negative and the last shard does not start beyond the
    labels: [(N - 1) * ceil(num_labels / N) <= num_labels]. *)
Theorem LinearDistributed_init_succeeds_iff
    (input_size num_labels : Z) (devs : list Device)
    (values : nat → LinearChunk.Init) :
  is_ok (LinearDistributed.init input_size num_labels devs values) = true ↔
  (1 ≤ length devs)%nat ∧ 1 ≤ input_size ∧ 0 ≤ num_labels ∧
  (Z.of_nat (length devs) - 1) * ceil_div num_labels (Z.of_nat (length devs))
    ≤ num_labels.
Proof.
  split.
  - destruct (LinearDistributed.init _ _ _ _) as [c|] eqn:Hc; [intros _|done].
    apply LinearDistributed_init_Ok in Hc
      as (HN & Hin & HL & _ & _ & _ & _ & _ & _ & Hlen & Hsh).
    split_and!; try lia.
    destruct (lookup_lt_is_Some_2 (LinearDistributed.classifiers c)
                (length devs - 1)) as [sh Hsh']; [lia|].
    destruct (Hsh _ _ Hsh') as (r & Hr & Hle & _).
    apply build_partition_indices_lookup_Some in Hr as [_ ->].
    unfold partition_range in Hle. simpl in Hle.
    replace (Z.of_nat (length devs - 1)) with (Z.of_nat (length devs) - 1) in Hle
      by lia.
    lia.
  - intros (HN & Hin & HL & Hfit).
    pose proof (ceil_div_nonneg num_labels (Z.of_nat (length devs))) as Hps.
    unfold LinearDistributed.init. rewrite decide_False by lia.
    match goal with
    | |- context [for_each ?f ?xs] => destruct (for_each_total f xs) as [cs ->]
    end; [|done].
    apply Forall_forall. intros i Hi%elem_of_seq.
    unfold list_item. rewrite build_partition_indices_lookup by lia.
    rewrite bind_Ok_l.
    destruct (lookup_lt_is_Some_2 devs i) as [d ->]; [lia|]. rewrite bind_Ok_l.
    apply LinearChunk_init_total; [|lia].
    unfold partition_range. simpl. nia.
Qed.

(** ** Names the orchestrator looks up but never binds *)

Section missing_names_properties.
Context {Graph Raw : Type}.

(** X2. [encode_graph_embedding] and [get_clf_weights] raise
    [AttributeError] on every model: the constructor binds no [embeddings],
    and [LinearDistributed] has no [get_weights]. *)
Theorem missing_names_raise_attribute_error
    (call : PyVal → result Matrix) (self : GalaXCBase.t Graph Raw)
    (context : GalaXCBase.Batch Raw) :
  encode_graph_embedding call self context = Err AttributeError ∧
  get_clf_weights call self = Err AttributeError.
Proof.
  split.
  - unfold encode_graph_embedding.
    assert (getattr (GalaXCBase.vars self) "embeddings" = Err AttributeError)
      as ->; [|done].
    unfold GalaXCBase.vars, getattr.
    rewrite not_elem_of_list_to_map_1; [done|]. cbn [fmap list_fmap fst].
    repeat (apply not_elem_of_cons; split; [done|]). apply not_elem_of_nil.
  - unfold get_clf_weights.
    assert (getattr (GalaXCBase.vars self) "classifier"
            = Ok (vars_LinearDistributed (GalaXCBase.classifier self))) as ->.
    { unfold GalaXCBase.vars, getattr. unfold list_to_map. cbn [foldr fst snd].
      rewrite !lookup_insert_ne by done. by rewrite lookup_insert_eq. }
    rewrite bind_Ok_l. unfold getattr_of.
    assert (getattr (vars_LinearDistributed (GalaXCBase.classifier self))
              "get_weights" = Err AttributeError) as ->.
    { unfold vars_LinearDistributed, getattr.
      rewrite not_elem_of_list_to_map_1; [done|]. cbn [fmap list_fmap fst].
      repeat (apply not_elem_of_cons; split; [done|]). apply not_elem_of_nil. }
    rewrite decide_False; [done|]. unfold methods_LinearDistributed.
    repeat (apply not_elem_of_cons; split; [done|]). apply not_elem_of_nil.
Qed.
End missing_names_properties.

(** ** Nearest-neighbour answers *)

Lemma assign_row_is_Some {A} (n : nat) (v : list A) :
  is_Some (HNSW.assign_row n v) ↔ HNSW.fits n v.
Proof.
  unfold HNSW.assign_row, HNSW.fits. case_decide as Hn.
  - split; [by left|by eexists].
  - destruct v as [|x [|y v]]; simpl in *; split;
      try (intros [? [=]]); try (intros [|]; done || lia); eauto.
Qed.

Lemma assign_row_Some {A} (n : nat) (v r : list A) :
  HNSW.assign_row n v = Some r →
  length r = n ∧ (length v = n → r = v) ∧ (∀ x, v = [x] → r = replicate n x).
Proof.
  unfold HNSW.assign_row. case_decide as Hn.
  - intros [= <-]. split_and!; [done..|]. intros x ->. simpl in Hn. by subst n.
  - destruct v as [|x [|y v]]; intros [= <-].
    split_and!; [by rewrite length_replicate|done|by intros ? [= ->]].
Qed.

Lemma fits_map {A B} (f : A → B) (n : nat) (v : list A) :
  HNSW.fits n (map f v) ↔ HNSW.fits n v.
Proof. unfold HNSW.fits. by rewrite length_map. Qed.

Lemma int32_range (z : Z) : - 2 ^ 31 ≤ HNSW.int32 z < 2 ^ 31.
Proof.
  unfold HNSW.int32.
  pose proof (Z.mod_pos_bound (z + 2 ^ 31) (2 ^ 32) ltac:(lia)). lia.
Qed.

Lemma int32_id (z : Z) : - 2 ^ 31 ≤ z < 2 ^ 31 → HNSW.int32 z = z.
Proof. intros Hz. unfold HNSW.int32. rewrite Z.mod_small by lia. lia. Qed.

Lemma int32_congruent (z : Z) : (HNSW.int32 z - z) `mod` 2 ^ 32 = 0.
Proof.
  unfold HNSW.int32.
  pose proof (Z.div_mod (z + 2 ^ 31) (2 ^ 32) ltac:(lia)) as Hdm.
  replace ((z + 2 ^ 31) `mod` 2 ^ 32 - 2 ^ 31 - z)
    with (- ((z + 2 ^ 31) `div` 2 ^ 32) * 2 ^ 32) by lia.
  apply Z.mod_mul. lia.
Qed.

Lemma HNSW_loop_Returned {D F} (float32 : D → F) (n : nat)
    (output : list (list Z * list D)) :
  ∀ (arrays arrays' : HNSW.Arrays) (idx : nat),
    HNSW.loop float32 n arrays idx output = HNSW.Returned arrays' →
    (idx + length output ≤ length arrays.1)%nat →
    (idx + length output ≤ length arrays.2)%nat →
    length arrays'.1 = length arrays.1 ∧ length arrays'.2 = length arrays.2 ∧
    (∀ j, (j < idx)%nat → arrays'.1 !! j = arrays.1 !! j ∧
                          arrays'.2 !! j = arrays.2 !! j) ∧
    ∀ i item, output !! i = Some item →
      arrays'.1 !! (idx + i)%nat = HNSW.assign_row n (map HNSW.int32 item.1) ∧
      arrays'.2 !! (idx + i)%nat = HNSW.assign_row n (map float32 item.2).
Proof.
  induction output as [|item rest IH]; intros arrays arrays' idx Hloop H1 H2.
  - injection Hloop as <-. split_and!; done.
  - simpl in Hloop, H1, H2. unfold HNSW.store in Hloop.
    destruct (HNSW.assign_row n (map HNSW.int32 item.1)) as [ids|] eqn:Hids; [|done].
    destruct (HNSW.assign_row n (map float32 item.2)) as [ds|] eqn:Hds; [|done].
    apply IH in Hloop as (Hl1 & Hl2 & Hkeep & Hrows);
      simpl; rewrite ?length_insert; try lia.
    cbn [fst snd] in Hl1, Hl2, Hkeep.
    rewrite length_insert in Hl1. rewrite length_insert in Hl2.
    split_and!; [done..| |].
    + intros j Hj. destruct (Hkeep j) as [-> ->]; [lia|].
      by rewrite !list_lookup_insert_ne by lia.
    + intros [|i] it Hit.
      * injection Hit as <-. rewrite Nat.add_0_r.
        destruct (Hkeep idx) as [-> ->]; [lia|].
        rewrite !list_lookup_insert_eq by lia. by rewrite Hids, Hds.
      * replace (idx + S i)%nat with (S idx + i)%nat by lia. by apply Hrows.
Qed.

(** X3. [_filter] returns exactly when every answer item carries, both for
    the ids and for the distances, [num_search] values or a single value;
    an item of any other length (a query with fewer neighbours than asked
    for) makes it raise [ValueError]. *)
Theorem HNSW_filter_returns_iff {D F} (float32 : D → F) (zero : F)
    (output : list (list Z * list D)) (num_search : nat) :
  (∃ r, HNSW._filter float32 zero output num_search = HNSW.Returned r) ↔
  Forall (λ item, HNSW.fits num_search item.1 ∧ HNSW.fits num_search item.2) output.
Proof.
  unfold HNSW._filter.
  generalize (replicate (length output) (replicate num_search 0),
              replicate (length output) (replicate num_search zero)).
  generalize 0%nat.
  induction output as [|item rest IH]; intros idx arrays.
  - split; [done|]. intros _. by eexists.
  - simpl. unfold HNSW.store.
    rewrite Forall_cons, <- (fits_map HNSW.int32), <- (fits_map float32).
    rewrite <- !assign_row_is_Some.
    destruct (HNSW.assign_row num_search (map HNSW.int32 item.1)) as [ids|];
      [|split; [by intros [? ?]|by intros [[[? [=]] _] _]]].
    destruct (HNSW.assign_row num_search (map float32 item.2)) as [ds|];
      [|split; [by intros [? ?]|by intros [[_ [? [=]]] _]]].
    rewrite IH. split; [by intros ?; split_and!; try eexists|by intros [_ ?]].
Qed.

(** X4. When [_filter] returns, both arrays have one row per answer item and
    [num_search] columns, and no row of the initial zeros is left.  Row [i]
    of the ids holds the ids of item [i], each reduced to its low 32 bits
    as a signed number, when there are [num_search] of them, and the single
    id so reduced and repeated [num_search] times otherwise; every stored
    id lies in the [int32] range and differs from the id given by a multiple
    of [2 ^ 32], so a row of ids that are all within the range is stored
    unchanged.  Row [i] of the distances holds the distances of item [i]
    converted to [float32], repeated in the same way when there is one. *)
Theorem HNSW_filter_rows {D F} (float32 : D → F) (zero : F)
    (output : list (list Z * list D)) (num_search : nat)
    (indices : list (list Z)) (distances : list (list F)) :
  HNSW._filter float32 zero output num_search = HNSW.Returned (indices, distances) →
  length indices = length output ∧ length distances = length output ∧
  ∀ i item, output !! i = Some item →
    ∃ ids ds,
      indices !! i = Some ids ∧ distances !! i = Some ds ∧
      length ids = num_search ∧ length ds = num_search ∧
      (length item.1 = num_search → ids = map HNSW.int32 item.1) ∧
      (length item.2 = num_search → ds = map float32 item.2) ∧
      (∀ x, item.1 = [x] → ids = replicate num_search (HNSW.int32 x)) ∧
      (∀ x, item.2 = [x] → ds = replicate num_search (float32 x)) ∧
      Forall (λ id, - 2 ^ 31 ≤ id < 2 ^ 31 ∧
                    ∃ x, x ∈ item.1 ∧ (id - x) `mod` 2 ^ 32 = 0) ids ∧
      (length item.1 = num_search →
       Forall (λ x, - 2 ^ 31 ≤ x < 2 ^ 31) item.1 → ids = item.1).
Proof.
  unfold HNSW._filter. intros Hloop.
  apply HNSW_loop_Returned in Hloop as (Hl1 & Hl2 & _ & Hrows);
    simpl; rewrite ?length_replicate; try lia.
  cbn [fst snd] in Hl1, Hl2.
  rewrite length_replicate in Hl1. rewrite length_replicate in Hl2.
  split_and!; [done..|]. intros i item Hi.
  destruct (Hrows i item Hi) as [H1 H2]. simpl in H1, H2.
  assert (i < length indices)%nat as Hlt1
    by (rewrite Hl1; by eapply lookup_lt_Some).
  assert (i < length distances)%nat as Hlt2
    by (rewrite Hl2; by eapply lookup_lt_Some).
  destruct (lookup_lt_is_Some_2 indices i Hlt1) as [ids Hids].
  destruct (lookup_lt_is_Some_2 distances i Hlt2) as [ds Hds].
  rewrite Hids in H1. rewrite Hds in H2. symmetry in H1, H2.
  assert (Forall (λ id, - 2 ^ 31 ≤ id < 2 ^ 31 ∧
                        ∃ x, x ∈ item.1 ∧ (id - x) `mod` 2 ^ 32 = 0) ids) as Hwrap.
  { assert (Forall (λ id, - 2 ^ 31 ≤ id < 2 ^ 31 ∧
                          ∃ x, x ∈ item.1 ∧ (id - x) `mod` 2 ^ 32 = 0)
                   (map HNSW.int32 item.1)) as Hmap.
    { apply Forall_fmap, Forall_forall. intros x Hx. simpl.
      split; [apply int32_range|]. exists x. split; [done|apply int32_congruent]. }
    unfold HNSW.assign_row in H1. case_decide.
    - by injection H1 as <-.
    - destruct (map HNSW.int32 item.1) as [|y [|??]] eqn:Hy; try done.
      injection H1 as <-. apply Forall_replicate. by apply Forall_inv in Hmap. }
  apply assign_row_Some in H1 as (Hlen1 & Hsame1 & Hone1).
  apply assign_row_Some in H2 as (Hlen2 & Hsame2 & Hone2).
  exists ids, ds. split_and!; try done.
  - intros Hl. apply Hsame1. by rewrite length_map.
  - intros Hl. apply Hsame2. by rewrite length_map.
  - intros x Hx. apply Hone1. by rewrite Hx.
  - intros x Hx. apply Hone2. by rewrite Hx.
  - intros Hl Hin. rewrite Hsame1 by (by rewrite length_map).
    rewrite <- (map_id item.1) at 2. apply map_ext_Forall.
    eapply Forall_impl; [exact Hin|]. intros x Hx. by apply int32_id.
Qed.

Lemma HNSW_filter_rows_witness :
  let output := [([2 ^ 31; 5], [1 # 3; 1 # 2]%Q); ([7], [3 # 1]%Q)] in
  let indices := [[- 2 ^ 31; 5]; [7; 7]] in
  let distances :=
    [[Float32.Finite (11184811 # 33554432); Float32.Finite (1 # 2)];
     [Float32.Finite 3; Float32.Finite 3]] in
  HNSW._filter Float32.round (Float32.Finite 0) output 2
    = HNSW.Returned (indices, distances) ∧
  length indices = length output ∧ length distances = length output ∧
  ∀ i item, output !! i = Some item →
    ∃ ids ds,
      indices !! i = Some ids ∧ distances !! i = Some ds ∧
      length ids = 2%nat ∧ length ds = 2%nat ∧
      (length item.1 = 2%nat → ids = map HNSW.int32 item.1) ∧
      (length item.2 = 2%nat → ds = map Float32.round item.2) ∧
      (∀ x, item.1 = [x] → ids = replicate 2 (HNSW.int32 x)) ∧
      (∀ x, item.2 = [x] → ds = replicate 2 (Float32.round x)) ∧
      Forall (λ id, - 2 ^ 31 ≤ id < 2 ^ 31 ∧
                    ∃ x, x ∈ item.1 ∧ (id - x) `mod` 2 ^ 32 = 0) ids ∧
      (length item.1 = 2%nat →
       Forall (λ x, - 2 ^ 31 ≤ x < 2 ^ 31) item.1 → ids = item.1).
Proof.
  intros output indices distances. split; [vm_compute; reflexivity|].
  apply (HNSW_filter_rows Float32.round (Float32.Finite 0) output 2 indices distances).
  vm_compute. reflexivity.
Defined.

(** ** Shortlists against one shard *)

Lemma embedding_lookup {A} `{Inhabited A} (table : list A) (ids : list (list Z))
    (rs : list (list A)) (i p : nat) (ir : list Z) (id : Z) :
  embedding table ids = Ok rs → ids !! i = Some ir → ir !! p = Some id →
  valid_embedding_id (length table) id ∧
  ∃ r, rs !! i = Some r ∧ r !! p = table !! Z.to_nat id.
Proof.
  unfold embedding. intros Hrs Hi Hp.
  apply for_each_Ok in Hrs.
  destruct (Forall2_lookup_l _ _ _ _ _ Hrs Hi) as (r & Hr & Hrow).
  apply for_each_Ok in Hrow.
  destruct (Forall2_lookup_l _ _ _ _ _ Hrow Hp) as (a & Ha & Hid).
  simpl in Hid. case_decide as Hv; [|done]. injection Hid as <-.
  split; [done|]. exists r. split; [done|]. rewrite Ha. symmetry.
  apply list_lookup_lookup_total_lt. lia.
Qed.

Lemma embedding_invalid {A} `{Inhabited A} (table : list A) (ids : list (list Z)) :
  Exists (Exists (λ id, ¬ valid_embedding_id (length table) id)) ids →
  embedding table ids = Err IndexError.
Proof.
  intros Hex. unfold embedding.
  assert (∀ ir : list Z, is_ok (for_each (λ id,
              if decide (0 ≤ id < Z.of_nat (length table))
              then Ok (table !!! Z.to_nat id) else Err IndexError) ir) = true ∨
            for_each (λ id,
              if decide (0 ≤ id < Z.of_nat (length table))
              then Ok (table !!! Z.to_nat id) else Err IndexError) ir
            = Err IndexError) as Hrow.
  { induction ir as [|id ir IH]; [by left|]. simpl.
    case_decide; [|by right]. rewrite bind_Ok_l.
    destruct IH as [IH|IH]; [left|right].
    - by destruct (for_each _ ir).
    - by rewrite IH. }
  apply for_each_Err.
  - apply Forall_forall. intros ir _. apply Hrow.
  - eapply Exists_impl; [done|]. intros ir Hir. simpl in Hir.
    apply for_each_Err.
    + apply Forall_forall. intros id _. case_decide; [by left|by right].
    + eapply Exists_impl; [done|]. intros id Hid. simpl in Hid.
      by rewrite decide_False.
Qed.

(** X5. On a shard built by [LinearChunk.__init__], the rank-two branch
    scores a candidate like the dense branch scores its label: entry
    [(i, p)] of the shortlist output is entry [(i, ids[i][p])] of the dense
    output (several candidates per row, or a single row). *)
Theorem LinearChunk_forward_2d_agrees_with_dense
    (exp : Q → Q) (input_size output_size : Z) (dev : Device)
    (values : LinearChunk.Init) (c : LinearChunk.t) (embed : Matrix)
    (ids : IdMatrix) (x z : Matrix) (i p : nat) (ir : list Z) (id : Z) :
  LinearChunk.init input_size output_size dev values = Ok c →
  ncols embed = (3 * Z.to_nat input_size)%nat →
  wf_ids ids → length (id_rows ids) = nrows embed →
  (id_ncols ids ≠ 1 ∨ nrows embed = 1)%nat →
  LinearChunk.forward exp c (embed, Labels2D ids) = Ok x →
  LinearChunk.forward exp c (embed, NoLabels) = Ok z →
  id_rows ids !! i = Some ir → ir !! p = Some id →
  0 ≤ id < output_size ∧ entry x i p = entry z i (Z.to_nat id).
Proof.
  intros Hc He Hwf HB Hsq Hx Hz Hi Hp.
  apply LinearChunk_init_Ok in Hc as (Ho & Hin & Hshape & _ & _).
  set (o := Z.to_nat output_size) in *. set (d := Z.to_nat input_size) in *.
  assert (0 < d)%nat as Hd by lia.
  pose proof Hshape as (Hw & Hwr & Hwc & Ha & Har & Hac & Hb).
  set (B := length (id_rows ids)) in *. set (K := id_ncols ids) in *.
  assert (i < B)%nat as HiB by (by apply lookup_lt_Some in Hi).
  assert (length ir = K) as HirK by (by eapply (Forall_lookup_1 _ _ _ _ Hwf)).
  assert (p < K)%nat as HpK by (rewrite <- HirK; by apply lookup_lt_Some in Hp).
  pose proof Hx as Hx0.
  unfold LinearChunk.forward in Hx. simpl in Hx. fold B K in Hx.
  apply bind_Ok in Hx as (sw & Hsw & Hx).
  assert (Forall (Forall (valid_embedding_id o)) (id_rows ids)) as Hvalid.
  { apply Forall_lookup. intros i' ir' Hi'. apply Forall_lookup. intros p' id' Hp'.
    destruct (embedding_lookup _ _ _ _ _ _ _ Hsw Hi' Hp') as [Hv _].
    fold (nrows (LinearChunk.weight c)) in Hv. by rewrite Hwr in Hv. }
  destruct (embedding_Ok (rows (LinearChunk.weight c)) (id_rows ids))
    as (sw' & Hsw' & Hsw2); [by rewrite <- Hwr in Hvalid|].
  assert (sw' = sw) as -> by congruence. clear Hsw'.
  destruct (embedding_Ok (LinearChunk.bias c) (id_rows ids))
    as (sb & Hsb & Hsb2); [by rewrite Hb|].
  destruct (embedding_Ok (rows (LinearChunk.attention_weights c)) (id_rows ids))
    as (sa & Hsa & Hsa2); [by rewrite <- Har in Hvalid|].
  destruct (embedding_join (λ r, length r = d) _ _ _ K
              ltac:(by rewrite <- Hwc) Hwf Hsw2) as (Hswl & Hswd & Hswn & HswK).
  destruct (embedding_join (λ r, length r = 3%nat) _ _ _ K
              ltac:(by rewrite <- Hac) Hwf Hsa2) as (Hsal & Hsad & Hsan & HsaK).
  destruct (embedding_join (λ _, True) (LinearChunk.bias c) _ _ K
              ltac:(by apply Forall_true) Hwf Hsb2) as (_ & _ & Hsbl & HsbK).
  fold B in Hswl, Hsal, Hsbl, Hswn, Hsan.
  assert (mjoin sw ≠ []) as Hswne.
  { intros Heq. rewrite Heq in Hswl. simpl in Hswl. nia. }
  assert (mjoin sa ≠ []) as Hsane.
  { intros Heq. rewrite Heq in Hsal. simpl in Hsal. nia. }
  assert (view_cols (B * K) (mjoin (mjoin sw)) = Ok {| ncols := d; rows := mjoin sw |})
    as Hvw by (rewrite <- Hswl; by apply view_cols_join).
  assert (view_cols (B * K) (mjoin (mjoin sa)) = Ok {| ncols := 3; rows := mjoin sa |})
    as Hva by (rewrite <- Hsal; by apply view_cols_join).
  rewrite Hvw, bind_Ok_l, Hsb, bind_Ok_l, Hsa, bind_Ok_l, Hva, bind_Ok_l in Hx.
  simpl in Hx. case_decide as Hlen; [|done].
  rewrite <- HB in Hx. fold B in Hx. rewrite broadcast_dim_same, bind_Ok_l in Hx.
  assert (squeeze_all {| ncols := K; rows := sb |} = {| ncols := K; rows := sb |}) as Hsqz.
  { unfold squeeze_all. rewrite decide_False; [done|]. unfold nrows. simpl. lia. }
  rewrite Hsqz in Hx.
  rewrite (entry_broadcast2_same _ _ _ _ _ _ Hx);
    [|rewrite tabulate_nrows; unfold nrows; simpl; lia|done
     |by rewrite tabulate_nrows|done].
  rewrite tabulate_entry by done. rewrite !bidx_lt by done.
  (* the rows selected for candidate (i, p) *)
  destruct (embedding_lookup _ _ _ _ _ _ _ Hsw Hi Hp) as (Hv & rw & Hrw & Hrwp).
  destruct (embedding_lookup _ _ _ _ _ _ _ Hsa Hi Hp) as (_ & ra & Hra & Hrap).
  destruct (embedding_lookup _ _ _ _ _ _ _ Hsb Hi Hp) as (_ & rb & Hrb & Hrbp).
  fold (nrows (LinearChunk.weight c)) in Hv. rewrite Hwr in Hv.
  unfold valid_embedding_id in Hv.
  set (k := Z.to_nat id) in *.
  assert (k < o)%nat as Hk by lia.
  destruct (lookup_lt_is_Some_2 (rows (LinearChunk.weight c)) k) as [wl Hwl];
    [by fold (nrows (LinearChunk.weight c)); rewrite Hwr|].
  destruct (lookup_lt_is_Some_2 (rows (LinearChunk.attention_weights c)) k) as [al Hal];
    [by fold (nrows (LinearChunk.attention_weights c)); rewrite Har|].
  destruct (lookup_lt_is_Some_2 (LinearChunk.bias c) k) as [bk Hbk]; [by rewrite Hb|].
  rewrite Hwl in Hrwp. rewrite Hal in Hrap. rewrite Hbk in Hrbp.
  assert (mjoin sw !! (i * K + p)%nat = Some wl) as Hjw.
  { apply (join_lookup_Some_same_length' K); [done|done|]. eauto. }
  assert (mjoin sa !! (i * K + p)%nat = Some al) as Hja.
  { apply (join_lookup_Some_same_length' K); [done|done|]. eauto. }
  (* the dense output *)
  unfold LinearChunk.forward in Hz. simpl in Hz.
  apply bind_Ok in Hz as (zp & Hzp & Hz).
  assert (Forall (λ r, length r = d) (rows (LinearChunk.weight c))) as Hwd
    by (by rewrite <- Hwc).
  assert (Forall (λ r, length r = 3%nat) (rows (LinearChunk.attention_weights c))) as Ha3
    by (by rewrite <- Hac).
  destruct (project_shape exp embed (rows (LinearChunk.weight c))
              (rows (LinearChunk.attention_weights c)) d o)
    as (zp' & Hzp' & Hzpr & Hzpc & _); try done.
  assert (zp' = zp) as -> by congruence.
  rewrite (entry_broadcast2_row_vector _ _ _ _ _ _ Hz) by lia.
  rewrite (project_entry exp embed (rows (LinearChunk.weight c))
             (rows (LinearChunk.attention_weights c)) d zp i k wl al) by (done || lia).
  split; [lia|]. f_equal.
  - apply sumQ_ext. intros j Hj. f_equal.
    rewrite attention_mix_blocks.
    set (blocks := zip_with (label_block exp) (mjoin sw) (mjoin sa)).
    assert (Forall (λ l, length l = ncols embed) blocks) as Hblocks.
    { apply Forall_forall.
      intros l (n & wl' & al' & -> & Hn1 & Hn2)%elem_of_lookup_zip_with.
      rewrite label_block_length, He.
      - by rewrite (Forall_lookup_1 _ _ _ _ Hswd Hn1).
      - by apply (Forall_lookup_1 _ _ _ _ Hsad Hn2). }
    assert (blocks !! (i * K + p)%nat = Some (label_block exp wl al)) as Hblock.
    { unfold blocks. rewrite lookup_zip_with, Hjw, Hja. done. }
    assert (j < length (label_block exp wl al))%nat as Hjl.
    { by rewrite (Forall_lookup_1 _ _ _ _ Hblocks Hblock). }
    destruct (lookup_lt_is_Some_2 _ _ Hjl) as [v Hv'].
    rewrite (nth_lookup_Some _ _ _ _ Hv'). apply nth_lookup_Some.
    apply (join_lookup_Some_same_length' (ncols embed)); [done|done|]. eauto.
  - unfold entry, row. simpl.
    rewrite (nth_lookup_Some _ _ _ _ Hrb), (nth_lookup_Some _ _ _ _ Hrbp).
    by rewrite (nth_lookup_Some _ _ _ _ Hbk).
Qed.

(** X6. A shard rejects ids outside its own rows with [IndexError], before
    any shape is looked at: the rank-one branch accepts ids in
    [[-size, size)] (negative ids count from the end), the rank-two branch
    only ids in [[0, size)]. *)
Theorem LinearChunk_forward_ids_out_of_range
    (exp : Q → Q) (c : LinearChunk.t) (embed : Matrix) :
  let size := nrows (LinearChunk.weight c) in
  (∀ ids : list Z,
     Exists (λ id, ¬ (- Z.of_nat size ≤ id < Z.of_nat size)) ids →
     LinearChunk.forward exp c (embed, Labels1D ids) = Err IndexError) ∧
  (∀ ids : IdMatrix,
     Exists (Exists (λ id, ¬ (0 ≤ id < Z.of_nat size))) (id_rows ids) →
     LinearChunk.forward exp c (embed, Labels2D ids) = Err IndexError).
Proof.
  intros size. split; intros ids Hex.
  - by apply LinearChunk_forward_1d_invalid.
  - unfold LinearChunk.forward. simpl.
    by rewrite (embedding_invalid (rows (LinearChunk.weight c)) (id_rows ids) Hex).
Qed.

Lemma LinearChunk_forward_2d_agrees_with_dense_witness :
  ∃ x z,
    LinearChunk.forward sample_exp sample_shard
      (sample_embed, Labels2D sample_shortlist) = Ok x ∧
    LinearChunk.forward sample_exp sample_shard (sample_embed, NoLabels) = Ok z ∧
    0 ≤ 1 < 2 ∧ entry x 0 1 = entry z 0 (Z.to_nat 1).
Proof.
  eexists _, _. split; [vm_compute; reflexivity|]. split; [vm_compute; reflexivity|].
  apply (LinearChunk_forward_2d_agrees_with_dense sample_exp 1 2 "cpu"
           (sample_values 0) sample_shard sample_embed sample_shortlist
           _ _ 0 1 [0; 1] 1); try reflexivity.
  - repeat constructor.
  - by left.
Defined.

Lemma LinearChunk_forward_ids_out_of_range_witness :
  LinearChunk.forward sample_exp sample_shard (sample_embed, Labels1D [0; 2])
    = Err IndexError ∧
  LinearChunk.forward sample_exp sample_shard
    (sample_embed, Labels2D {| id_ncols := 2; id_rows := [[0; -1]] |})
    = Err IndexError.
Proof.
  destruct (LinearChunk_forward_ids_out_of_range sample_exp sample_shard sample_embed)
    as [H1 H2].
  split.
  - apply H1. apply Exists_cons. right. apply Exists_cons. left.
    change (¬ (- 2 ≤ 2 < 2)). lia.
  - apply H2. apply Exists_cons. left. apply Exists_cons. right.
    apply Exists_cons. left. change (¬ (0 ≤ -1 < 2)). lia.
Defined.

(** ** Aggregation by node *)

Lemma SumAggregator_forward_shape {A} (features : A → result Matrix) (neighs : A)
    (neigh_feats : Matrix) (B k : nat) :
  features neighs = Ok neigh_feats → (1 ≤ B)%nat →
  nrows neigh_feats = (B * k)%nat →
  ∃ sum, SumAggregator.forward features neighs B = Ok sum ∧
         nrows sum = B ∧ ncols sum = ncols neigh_feats ∧ wf_matrix sum.
Proof.
  intros Hf HB Hrows. unfold SumAggregator.forward. rewrite Hf, bind_Ok_l.
  rewrite decide_False by lia. cbv zeta.
  assert (nrows neigh_feats `div` B = k)%nat as ->.
  { rewrite Hrows, Nat.mul_comm. apply Nat.div_mul. lia. }
  destruct (view3_Ok B k neigh_feats Hrows) as [fv ->]. rewrite bind_Ok_l.
  eexists. split; [done|]. unfold sum_axis1. rewrite tabulate_nrows.
  split_and!; [done|done|apply tabulate_wf].
Qed.

(** X7. The aggregators group the neighbour rows by node, node after node:
    with [k] neighbours for each of the [B] nodes, entry [(i, c)] of the sum
    adds the rows [i * k, ..., i * k + k - 1] of the neighbour features, and
    the mean is that sum divided by [k]. *)
Theorem aggregators_group_rows_by_node
    {A} (features : A → result Matrix) (neighs : A) (neigh_feats : Matrix)
    (B k : nat) :
  features neighs = Ok neigh_feats → wf_matrix neigh_feats →
  (1 ≤ B)%nat → (1 ≤ k)%nat → nrows neigh_feats = (B * k)%nat →
  ∃ sum mean,
    SumAggregator.forward features neighs B = Ok sum ∧
    MeanAggregator.forward features neighs B = Ok mean ∧
    ∀ i c, (i < B)%nat → (c < ncols neigh_feats)%nat →
      entry sum i c
        = sumQ (map (λ j, entry neigh_feats (i * k + j) c) (seq 0 k)) ∧
      entry mean i c
        = (sumQ (map (λ j, entry neigh_feats (i * k + j) c) (seq 0 k))
           / inject_Z (Z.of_nat k))%Q.
Proof.
  intros Hf Hwf HB Hk Hrows.
  unfold SumAggregator.forward, MeanAggregator.forward. rewrite Hf, !bind_Ok_l.
  rewrite !decide_False by lia. cbv zeta.
  assert (nrows neigh_feats `div` B = k)%nat as ->.
  { rewrite Hrows, Nat.mul_comm. apply Nat.div_mul. lia. }
  destruct (view3_Ok B k neigh_feats Hrows) as [fv Hfv]. rewrite Hfv, !bind_Ok_l.
  eexists _, _. split; [done|]. split; [done|]. intros i c Hi Hc.
  assert (entry (sum_axis1 B k (ncols neigh_feats) fv) i c
          = sumQ (map (λ j, entry neigh_feats (i * k + j) c) (seq 0 k))) as Hsum.
  { unfold sum_axis1. rewrite tabulate_entry by done.
    apply sumQ_ext. intros j Hj. by apply (view3_entry B k neigh_feats). }
  split; [done|]. unfold mean_axis1.
  rewrite entry_map_matrix.
  - by rewrite Hsum.
  - apply tabulate_wf.
  - unfold sum_axis1. by rewrite tabulate_nrows.
  - done.
Qed.

Lemma aggregators_group_rows_by_node_witness :
  ∃ sum mean,
    SumAggregator.forward sample_features (neighbor_feats sample_context) 2 = Ok sum ∧
    MeanAggregator.forward sample_features (neighbor_feats sample_context) 2 = Ok mean ∧
    ∀ i c, (i < 2)%nat → (c < 3)%nat →
      entry sum i c
        = sumQ (map (λ j, entry (neighbor_feats sample_context) (i * 2 + j) c)
                  (seq 0 2)) ∧
      entry mean i c
        = (sumQ (map (λ j, entry (neighbor_feats sample_context) (i * 2 + j) c)
                   (seq 0 2))
           / inject_Z (Z.of_nat 2))%Q.
Proof.
  apply (aggregators_group_rows_by_node sample_features
           (neighbor_feats sample_context) (neighbor_feats sample_context) 2 2).
  - reflexivity.
  - repeat constructor.
  - lia.
  - lia.
  - reflexivity.
Defined.

(** ** One hop on the context of a query *)

Lemma GINEncoder_hop_forward {A} (enc : GINEncoder.t A) (feat : A → result Matrix)
    (c : Context A) (sf nf : Matrix) (n k d : nat) :
  GINEncoder.features enc = feat →
  GINEncoder.aggregator enc = SumAggregator.forward feat →
  node_count c = n → (1 ≤ n)%nat →
  feat (node_feats c) = Ok sf → wf_matrix sf → nrows sf = n → ncols sf = d →
  feat (neighbor_feats c) = Ok nf → nrows nf = (n * k)%nat → ncols nf = d →
  ∃ y, GINEncoder.forward enc c = Ok y ∧ nrows y = d ∧ ncols y = n ∧ wf_matrix y.
Proof.
  intros Hfe Hag Hn Hn1 Hsf Hsfw Hsfr Hsfc Hnf Hnfr Hnfc.
  destruct (SumAggregator_forward_shape feat (neighbor_feats c) nf n k Hnf Hn1 Hnfr)
    as (agg & Hagg & Har & Hac & Haw).
  destruct (GINEncoder_forward_columns enc c sf agg) as (y & Hy & Hyr & Hyc & Hyw & _).
  - unfold context_shapes. rewrite Hfe, Hag, Hn. by split_and!.
  - congruence.
  - exists y. split_and!; try done; congruence.
Qed.

Lemma GINEncoder_hop_forward_Err {A} (enc : GINEncoder.t A) (feat : A → result Matrix)
    (c : Context A) (e : error) :
  GINEncoder.aggregator enc = SumAggregator.forward feat →
  feat (neighbor_feats c) = Err e →
  GINEncoder.forward enc c = Err e.
Proof.
  intros Hag Hnf. unfold GINEncoder.forward. rewrite Hag.
  unfold SumAggregator.forward. by rewrite Hnf.
Qed.

Lemma GINEncoder_hop_forward_no_nodes {A} (enc : GINEncoder.t A)
    (feat : A → result Matrix) (c : Context A) (nf : Matrix) :
  GINEncoder.aggregator enc = SumAggregator.forward feat →
  feat (neighbor_feats c) = Ok nf → node_count c = 0%nat →
  GINEncoder.forward enc c = Err ZeroDivisionError.
Proof.
  intros Hag Hnf Hn. unfold GINEncoder.forward. rewrite Hag.
  unfold SumAggregator.forward. by rewrite Hnf, Hn.
Qed.

Lemma transposed_forward_Ok {A} (enc : GINEncoder.t A) (c : Context A) (y : Matrix) :
  GINEncoder.forward enc c = Ok y →
  GalaXCBase.transposed_forward enc c = Ok (transpose y).
Proof. intros Hy. unfold GalaXCBase.transposed_forward. by rewrite Hy. Qed.

Lemma transposed_forward_Err {A} (enc : GINEncoder.t A) (c : Context A) (e : error) :
  GINEncoder.forward enc c = Err e →
  GalaXCBase.transposed_forward enc c = Err e.
Proof. intros Hy. unfold GalaXCBase.transposed_forward. by rewrite Hy. Qed.

Section hops.
Context {Raw : Type}.
Variable squeeze0 : Raw → result Matrix.
Variable enc1 : GINEncoder.t Raw.
Variable enc2 : GINEncoder.t (Context Raw).
Variable enc3 : GINEncoder.t (Context (Context Raw)).
Hypothesis enc1_features :
  GINEncoder.features enc1 = GalaXCBase.feature_func Raw squeeze0.
Hypothesis enc1_aggregator :
  GINEncoder.aggregator enc1
  = SumAggregator.forward (GalaXCBase.feature_func Raw squeeze0).
Hypothesis enc2_features :
  GINEncoder.features enc2 = GalaXCBase.transposed_forward enc1.
Hypothesis enc2_aggregator :
  GINEncoder.aggregator enc2
  = SumAggregator.forward (GalaXCBase.transposed_forward enc1).
Hypothesis enc3_features :
  GINEncoder.features enc3 = GalaXCBase.transposed_forward enc2.
Hypothesis enc3_aggregator :
  GINEncoder.aggregator enc3
  = SumAggregator.forward (GalaXCBase.transposed_forward enc2).

Lemma hop1_forward (c : Context Raw) (n k1 d : nat) :
  hop1_context squeeze0 c n k1 d → (1 ≤ n)%nat →
  ∃ y, GINEncoder.forward enc1 c = Ok y ∧ nrows y = d ∧ ncols y = n ∧ wf_matrix y.
Proof.
  intros (Hn & (sf & Hsf & Hsfw & Hsfr & Hsfc) & (nf & Hnf & _ & Hnfr & Hnfc)) Hn1.
  by apply (GINEncoder_hop_forward enc1 (GalaXCBase.feature_func Raw squeeze0)
              c sf nf n k1 d).
Qed.

Lemma hop2_forward (c : Context (Context Raw)) (n k1 k2 d : nat) :
  hop2_context squeeze0 c n k1 k2 d → (1 ≤ n)%nat → (1 ≤ k2)%nat →
  ∃ y, GINEncoder.forward enc2 c = Ok y ∧ nrows y = d ∧ ncols y = n ∧ wf_matrix y.
Proof.
  intros (Hn & Hself & Hneigh) Hn1 Hk.
  destruct (hop1_forward _ _ _ _ Hself Hn1) as (y1 & Hy1 & Hy1r & Hy1c & _).
  destruct (hop1_forward _ _ _ _ Hneigh ltac:(nia)) as (y2 & Hy2 & Hy2r & Hy2c & _).
  destruct (transpose_shape y1) as (Ht1r & Ht1c & Ht1w).
  destruct (transpose_shape y2) as (Ht2r & Ht2c & Ht2w).
  apply (GINEncoder_hop_forward enc2 (GalaXCBase.transposed_forward enc1)
           c (transpose y1) (transpose y2) n k2 d); try done; try congruence.
  - by apply transposed_forward_Ok.
  - by apply transposed_forward_Ok.
Qed.

Lemma hop3_forward (c : Context (Context (Context Raw))) (n k1 k2 k3 d : nat) :
  hop3_context squeeze0 c n k1 k2 k3 d → (1 ≤ n)%nat → (1 ≤ k2)%nat → (1 ≤ k3)%nat →
  ∃ y, GINEncoder.forward enc3 c = Ok y ∧ nrows y = d ∧ ncols y = n ∧ wf_matrix y.
Proof.
  intros (Hn & Hself & Hneigh) Hn1 Hk2 Hk3.
  destruct (hop2_forward _ _ _ _ _ Hself Hn1 Hk2) as (y1 & Hy1 & Hy1r & Hy1c & _).
  destruct (hop2_forward _ _ _ _ _ Hneigh ltac:(nia) Hk2)
    as (y2 & Hy2 & Hy2r & Hy2c & _).
  destruct (transpose_shape y1) as (Ht1r & Ht1c & Ht1w).
  destruct (transpose_shape y2) as (Ht2r & Ht2c & Ht2w).
  apply (GINEncoder_hop_forward enc3 (GalaXCBase.transposed_forward enc2)
           c (transpose y1) (transpose y2) n k3 d); try done; try congruence.
  - by apply transposed_forward_Ok.
  - by apply transposed_forward_Ok.
Qed.

Lemma hop1_forward_no_nodes (c : Context Raw) (k1 d : nat) :
  hop1_context squeeze0 c 0 k1 d →
  GINEncoder.forward enc1 c = Err ZeroDivisionError.
Proof.
  intros (Hn & _ & (nf & Hnf & _)).
  by apply (GINEncoder_hop_forward_no_nodes enc1
              (GalaXCBase.feature_func Raw squeeze0) c nf).
Qed.

Lemma hop2_forward_no_nodes (c : Context (Context Raw)) (n k1 k2 d : nat) :
  hop2_context squeeze0 c n k1 k2 d → (n * k2 = 0)%nat →
  GINEncoder.forward enc2 c = Err ZeroDivisionError.
Proof.
  intros (_ & _ & Hneigh) Hz. rewrite Hz in Hneigh.
  apply (GINEncoder_hop_forward_Err enc2 (GalaXCBase.transposed_forward enc1));
    [done|].
  apply transposed_forward_Err. by eapply hop1_forward_no_nodes.
Qed.

Lemma hop3_forward_no_nodes (c : Context (Context (Context Raw)))
    (n k1 k2 k3 d : nat) :
  hop3_context squeeze0 c n k1 k2 k3 d → (n * k3 * k2 = 0)%nat →
  GINEncoder.forward enc3 c = Err ZeroDivisionError.
Proof.
  intros (_ & _ & Hneigh) Hz.
  apply (GINEncoder_hop_forward_Err enc3 (GalaXCBase.transposed_forward enc2));
    [done|].
  apply transposed_forward_Err. by eapply hop2_forward_no_nodes.
Qed.
End hops.

(** ** From a query to the logits *)

Lemma transform_contract_shape (transform : Matrix → result Matrix) (d h : nat)
    (x : Matrix) (n : nat) :
  transform_contract transform d h → wf_matrix x → nrows x = n → ncols x = d →
  ∃ y, transform x = Ok y ∧ wf_matrix y ∧ nrows y = n ∧ ncols y = h.
Proof.
  intros Ht Hw Hr Hc. destruct (Ht x Hw Hc) as (y & Hy & Hyw & Hyr & Hyc).
  exists y. split_and!; try done. congruence.
Qed.

Lemma LinearDistributed_forward_dense_shape
    (exp : Q → Q) (input_size num_labels : Z) (devs : list Device)
    (values : nat → LinearChunk.Init) (c : LinearDistributed.t) (embed : Matrix) :
  LinearDistributed.init input_size num_labels devs values = Ok c →
  ncols embed = (3 * Z.to_nat input_size)%nat →
  ∃ y, LinearDistributed.forward exp c (embed, NoLabels) = Ok y ∧
       nrows y = nrows embed ∧ Z.of_nat (ncols y) = num_labels.
Proof.
  intros Hinit He.
  destruct (LinearDistributed_init_Ok _ _ _ _ _ Hinit)
    as (HN & Hin & HL & _ & Hdev & _ & _ & Hpi & Hexact & Hlen & Hsh).
  set (N := length devs) in *. set (t := partition_table num_labels N) in *.
  destruct (shard_loop (LinearDistributed.classifiers c)
              (λ _ sh, LinearChunk.forward exp sh (embed, NoLabels)))
    as (xs & Hloop & Hxlen & Hxs).
  { intros i sh Hi. destruct (Hsh _ _ Hi) as (r & _ & _ & Hshape).
    destruct (LinearChunk_forward_dense_shape exp sh embed _ _ Hshape)
      as (x & Hx & _); [lia|done|]. eauto. }
  assert (∀ i x, xs !! i = Some x →
            nrows x = nrows embed ∧
            ∃ r, t !! i = Some r ∧ Z.of_nat (ncols x) = shard_size r) as Hshape.
  { intros i x Hx. destruct (Hxs _ _ Hx) as (sh & Hi & Hfw).
    destruct (Hsh _ _ Hi) as (r & Hr & Hle & Hss).
    destruct (LinearChunk_forward_dense_shape exp sh embed _ _ Hss)
      as (x' & Hx' & Hxr & Hxc & _); [lia|done|].
    rewrite Hfw in Hx'. injection Hx' as <-.
    split; [done|]. exists r. split; [done|]. unfold shard_size. lia. }
  assert (Forall (λ m, nrows m = nrows embed) xs) as HB.
  { apply Forall_lookup. intros i x Hx. by apply Hshape in Hx as (? & _). }
  assert (Forall2 (λ x r, Z.of_nat (ncols x) = shard_size r) xs t) as Hcols.
  { apply Forall2_same_length_lookup. split.
    - unfold t, partition_table. rewrite build_partition_indices_length. lia.
    - intros i x r Hx Hr. apply Hshape in Hx as (_ & r' & Hr' & ?). congruence. }
  destruct (cat1_Ok xs (nrows embed)) as (y & Hy & Hyr & Hyc & _); [|done|].
  { intros ->. simpl in Hxlen. lia. }
  exists y. split_and!.
  - unfold LinearDistributed.forward. simpl. rewrite Hdev. fold N. rewrite <- Hlen.
    rewrite Hloop. done.
  - done.
  - rewrite Hyc, (sum_sizes_ncols _ _ Hcols). apply Hexact.
Qed.

Section pipeline.
Context {Graph Raw S : Type}.
Variable squeeze0 : Raw → result Matrix.
Variable torch_device : string → result Device.
Variable Sequential : Z → Z → Q → result (Matrix → result Matrix).
Variable exp : Q → Q.
Variable sample_neighbors : Graph → S → list Z → Z → result (list Z * S).
Variable node_features : Graph → list Z → result Raw.

Local Abbreviation init :=
  (GalaXCBase.init squeeze0 torch_device Sequential).
Local Abbreviation feature_func := (GalaXCBase.feature_func Raw squeeze0).

(** What a successful construction leaves in the model. *)
Lemma GalaXCBase_init_Ok num_labels hidden_dims device_names feature_dim fanouts
    (graph : Graph) embed_dim dropout num_clf_partitions padding_idx rand
    (m : GalaXCBase.t Graph Raw) :
  init num_labels hidden_dims device_names feature_dim fanouts graph embed_dim
    dropout num_clf_partitions padding_idx rand = Ok m →
  ∃ f0 f1 f2 tr,
    fanouts = [f0; f1; f2] ∧
    GalaXCBase.graph m = graph ∧
    GalaXCBase.first_layer_enc m
      = GINEncoder.mk Raw feature_func (SumAggregator.forward feature_func)
          f0 relu (GalaXCBase.rand_eps1 rand) ∧
    GalaXCBase.second_layer_enc m
      = GINEncoder.mk (Context Raw)
          (GalaXCBase.transposed_forward (GalaXCBase.first_layer_enc m))
          (SumAggregator.forward
             (GalaXCBase.transposed_forward (GalaXCBase.first_layer_enc m)))
          f1 relu (GalaXCBase.rand_eps2 rand) ∧
    GalaXCBase.third_layer_enc m
      = GINEncoder.mk (Context (Context Raw))
          (GalaXCBase.transposed_forward (GalaXCBase.second_layer_enc m))
          (SumAggregator.forward
             (GalaXCBase.transposed_forward (GalaXCBase.second_layer_enc m)))
          f2 relu (GalaXCBase.rand_eps3 rand) ∧
    Sequential embed_dim hidden_dims dropout = Ok tr ∧
    GalaXCBase.transform1 m = tr ∧ GalaXCBase.transform2 m = tr ∧
    GalaXCBase.transform3 m = tr ∧
    LinearDistributed.init hidden_dims num_labels device_names
      (GalaXCBase.rand_chunk rand) = Ok (GalaXCBase.classifier m).
Proof.
  unfold GalaXCBase.init. case_decide as Hlen; [|done].
  intros (dn & Hdn & H)%bind_Ok. apply bind_Ok in H as (de & Hde & H).
  apply bind_Ok in H as (encs & Hencs & H). apply bind_Ok in H as (t1 & Ht1 & H).
  apply bind_Ok in H as (t2 & Ht2 & H). apply bind_Ok in H as (t3 & Ht3 & H).
  apply bind_Ok in H as (c & Hc & [= <-]).
  unfold GalaXCBase._construct_transform in Ht1, Ht2, Ht3.
  unfold GalaXCBase._construct_classifier in Hc.
  assert (t2 = t1) as -> by congruence. assert (t3 = t1) as -> by congruence.
  destruct fanouts as [|f0 [|f1 [|f2 [|f3 fanouts]]]]; try done.
  - injection Hencs as <-. exists f0, f1, f2, t1. by split_and!.
  - exfalso. simpl in Hlen.
    repeat (apply elem_of_cons in Hlen as [?|Hlen]; [lia|]).
    by apply elem_of_nil in Hlen.
Qed.

Lemma GalaXCBase_init_wiring num_labels hidden_dims device_names feature_dim fanouts
    (graph : Graph) embed_dim dropout num_clf_partitions padding_idx rand
    (m : GalaXCBase.t Graph Raw) :
  init num_labels hidden_dims device_names feature_dim fanouts graph embed_dim
    dropout num_clf_partitions padding_idx rand = Ok m →
  GINEncoder.features (GalaXCBase.first_layer_enc m) = feature_func ∧
  GINEncoder.aggregator (GalaXCBase.first_layer_enc m)
    = SumAggregator.forward feature_func ∧
  GINEncoder.features (GalaXCBase.second_layer_enc m)
    = GalaXCBase.transposed_forward (GalaXCBase.first_layer_enc m) ∧
  GINEncoder.aggregator (GalaXCBase.second_layer_enc m)
    = SumAggregator.forward
        (GalaXCBase.transposed_forward (GalaXCBase.first_layer_enc m)) ∧
  GINEncoder.features (GalaXCBase.third_layer_enc m)
    = GalaXCBase.transposed_forward (GalaXCBase.second_layer_enc m) ∧
  GINEncoder.aggregator (GalaXCBase.third_layer_enc m)
    = SumAggregator.forward
        (GalaXCBase.transposed_forward (GalaXCBase.second_layer_enc m)).
Proof.
  intros Hm. apply GalaXCBase_init_Ok in Hm
    as (f0 & f1 & f2 & tr & _ & _ & He1 & He2 & He3 & _).
  split_and!; [by rewrite He1|by rewrite He1|by rewrite He2|by rewrite He2
              |by rewrite He3|by rewrite He3].
Qed.

(** One level of [query]. *)
Lemma encoder_query_Ok {A} (query_func : list Z → Graph → S → result (A * S))
    (P : A → nat → Prop) (graph : Graph) (k : Z) :
  sampler_contract sample_neighbors graph → 0 ≤ k →
  (∀ s nodes, ∃ a s', query_func nodes graph s = Ok (a, s') ∧ P a (length nodes)) →
  ∀ s nodes, ∃ c s',
    encoder_query sample_neighbors query_func k nodes graph s = Ok (c, s') ∧
    node_count c = length nodes ∧
    P (node_feats c) (length nodes) ∧
    P (neighbor_feats c) (length nodes * Z.to_nat k)%nat.
Proof.
  intros Hsample Hk Hq s nodes. unfold encoder_query.
  destruct (Hsample s nodes k Hk) as (ids & s1 & -> & Hids). rewrite bind_Ok_l.
  destruct (Hq s1 nodes) as (a & s2 & Ha & HPa). simpl. rewrite Ha, bind_Ok_l.
  destruct (Hq s2 ids) as (b & s3 & Hb & HPb). simpl. rewrite Hb, bind_Ok_l.
  eexists _, _. split; [done|]. simpl. rewrite Hids in HPb. by split_and!.
Qed.

(** X8. For a model built with fan-outs [[f0, f1, f2]] on a graph that
    returns [k] neighbours for each node and one feature row of width [d]
    for each id, [GalaXCBase.query] returns a context of three nested levels:
    [node_count] is the number of input nodes and, at every level, the
    neighbour side describes [node_count * fan-out] nodes. *)
Theorem GalaXCBase_query_builds_three_hops
    num_labels hidden_dims device_names feature_dim (f0 f1 f2 : Z)
    (graph : Graph) embed_dim dropout num_clf_partitions padding_idx rand
    (m : GalaXCBase.t Graph Raw) (d : nat) (inputs : list Z) (s : S) :
  init num_labels hidden_dims device_names feature_dim [f0; f1; f2] graph embed_dim
    dropout num_clf_partitions padding_idx rand = Ok m →
  sampler_contract sample_neighbors graph →
  features_contract node_features squeeze0 graph d →
  0 ≤ f0 → 0 ≤ f1 → 0 ≤ f2 →
  ∃ ctx s',
    GalaXCBase_query sample_neighbors node_features m inputs s = Ok (ctx, s') ∧
    hop3_context squeeze0 ctx (length inputs)
      (Z.to_nat f0) (Z.to_nat f1) (Z.to_nat f2) d.
Proof.
  intros Hm Hsample Hfeat Hf0 Hf1 Hf2.
  apply GalaXCBase_init_Ok in Hm
    as (f0' & f1' & f2' & tr & [= <- <- <-] & Hg & He1 & He2 & He3 & _).
  unfold GalaXCBase_query.
  assert (GINEncoder.num_sample (GalaXCBase.first_layer_enc m) = f0) as ->
    by (by rewrite He1).
  assert (GINEncoder.num_sample (GalaXCBase.second_layer_enc m) = f1) as ->
    by (by rewrite He2).
  assert (GINEncoder.num_sample (GalaXCBase.third_layer_enc m) = f2) as ->
    by (by rewrite He3).
  rewrite Hg. cbv zeta.
  set (q1 := encoder_query sample_neighbors (query_feature node_features) f0).
  set (q2 := encoder_query sample_neighbors q1 f1).
  assert (∀ (s0 : S) (nodes : list Z), ∃ raw s',
            query_feature node_features nodes graph s0 = Ok (raw, s') ∧
            raw_features squeeze0 raw (length nodes) d) as Hq0.
  { intros s0 nodes. unfold query_feature.
    destruct (Hfeat nodes) as (raw & mx & -> & Hmx). rewrite bind_Ok_l.
    eexists _, _. split; [done|]. by exists mx. }
  assert (∀ (s0 : S) (nodes : list Z), ∃ c s',
            q1 nodes graph s0 = Ok (c, s') ∧
            hop1_context squeeze0 c (length nodes) (Z.to_nat f0) d) as Hq1.
  { intros s0 nodes.
    destruct (encoder_query_Ok (query_feature node_features)
                (λ raw n, raw_features squeeze0 raw n d)
                graph f0 Hsample Hf0 Hq0 s0 nodes) as (c & s' & ? & ? & ? & ?).
    exists c, s'. by split. }
  assert (∀ (s0 : S) (nodes : list Z), ∃ c s',
            q2 nodes graph s0 = Ok (c, s') ∧
            hop2_context squeeze0 c (length nodes) (Z.to_nat f0) (Z.to_nat f1) d)
    as Hq2.
  { intros s0 nodes.
    destruct (encoder_query_Ok q1
                (λ c n, hop1_context squeeze0 c n (Z.to_nat f0) d)
                graph f1 Hsample Hf1 Hq1 s0 nodes) as (c & s' & ? & ? & ? & ?).
    exists c, s'. by split. }
  destruct (encoder_query_Ok q2
              (λ c n, hop2_context squeeze0 c n (Z.to_nat f0) (Z.to_nat f1) d)
              graph f2 Hsample Hf2 Hq2 s inputs) as (ctx & s' & ? & ? & ? & ?).
  exists ctx, s'. by split.
Qed.

(** X9. On a context of three hops over [n >= 1] nodes (fan-outs of hops two
    and three at least one), each encoder of the constructed model returns an
    embedding on its own level of the context: the first on the innermost
    level, the second on the middle level, the third on the whole context.
    Each embedding has as many rows as the raw features have columns, [d],
    and one column per node: neither [embed_dim] nor [feature_dim] enters.
    [encode] is the concatenation of [transform1], [transform2] and
    [transform3] applied to the transposes of the first, second and third
    embedding, in this order. *)
Theorem GalaXCBase_encode_hop_embeddings
    num_labels hidden_dims device_names feature_dim fanouts
    (graph : Graph) embed_dim dropout num_clf_partitions padding_idx rand
    (m : GalaXCBase.t Graph Raw) (ctx : Context (Context (Context Raw)))
    (n k1 k2 k3 d : nat) (label_ids : LabelIds) :
  init num_labels hidden_dims device_names feature_dim fanouts graph embed_dim
    dropout num_clf_partitions padding_idx rand = Ok m →
  hop3_context squeeze0 ctx n k1 k2 k3 d →
  (1 ≤ n)%nat → (1 ≤ k2)%nat → (1 ≤ k3)%nat →
  ∃ embed1 embed2 embed3,
    GINEncoder.forward (GalaXCBase.first_layer_enc m) (node_feats (node_feats ctx))
      = Ok embed1 ∧
    GINEncoder.forward (GalaXCBase.second_layer_enc m) (node_feats ctx)
      = Ok embed2 ∧
    GINEncoder.forward (GalaXCBase.third_layer_enc m) ctx = Ok embed3 ∧
    Forall (λ e, wf_matrix e ∧ nrows e = d ∧ ncols e = n)
      [embed1; embed2; embed3] ∧
    Forall (λ e, wf_matrix e ∧ nrows e = n ∧ ncols e = d)
      [transpose embed1; transpose embed2; transpose embed3] ∧
    GalaXCBase.encode m (GalaXCBase.mkBatch ctx label_ids)
    = (t1 ← GalaXCBase.transform1 m (transpose embed1);
       t2 ← GalaXCBase.transform2 m (transpose embed2);
       t3 ← GalaXCBase.transform3 m (transpose embed3);
       cat1 [t1; t2; t3]).
Proof.
  intros Hm Hctx Hn Hk2 Hk3.
  apply GalaXCBase_init_wiring in Hm as (H1f & H1a & H2f & H2a & H3f & H3a).
  pose proof Hctx as (_ & Hctx2 & _). pose proof Hctx2 as (_ & Hctx1 & _).
  destruct (hop3_forward squeeze0 _ _ _ H1f H1a H2f H2a H3f H3a
              ctx n k1 k2 k3 d Hctx Hn Hk2 Hk3) as (y3 & Hy3 & Hy3r & Hy3c & Hy3w).
  destruct (hop2_forward squeeze0 _ _ H1f H1a H2f H2a
              (node_feats ctx) n k1 k2 d Hctx2 Hn Hk2)
    as (y2 & Hy2 & Hy2r & Hy2c & Hy2w).
  destruct (hop1_forward squeeze0 _ H1f H1a
              (node_feats (node_feats ctx)) n k1 d Hctx1 Hn)
    as (y1 & Hy1 & Hy1r & Hy1c & Hy1w).
  exists y1, y2, y3. split_and!; [done..| | |].
  - by repeat constructor.
  - repeat constructor; try apply transpose_shape;
      by rewrite (proj1 (transpose_shape _)) || rewrite (proj1 (proj2 (transpose_shape _))).
  - unfold GalaXCBase.encode. simpl. by rewrite Hy3, Hy2, Hy1, !bind_Ok_l.
Qed.

(** X10. When each transform maps a batch of the raw feature width [d] to a
    batch of width [hidden_dims], [encode] returns [3 * hidden_dims] columns,
    which is the width the classifier shards expect, and the dense [forward]
    returns one row per node and one column per label. *)
Theorem GalaXCBase_forward_dense_shape
    num_labels hidden_dims device_names feature_dim fanouts
    (graph : Graph) embed_dim dropout num_clf_partitions padding_idx rand
    (m : GalaXCBase.t Graph Raw) (ctx : Context (Context (Context Raw)))
    (n k1 k2 k3 d : nat) :
  init num_labels hidden_dims device_names feature_dim fanouts graph embed_dim
    dropout num_clf_partitions padding_idx rand = Ok m →
  hop3_context squeeze0 ctx n k1 k2 k3 d →
  (1 ≤ n)%nat → (1 ≤ k2)%nat → (1 ≤ k3)%nat →
  Forall (λ t, transform_contract t d (Z.to_nat hidden_dims))
    [GalaXCBase.transform1 m; GalaXCBase.transform2 m; GalaXCBase.transform3 m] →
  ∃ encoded y,
    GalaXCBase.encode m (GalaXCBase.mkBatch ctx NoLabels) = Ok encoded ∧
    nrows encoded = n ∧ ncols encoded = (3 * Z.to_nat hidden_dims)%nat ∧
    GalaXCBase.forward exp m (GalaXCBase.mkBatch ctx NoLabels) = Ok y ∧
    nrows y = n ∧ Z.of_nat (ncols y) = num_labels.
Proof.
  intros Hm Hctx Hn Hk2 Hk3 Htr.
  pose proof (GalaXCBase_init_wiring _ _ _ _ _ _ _ _ _ _ _ _ Hm)
    as (H1f & H1a & H2f & H2a & H3f & H3a).
  apply GalaXCBase_init_Ok in Hm as (_ & _ & _ & _ & _ & _ & _ & _ & _ & _ & _ & _ & _ & Hclf).
  pose proof Hctx as (_ & Hctx2 & _). pose proof Hctx2 as (_ & Hctx1 & _).
  destruct (hop3_forward squeeze0 _ _ _ H1f H1a H2f H2a H3f H3a
              ctx n k1 k2 k3 d Hctx Hn Hk2 Hk3) as (y3 & Hy3 & Hy3r & Hy3c & Hy3w).
  destruct (hop2_forward squeeze0 _ _ H1f H1a H2f H2a
              (node_feats ctx) n k1 k2 d Hctx2 Hn Hk2)
    as (y2 & Hy2 & Hy2r & Hy2c & Hy2w).
  destruct (hop1_forward squeeze0 _ H1f H1a
              (node_feats (node_feats ctx)) n k1 d Hctx1 Hn)
    as (y1 & Hy1 & Hy1r & Hy1c & Hy1w).
  apply Forall_cons in Htr as [Ht1 Htr]. apply Forall_cons in Htr as [Ht2 Htr].
  apply Forall_cons in Htr as [Ht3 _].
  destruct (transpose_shape y1) as (Hr1 & Hc1 & Hw1).
  destruct (transpose_shape y2) as (Hr2 & Hc2 & Hw2).
  destruct (transpose_shape y3) as (Hr3 & Hc3 & Hw3).
  destruct (transform_contract_shape _ _ _ (transpose y1) n Ht1)
    as (t1 & Hx1 & _ & Hx1r & Hx1c); [done|congruence..|].
  destruct (transform_contract_shape _ _ _ (transpose y2) n Ht2)
    as (t2 & Hx2 & _ & Hx2r & Hx2c); [done|congruence..|].
  destruct (transform_contract_shape _ _ _ (transpose y3) n Ht3)
    as (t3 & Hx3 & _ & Hx3r & Hx3c); [done|congruence..|].
  destruct (cat1_Ok [t1; t2; t3] n) as (encoded & Henc & Her & Hec & _);
    [done|by repeat constructor|].
  assert (GalaXCBase.encode m (GalaXCBase.mkBatch ctx NoLabels) = Ok encoded) as Hencode.
  { unfold GalaXCBase.encode. simpl.
    by rewrite Hy3, Hy2, Hy1, !bind_Ok_l, Hx1, bind_Ok_l, Hx2, bind_Ok_l, Hx3, bind_Ok_l. }
  assert (ncols encoded = (3 * Z.to_nat hidden_dims)%nat) as Hwidth.
  { rewrite Hec. simpl. lia. }
  destruct (LinearDistributed_forward_dense_shape exp _ _ _ _ _ encoded Hclf Hwidth)
    as (y & Hy & Hyr & Hyc).
  exists encoded, y. split_and!; try done.
  - unfold GalaXCBase.forward. by rewrite Hencode, bind_Ok_l.
  - congruence.
Qed.

(** X11. On a context of three hops whose batch is empty, or whose fan-out
    at hop two or three is zero, [encode] and [forward] raise
    [ZeroDivisionError]: the innermost neighbour context has no nodes and the
    aggregator divides by its [node_count]. *)
Theorem GalaXCBase_encode_no_nodes_zero_division
    num_labels hidden_dims device_names feature_dim fanouts
    (graph : Graph) embed_dim dropout num_clf_partitions padding_idx rand
    (m : GalaXCBase.t Graph Raw) (ctx : Context (Context (Context Raw)))
    (n k1 k2 k3 d : nat) (label_ids : LabelIds) :
  init num_labels hidden_dims device_names feature_dim fanouts graph embed_dim
    dropout num_clf_partitions padding_idx rand = Ok m →
  hop3_context squeeze0 ctx n k1 k2 k3 d →
  (n * k2 * k3 = 0)%nat →
  GalaXCBase.encode m (GalaXCBase.mkBatch ctx label_ids) = Err ZeroDivisionError ∧
  GalaXCBase.forward exp m (GalaXCBase.mkBatch ctx label_ids)
    = Err ZeroDivisionError.
Proof.
  intros Hm Hctx Hz.
  apply GalaXCBase_init_wiring in Hm as (H1f & H1a & H2f & H2a & H3f & H3a).
  assert (GalaXCBase.encode m (GalaXCBase.mkBatch ctx label_ids)
          = Err ZeroDivisionError) as Hencode.
  { unfold GalaXCBase.encode. simpl.
    rewrite (hop3_forward_no_nodes squeeze0 _ _ _ H1a H2a H3a ctx n k1 k2 k3 d Hctx);
      [done|nia]. }
  split; [done|]. unfold GalaXCBase.forward. by rewrite Hencode.
Qed.
End pipeline.

(** ** The small graph *)

Lemma sample_sampler_contract :
  sampler_contract sample_sample_neighbors ().
Proof.
  intros s nodes k Hk. eexists _, _. split; [reflexivity|].
  rewrite (join_length_same _ (Z.to_nat k)); [by rewrite length_map|].
  apply Forall_fmap, Forall_forall. intros n _. simpl. by rewrite length_replicate.
Qed.

Lemma sample_features_contract :
  features_contract sample_node_features sample_features () 2.
Proof.
  intros nodes. eexists _, _. split; [reflexivity|]. split; [reflexivity|].
  split_and!.
  - unfold wf_matrix. simpl. by apply Forall_fmap, Forall_true.
  - unfold nrows. simpl. by rewrite length_map.
  - done.
Qed.

Local Ltac raw_features_tac :=
  eexists; split; [reflexivity|]; split; [repeat constructor|split; reflexivity].
Local Ltac hop1_tac := split; [reflexivity|split; raw_features_tac].
Local Ltac hop2_tac := split; [reflexivity|split; hop1_tac].

Lemma sample_hops_shape : hop3_context sample_features sample_hops 2 2 2 2 2.
Proof. split; [reflexivity|split; hop2_tac]. Qed.

Lemma sample_no_hops_shape : hop3_context sample_features sample_no_hops 0 2 2 2 2.
Proof. split; [reflexivity|split; hop2_tac]. Qed.

Lemma GalaXCBase_query_builds_three_hops_witness :
  ∃ m,
    GalaXCBase.init sample_features (λ name, Ok name) sample_Sequential
      4 1 ["cpu"; "cpu"] 2 [2; 2; 2] () 2 (1 # 2) 1 0 sample_rand = Ok m ∧
    ∃ ctx s',
      GalaXCBase_query sample_sample_neighbors sample_node_features m [10; 20] 0%nat
        = Ok (ctx, s') ∧
      hop3_context sample_features ctx (length [10; 20])
        (Z.to_nat 2) (Z.to_nat 2) (Z.to_nat 2) 2.
Proof.
  eexists. split; [reflexivity|].
  apply (GalaXCBase_query_builds_three_hops sample_features (λ name, Ok name)
           sample_Sequential sample_sample_neighbors sample_node_features
           4 1 ["cpu"; "cpu"] 2 2 2 2 () 2 (1 # 2) 1 0 sample_rand _ 2 [10; 20] 0%nat).
  - reflexivity.
  - apply sample_sampler_contract.
  - apply sample_features_contract.
  - lia.
  - lia.
  - lia.
Defined.

Lemma GalaXCBase_encode_hop_embeddings_witness :
  ∃ m,
    GalaXCBase.init sample_features (λ name, Ok name) sample_Sequential
      4 1 ["cpu"; "cpu"] 2 [2; 2; 2] () 2 (1 # 2) 1 0 sample_rand = Ok m ∧
    ∃ embed1 embed2 embed3,
      GINEncoder.forward (GalaXCBase.first_layer_enc m)
        (node_feats (node_feats sample_hops)) = Ok embed1 ∧
      GINEncoder.forward (GalaXCBase.second_layer_enc m) (node_feats sample_hops)
        = Ok embed2 ∧
      GINEncoder.forward (GalaXCBase.third_layer_enc m) sample_hops = Ok embed3 ∧
      Forall (λ e, wf_matrix e ∧ nrows e = 2%nat ∧ ncols e = 2%nat)
        [embed1; embed2; embed3] ∧
      Forall (λ e, wf_matrix e ∧ nrows e = 2%nat ∧ ncols e = 2%nat)
        [transpose embed1; transpose embed2; transpose embed3] ∧
      GalaXCBase.encode m (GalaXCBase.mkBatch sample_hops NoLabels)
      = (t1 ← GalaXCBase.transform1 m (transpose embed1);
         t2 ← GalaXCBase.transform2 m (transpose embed2);
         t3 ← GalaXCBase.transform3 m (transpose embed3);
         cat1 [t1; t2; t3]).
Proof.
  eexists. split; [reflexivity|].
  apply (GalaXCBase_encode_hop_embeddings sample_features (λ name, Ok name)
           sample_Sequential 4 1 ["cpu"; "cpu"] 2 [2; 2; 2] () 2 (1 # 2) 1 0
           sample_rand _ sample_hops 2 2 2 2 2 NoLabels).
  - reflexivity.
  - apply sample_hops_shape.
  - lia.
  - lia.
  - lia.
Defined.

Lemma GalaXCBase_forward_dense_shape_witness :
  ∃ m,
    GalaXCBase.init sample_features (λ name, Ok name) sample_Sequential
      4 1 ["cpu"; "cpu"] 2 [2; 2; 2] () 2 (1 # 2) 1 0 sample_rand = Ok m ∧
    ∃ encoded y,
      GalaXCBase.encode m (GalaXCBase.mkBatch sample_hops NoLabels) = Ok encoded ∧
      nrows encoded = 2%nat ∧ ncols encoded = (3 * Z.to_nat 1)%nat ∧
      GalaXCBase.forward sample_exp m (GalaXCBase.mkBatch sample_hops NoLabels) = Ok y ∧
      nrows y = 2%nat ∧ Z.of_nat (ncols y) = 4.
Proof.
  eexists. split; [reflexivity|].
  apply (GalaXCBase_forward_dense_shape sample_features (λ name, Ok name)
           sample_Sequential sample_exp 4 1 ["cpu"; "cpu"] 2 [2; 2; 2] () 2 (1 # 2) 1 0
           sample_rand _ sample_hops 2 2 2 2 2).
  - reflexivity.
  - apply sample_hops_shape.
  - lia.
  - lia.
  - lia.
  - assert (transform_contract
              (λ x, Ok (tabulate (nrows x) (Z.to_nat 1) (λ i j, entry x i 0)))
              2 (Z.to_nat 1)) as Htr.
    { intros x Hw Hc. eexists. split; [reflexivity|].
      split_and!; [apply tabulate_wf|apply tabulate_nrows|done]. }
    constructor; [exact Htr|]. constructor; [exact Htr|].
    constructor; [exact Htr|]. constructor.
Defined.

Lemma GalaXCBase_encode_no_nodes_zero_division_witness :
  ∃ m,
    GalaXCBase.init sample_features (λ name, Ok name) sample_Sequential
      4 1 ["cpu"; "cpu"] 2 [2; 2; 2] () 2 (1 # 2) 1 0 sample_rand = Ok m ∧
    GalaXCBase.encode m (GalaXCBase.mkBatch sample_no_hops NoLabels)
      = Err ZeroDivisionError ∧
    GalaXCBase.forward sample_exp m (GalaXCBase.mkBatch sample_no_hops NoLabels)
      = Err ZeroDivisionError.
Proof.
  eexists. split; [reflexivity|].
  apply (GalaXCBase_encode_no_nodes_zero_division sample_features (λ name, Ok name)
           sample_Sequential sample_exp 4 1 ["cpu"; "cpu"] 2 [2; 2; 2] () 2 (1 # 2) 1 0
           sample_rand _ sample_no_hops 0 2 2 2 2 NoLabels).
  - reflexivity.
  - apply sample_no_hops_shape.
  - lia.
Defined.

(** ** The residual transform *)

Lemma sumQ_snoc (l : list Q) (a : Q) : (sumQ (l ++ [a]) == sumQ l + a)%Q.
Proof.
  induction l as [|b l IH]; simpl; [ring|]. rewrite IH. ring.
Qed.

Lemma sumQ_delta (f : nat → Q) (j n : nat) :
  (sumQ (map (λ k, f k * (if decide (j = k) then 1 else 0)) (seq 0 n))
   == if decide (j < n)%nat then f j else 0)%Q.
Proof.
  induction n as [|n IH]; [done|].
  rewrite seq_S, map_app. simpl. rewrite sumQ_snoc, IH.
  repeat case_decide; try lia; subst; ring.
Qed.

Lemma linear_eye_entry (x : Matrix) (out : nat) (h : Matrix) (i j : nat) :
  linear (eye_ out (ncols x)) (replicate out 0%Q) x = Ok h →
  (i < nrows x)%nat → (j < out)%nat →
  nrows h = nrows x ∧ ncols h = out ∧
  (entry h i j == if decide (j < ncols x)%nat then entry x i j else 0)%Q.
Proof.
  unfold linear. intros Hh Hi Hj. apply bind_Ok in Hh as (y & Hy & Hh).
  destruct (transpose_shape (eye_ out (ncols x))) as (Htr & Htc & _).
  unfold eye_ in Htr, Htc. rewrite tabulate_nrows in Htc. simpl in Htr.
  destruct (mm_shape x (transpose (eye_ out (ncols x))))
    as (y' & Hy' & Hyr & Hyc & _); [done|].
  assert (y' = y) as -> by congruence.
  unfold eye_ in Hyc. rewrite Htc in Hyc.
  destruct (broadcast2_row_vector Qplus y (replicate out 0%Q))
    as (h' & Hh' & Hhr & Hhc & _); [by rewrite length_replicate|].
  assert (h' = h) as -> by congruence.
  split; [congruence|]. split; [congruence|].
  rewrite (entry_broadcast2_row_vector _ _ _ _ _ _ Hh)
    by (rewrite ?length_replicate; lia).
  rewrite (entry_mm _ _ _ _ _ Hy) by (done || (unfold eye_; lia)).
  rewrite (nth_lookup_Some _ _ _ 0%Q) by (by apply lookup_replicate_2).
  rewrite (sumQ_ext _ (λ k, entry x i k * (if decide (j = k) then 1 else 0))%Q).
  - rewrite sumQ_delta. ring.
  - intros k Hk. f_equal. rewrite entry_transpose.
    + unfold eye_. by rewrite tabulate_entry.
    + done.
    + unfold eye_. by rewrite tabulate_nrows.
Qed.

Lemma pad_right_entries (x : Matrix) (p : Z) (out : nat) :
  wf_matrix x → Z.of_nat out = Z.of_nat (ncols x) + p →
  ∃ t, pad_right x p = Ok t ∧ nrows t = nrows x ∧ ncols t = out ∧
       ∀ i j, (i < nrows x)%nat → (j < out)%nat →
         entry t i j = if decide (j < ncols x)%nat then entry x i j else 0%Q.
Proof.
  intros Hwf Hout. unfold pad_right.
  destruct (decide (0 ≤ p)) as [Hp|Hp].
  - eexists. split; [done|]. unfold nrows. simpl. rewrite length_map.
    split_and!; [done|lia|]. intros i j Hi Hj.
    destruct (lookup_lt_is_Some_2 (rows x) i Hi) as [r Hr].
    assert (length r = ncols x) as Hlen
      by (by eapply (Forall_lookup_1 _ _ _ _ Hwf)).
    unfold entry, row. simpl.
    rewrite (nth_lookup_Some _ _ _ (r ++ replicate (Z.to_nat p) 0%Q))
      by (by rewrite list_lookup_fmap, Hr).
    rewrite (nth_lookup_Some _ _ _ _ Hr). rewrite !nth_lookup. case_decide.
    + by rewrite lookup_app_l by lia.
    + rewrite lookup_app_r by lia. by rewrite lookup_replicate_2 by lia.
  - rewrite decide_True by lia. eexists. split; [done|].
    unfold narrow, nrows. simpl. rewrite length_map.
    split_and!; [done|lia|]. intros i j Hi Hj.
    destruct (lookup_lt_is_Some_2 (rows x) i Hi) as [r Hr].
    unfold entry, row. simpl.
    rewrite (nth_lookup_Some _ _ _
               (take (Z.to_nat (Z.of_nat (ncols x) + p) - 0) r))
      by (by rewrite list_lookup_fmap, Hr).
    rewrite (nth_lookup_Some _ _ _ _ Hr). rewrite decide_True by lia.
    rewrite !nth_lookup. by rewrite lookup_take_lt by lia.
Qed.

Section residual.
Variable BatchNorm1d : Z → result (Matrix → result Matrix).
Variable Dropout : Q → result (Matrix → result Matrix).

Local Abbreviation Residual_init := (Residual.__init__ BatchNorm1d Dropout).

Lemma Residual_init_Ok input_size output_size dropout init xavier res :
  Residual_init input_size output_size dropout init xavier = Ok res →
  0 ≤ input_size ∧ 0 ≤ output_size ∧
  Residual.padding_size res = output_size - input_size ∧
  nrows (Residual.weight res) = Z.to_nat output_size ∧
  ncols (Residual.weight res) = Z.to_nat input_size ∧
  Residual.bias res = replicate (Z.to_nat output_size) 0%Q ∧
  (init ≠ "random" →
   Residual.weight res = eye_ (Z.to_nat output_size) (Z.to_nat input_size)) ∧
  BatchNorm1d output_size = Ok (Residual.batch_norm res) ∧
  Dropout dropout = Ok (Residual.drop res).
Proof.
  unfold Residual.__init__. case_decide as Hneg; [done|].
  intros (bn & Hbn & H)%bind_Ok. apply bind_Ok in H as (dr & Hdr & H).
  apply bind_Ok in H as (wb & Hwb & [= <-]). simpl.
  unfold Residual.initialize in Hwb.
  split_and!; try done; try lia.
  - repeat case_decide; try done; injection Hwb as <-; simpl;
      unfold eye_; by rewrite tabulate_nrows.
  - repeat case_decide; try done; by injection Hwb as <-.
  - repeat case_decide; try done; by injection Hwb as <-.
  - intros Hinit. rewrite decide_False in Hwb by done. by injection Hwb as <-.
Qed.

Lemma Residual_forward_wrong_width input_size output_size dropout init xavier res
    (embed : Matrix) :
  Residual_init input_size output_size dropout init xavier = Ok res →
  ncols embed ≠ Z.to_nat input_size →
  Residual.forward res embed = Err ShapeError.
Proof.
  intros (_ & _ & _ & _ & Hwc & _)%Residual_init_Ok Hwidth.
  unfold Residual.forward.
  assert (linear (Residual.weight res) (Residual.bias res) embed = Err ShapeError)
    as Hlin.
  { unfold linear, mm. rewrite decide_False; [done|].
    destruct (transpose_shape (Residual.weight res)) as (-> & _). congruence. }
  unfold pad_right. repeat case_decide; rewrite ?bind_Ok_l, ?Hlin; done.
Qed.

(** X12. A [Residual] layer initialised with [eye_] (every [init] other
    than ['random']) starts with a projection that equals its skip path: on
    an input of width [input_size], [hidden_layer[0]] returns the input
    padded with zeros up to [output_size] columns, or cut to its first
    [output_size] columns when [output_size < input_size], which is what
    [F.pad] computes for [temp]. *)
Theorem Residual_eye_projection_is_the_skip_path
    input_size output_size dropout init xavier res (embed : Matrix) :
  Residual_init input_size output_size dropout init xavier = Ok res →
  init ≠ "random" → wf_matrix embed → ncols embed = Z.to_nat input_size →
  ∃ h temp,
    linear (Residual.weight res) (Residual.bias res) embed = Ok h ∧
    pad_right embed (Residual.padding_size res) = Ok temp ∧
    nrows h = nrows embed ∧ ncols h = Z.to_nat output_size ∧
    nrows temp = nrows embed ∧ ncols temp = Z.to_nat output_size ∧
    (∀ i j, (i < nrows embed)%nat → (j < Z.to_nat output_size)%nat →
       (entry h i j == entry temp i j)%Q ∧
       entry temp i j
       = if decide (j < Z.to_nat input_size)%nat then entry embed i j else 0%Q) ∧
    Residual.forward res embed
    = (b ← Residual.batch_norm res h;
       a ← Residual.drop res (map_matrix relu b);
       broadcast2 Qplus a temp).
Proof.
  intros Hres Hinit Hwf Hwidth.
  apply Residual_init_Ok in Hres
    as (Hin & Hout & Hpad & Hwr & Hwc & Hbias & Heye & _ & _).
  specialize (Heye Hinit).
  destruct (pad_right_entries embed (Residual.padding_size res)
              (Z.to_nat output_size) Hwf) as (temp & Htemp & Htr & Htc & Hte);
    [lia|].
  destruct (transpose_shape (Residual.weight res)) as (Htrr & Htrc & _).
  destruct (mm_shape embed (transpose (Residual.weight res)))
    as (y & Hy & Hyr & Hyc & _); [congruence|].
  destruct (broadcast2_row_vector Qplus y (Residual.bias res))
    as (h & Hh & Hhr & Hhc & _).
  { rewrite Hbias, length_replicate. congruence. }
  assert (linear (Residual.weight res) (Residual.bias res) embed = Ok h) as Hlin.
  { unfold linear. by rewrite Hy, bind_Ok_l. }
  exists h, temp. split_and!; try done; try congruence.
  - intros i j Hi Hj. rewrite (Hte i j Hi Hj), <- Hwidth. split; [|done].
    rewrite Heye, Hbias, <- Hwidth in Hlin.
    by destruct (linear_eye_entry embed (Z.to_nat output_size) h i j Hlin Hi Hj)
      as (_ & _ & ?).
  - unfold Residual.forward. by rewrite Htemp, bind_Ok_l, Hlin, bind_Ok_l.
Qed.

(** X13. [Residual.forward] accepts exactly the inputs of width
    [input_size]: any other width raises a shape error, and on a batch of
    that width, with a batch normalisation and a dropout that keep the
    shape of their input, it returns one row per input row and
    [output_size] columns, also when [output_size < input_size]. *)
Theorem Residual_forward_shape
    input_size output_size dropout init xavier res (embed : Matrix) :
  Residual_init input_size output_size dropout init xavier = Ok res →
  keeps_shape (Residual.batch_norm res) → keeps_shape (Residual.drop res) →
  wf_matrix embed →
  (ncols embed ≠ Z.to_nat input_size →
     Residual.forward res embed = Err ShapeError) ∧
  (ncols embed = Z.to_nat input_size →
     ∃ y, Residual.forward res embed = Ok y ∧
          nrows y = nrows embed ∧ ncols y = Z.to_nat output_size).
Proof.
  intros Hres Hbn Hdrop Hwf. split; intros Hwidth.
  { by eapply Residual_forward_wrong_width. }
  apply Residual_init_Ok in Hres
    as (Hin & Hout & Hpad & Hwr & Hwc & Hbias & _ & _ & _).
  destruct (pad_right_entries embed (Residual.padding_size res)
              (Z.to_nat output_size) Hwf) as (temp & Htemp & Htr & Htc & _);
    [lia|].
  destruct (transpose_shape (Residual.weight res)) as (Htrr & Htrc & _).
  destruct (mm_shape embed (transpose (Residual.weight res)))
    as (y & Hy & Hyr & Hyc & _); [congruence|].
  destruct (broadcast2_row_vector Qplus y (Residual.bias res))
    as (h & Hh & Hhr & Hhc & Hhw).
  { rewrite Hbias, length_replicate. congruence. }
  destruct (Hbn h Hhw) as (b & Hb & Hbw & Hbr & Hbc).
  destruct (map_matrix_shape relu b) as (Hmr & Hmc & Hmw).
  destruct (Hdrop (map_matrix relu b) (Hmw Hbw)) as (a & Ha & Haw & Har & Hac).
  destruct (broadcast2_same_shape Qplus a temp) as (z & Hz & Hzr & Hzc & _);
    [congruence..|].
  exists z. split_and!; [|congruence..].
  unfold Residual.forward, linear.
  by rewrite Htemp, bind_Ok_l, Hy, bind_Ok_l, Hh, bind_Ok_l, Hb, bind_Ok_l,
    Ha, bind_Ok_l.
Qed.
End residual.

(** ** The transforms the orchestrator builds *)

Section residual_pipeline.
Context {Graph Raw : Type}.
Variable squeeze0 : Raw → result Matrix.
Variable torch_device : string → result Device.
Variable BatchNorm1d : Z → result (Matrix → result Matrix).
Variable Dropout : Q → result (Matrix → result Matrix).
Variable exp : Q → Q.

(** X14. With the transforms of [_construct_transform] (ReLU, dropout,
    [Residual(embed_dim, hidden_dims)]), [encode] and [forward] raise a
    shape error on every context whose raw features do not have [embed_dim]
    columns: the GIN hops hand the feature width on unchanged, and the
    projection of the residual layer expects [embed_dim]. *)
Theorem GalaXCBase_encode_needs_features_of_width_embed_dim
    num_labels hidden_dims device_names feature_dim fanouts
    (graph : Graph) embed_dim dropout num_clf_partitions padding_idx rand
    (m : GalaXCBase.t Graph Raw) (ctx : Context (Context (Context Raw)))
    (n k1 k2 k3 d : nat) (label_ids : LabelIds) :
  GalaXCBase.init squeeze0 torch_device (Residual.transform BatchNorm1d Dropout)
    num_labels hidden_dims device_names feature_dim fanouts graph embed_dim
    dropout num_clf_partitions padding_idx rand = Ok m →
  hop3_context squeeze0 ctx n k1 k2 k3 d →
  (1 ≤ n)%nat → (1 ≤ k2)%nat → (1 ≤ k3)%nat →
  (∀ drop, Dropout dropout = Ok drop → keeps_shape drop) →
  d ≠ Z.to_nat embed_dim →
  GalaXCBase.encode m (GalaXCBase.mkBatch ctx label_ids) = Err ShapeError ∧
  GalaXCBase.forward exp m (GalaXCBase.mkBatch ctx label_ids) = Err ShapeError.
Proof.
  intros Hm Hctx Hn Hk2 Hk3 Hdrop Hd.
  pose proof (GalaXCBase_init_wiring _ _ _ _ _ _ _ _ _ _ _ _ _ _ _ Hm)
    as (H1f & H1a & H2f & H2a & H3f & H3a).
  apply GalaXCBase_init_Ok in Hm
    as (_ & _ & _ & tr & _ & _ & _ & _ & _ & Htr & Ht1 & _).
  unfold Residual.transform in Htr.
  apply bind_Ok in Htr as (dr & Hdr & Htr).
  apply bind_Ok in Htr as (res & Hres & [= <-]).
  pose proof Hctx as (_ & Hctx2 & _). pose proof Hctx2 as (_ & Hctx1 & _).
  destruct (hop3_forward squeeze0 _ _ _ H1f H1a H2f H2a H3f H3a
              ctx n k1 k2 k3 d Hctx Hn Hk2 Hk3) as (y3 & Hy3 & _).
  destruct (hop2_forward squeeze0 _ _ H1f H1a H2f H2a
              (node_feats ctx) n k1 k2 d Hctx2 Hn Hk2) as (y2 & Hy2 & _).
  destruct (hop1_forward squeeze0 _ H1f H1a
              (node_feats (node_feats ctx)) n k1 d Hctx1 Hn)
    as (y1 & Hy1 & Hy1r & Hy1c & Hy1w).
  destruct (transpose_shape y1) as (Htr1 & Htc1 & Htw1).
  destruct (map_matrix_shape relu (transpose y1)) as (Hmr & Hmc & Hmw).
  destruct (Hdrop dr Hdr (map_matrix relu (transpose y1)) (Hmw Htw1))
    as (a & Ha & _ & _ & Hac).
  assert (GalaXCBase.encode m (GalaXCBase.mkBatch ctx label_ids) = Err ShapeError)
    as Hencode.
  { unfold GalaXCBase.encode. simpl.
    rewrite Hy3, Hy2, Hy1, !bind_Ok_l, Ht1, Ha, bind_Ok_l.
    rewrite (Residual_forward_wrong_width _ _ _ _ _ _ _ _ a Hres); [done|].
    congruence. }
  split; [done|]. unfold GalaXCBase.forward. by rewrite Hencode.
Qed.
End residual_pipeline.

Lemma GalaXCBase_encode_needs_features_of_width_embed_dim_witness :
  ∃ m,
    GalaXCBase.init sample_features (λ name, Ok name)
      (Residual.transform sample_layer sample_layer)
      4 1 ["cpu"; "cpu"] 2 [2; 2; 2] () 3 (1 # 2) 1 0 sample_rand = Ok m ∧
    GalaXCBase.encode m (GalaXCBase.mkBatch sample_hops NoLabels) = Err ShapeError ∧
    GalaXCBase.forward sample_exp m (GalaXCBase.mkBatch sample_hops NoLabels)
      = Err ShapeError.
Proof.
  eexists. split; [reflexivity|].
  apply (GalaXCBase_encode_needs_features_of_width_embed_dim sample_features
           (λ name, Ok name) sample_layer sample_layer sample_exp
           4 1 ["cpu"; "cpu"] 2 [2; 2; 2] () 3 (1 # 2) 1 0
           sample_rand _ sample_hops 2 2 2 2 2 NoLabels).
  - reflexivity.
  - apply sample_hops_shape.
  - lia.
  - lia.
  - lia.
  - intros drop [= <-] x Hw. by exists x.
  - simpl. lia.
Defined.

Lemma Residual_eye_projection_is_the_skip_path_witness :
  ∃ res,
    Residual.__init__ sample_layer sample_layer 3 2 (1 # 2) "eye" (λ _ _, 0%Q)
      = Ok res ∧
    ∃ h temp,
      linear (Residual.weight res) (Residual.bias res) sample_embed = Ok h ∧
      pad_right sample_embed (Residual.padding_size res) = Ok temp ∧
      nrows h = nrows sample_embed ∧ ncols h = Z.to_nat 2 ∧
      nrows temp = nrows sample_embed ∧ ncols temp = Z.to_nat 2 ∧
      (∀ i j, (i < nrows sample_embed)%nat → (j < Z.to_nat 2)%nat →
         (entry h i j == entry temp i j)%Q ∧
         entry temp i j
         = if decide (j < Z.to_nat 3)%nat then entry sample_embed i j else 0%Q) ∧
      Residual.forward res sample_embed
      = (b ← Residual.batch_norm res h;
         a ← Residual.drop res (map_matrix relu b);
         broadcast2 Qplus a temp).
Proof.
  eexists. split; [reflexivity|].
  apply (Residual_eye_projection_is_the_skip_path sample_layer sample_layer
           3 2 (1 # 2) "eye" (λ _ _, 0%Q) _ sample_embed).
  - reflexivity.
  - done.
  - repeat constructor.
  - reflexivity.
Defined.

Lemma Residual_forward_shape_witness :
  ∃ res,
    Residual.__init__ sample_layer sample_layer 3 2 (1 # 2) "eye" (λ _ _, 0%Q)
      = Ok res ∧
    (ncols sample_embed ≠ Z.to_nat 3 →
       Residual.forward res sample_embed = Err ShapeError) ∧
    (ncols sample_embed = Z.to_nat 3 →
       ∃ y, Residual.forward res sample_embed = Ok y ∧
            nrows y = nrows sample_embed ∧ ncols y = Z.to_nat 2).
Proof.
  eexists. split; [reflexivity|].
  apply (Residual_forward_shape sample_layer sample_layer
           3 2 (1 # 2) "eye" (λ _ _, 0%Q) _ sample_embed).
  - reflexivity.
  - intros x Hw. by exists x.
  - intros x Hw. by exists x.
  - repeat constructor.
Defined.

(** ** One candidate for each row *)

(** The rank-two branch before the bias is added: the scores [x0] of the
    candidates and the selected biases [sb]. *)
Lemma LinearChunk_forward_2d_scores exp (c : LinearChunk.t) (embed : Matrix)
    (o d : nat) (ids : IdMatrix) :
  shard_shape c o d → (0 < d)%nat → ncols embed = (3 * d)%nat →
  wf_ids ids → length (id_rows ids) = nrows embed →
  (1 ≤ nrows embed)%nat → (1 ≤ id_ncols ids)%nat →
  Forall (Forall (valid_embedding_id o)) (id_rows ids) →
  ∃ x0 sb,
    LinearChunk.forward exp c (embed, Labels2D ids)
    = broadcast2 Qplus x0 (squeeze_all {| ncols := id_ncols ids; rows := sb |}) ∧
    nrows x0 = nrows embed ∧ ncols x0 = id_ncols ids ∧
    length sb = nrows embed ∧
    ∀ i p ir id zp,
      id_rows ids !! i = Some ir → ir !! p = Some id →
      LinearChunk.project exp embed (rows (LinearChunk.weight c))
        (rows (LinearChunk.attention_weights c)) = Ok zp →
      entry x0 i p = entry zp i (Z.to_nat id) ∧
      entry {| ncols := id_ncols ids; rows := sb |} i p
      = nth (Z.to_nat id) (LinearChunk.bias c) 0%Q.
Proof.
  intros Hshape Hd He Hwf HB HB1 HK1 Hvalid.
  pose proof Hshape as (Hw & Hwr & Hwc & Ha & Har & Hac & Hb).
  set (B := length (id_rows ids)) in *. set (K := id_ncols ids) in *.
  unfold LinearChunk.forward. simpl. fold B K.
  destruct (embedding_Ok (rows (LinearChunk.weight c)) (id_rows ids))
    as (sw & Hsw & Hsw2); [by rewrite <- Hwr in Hvalid|].
  destruct (embedding_Ok (LinearChunk.bias c) (id_rows ids))
    as (sb & Hsb & Hsb2); [by rewrite Hb|].
  destruct (embedding_Ok (rows (LinearChunk.attention_weights c)) (id_rows ids))
    as (sa & Hsa & Hsa2); [by rewrite <- Har in Hvalid|].
  destruct (embedding_join (λ r, length r = d) _ _ _ K
              ltac:(by rewrite <- Hwc) Hwf Hsw2) as (Hswl & Hswd & Hswn & HswK).
  destruct (embedding_join (λ r, length r = 3%nat) _ _ _ K
              ltac:(by rewrite <- Hac) Hwf Hsa2) as (Hsal & Hsad & Hsan & HsaK).
  destruct (embedding_join (λ _, True) (LinearChunk.bias c) _ _ K
              ltac:(by apply Forall_true) Hwf Hsb2) as (_ & _ & Hsbl & HsbK).
  fold B in Hswl, Hsal, Hsbl, Hswn, Hsan.
  assert (mjoin sw ≠ []) as Hswne.
  { intros Heq. rewrite Heq in Hswl. simpl in Hswl. nia. }
  assert (mjoin sa ≠ []) as Hsane.
  { intros Heq. rewrite Heq in Hsal. simpl in Hsal. nia. }
  assert (view_cols (B * K) (mjoin (mjoin sw)) = Ok {| ncols := d; rows := mjoin sw |})
    as Hvw by (rewrite <- Hswl; by apply view_cols_join).
  assert (view_cols (B * K) (mjoin (mjoin sa)) = Ok {| ncols := 3; rows := mjoin sa |})
    as Hva by (rewrite <- Hsal; by apply view_cols_join).
  rewrite Hsw, bind_Ok_l, Hvw, bind_Ok_l, Hsb, bind_Ok_l, Hsa, bind_Ok_l, Hva, bind_Ok_l.
  simpl.
  rewrite decide_True; last first.
  { rewrite (attention_mix_length _ _ d); [rewrite Hswl, He; lia|done| |].
    - apply Forall_fmap. eapply Forall_impl; [done|].
      intros r Hr. simpl. by rewrite softmax_row_length.
    - rewrite length_map. lia. }
  rewrite <- HB. fold B. rewrite broadcast_dim_same, bind_Ok_l.
  eexists _, sb. split; [done|]. rewrite tabulate_nrows.
  split_and!; [done..|].
  intros i p ir id zp Hi Hp Hzp.
  assert (i < B)%nat as HiB by (by apply lookup_lt_Some in Hi).
  assert (length ir = K) as HirK by (by eapply (Forall_lookup_1 _ _ _ _ Hwf)).
  assert (p < K)%nat as HpK by (rewrite <- HirK; by apply lookup_lt_Some in Hp).
  rewrite tabulate_entry by done. rewrite !bidx_lt by done.
  destruct (embedding_lookup _ _ _ _ _ _ _ Hsw Hi Hp) as (Hv & rw & Hrw & Hrwp).
  destruct (embedding_lookup _ _ _ _ _ _ _ Hsa Hi Hp) as (_ & ra & Hra & Hrap).
  destruct (embedding_lookup _ _ _ _ _ _ _ Hsb Hi Hp) as (_ & rb & Hrb & Hrbp).
  fold (nrows (LinearChunk.weight c)) in Hv. rewrite Hwr in Hv.
  unfold valid_embedding_id in Hv.
  set (k := Z.to_nat id) in *.
  assert (k < o)%nat as Hk by lia.
  destruct (lookup_lt_is_Some_2 (rows (LinearChunk.weight c)) k) as [wl Hwl];
    [by fold (nrows (LinearChunk.weight c)); rewrite Hwr|].
  destruct (lookup_lt_is_Some_2 (rows (LinearChunk.attention_weights c)) k) as [al Hal];
    [by fold (nrows (LinearChunk.attention_weights c)); rewrite Har|].
  destruct (lookup_lt_is_Some_2 (LinearChunk.bias c) k) as [bk Hbk]; [by rewrite Hb|].
  rewrite Hwl in Hrwp. rewrite Hal in Hrap. rewrite Hbk in Hrbp.
  assert (mjoin sw !! (i * K + p)%nat = Some wl) as Hjw.
  { apply (join_lookup_Some_same_length' K); [done|done|]. eauto. }
  assert (mjoin sa !! (i * K + p)%nat = Some al) as Hja.
  { apply (join_lookup_Some_same_length' K); [done|done|]. eauto. }
  assert (Forall (λ r, length r = d) (rows (LinearChunk.weight c))) as Hwd
    by (by rewrite <- Hwc).
  assert (Forall (λ r, length r = 3%nat) (rows (LinearChunk.attention_weights c))) as Ha3
    by (by rewrite <- Hac).
  rewrite (project_entry exp embed (rows (LinearChunk.weight c))
             (rows (LinearChunk.attention_weights c)) d zp i k wl al) by (done || lia).
  split.
  - apply sumQ_ext. intros j Hj. f_equal.
    rewrite attention_mix_blocks.
    set (blocks := zip_with (label_block exp) (mjoin sw) (mjoin sa)).
    assert (Forall (λ l, length l = ncols embed) blocks) as Hblocks.
    { apply Forall_forall.
      intros l (n & wl' & al' & -> & Hn1 & Hn2)%elem_of_lookup_zip_with.
      rewrite label_block_length, He.
      - by rewrite (Forall_lookup_1 _ _ _ _ Hswd Hn1).
      - by apply (Forall_lookup_1 _ _ _ _ Hsad Hn2). }
    assert (blocks !! (i * K + p)%nat = Some (label_block exp wl al)) as Hblock.
    { unfold blocks. rewrite lookup_zip_with, Hjw, Hja. done. }
    assert (j < length (label_block exp wl al))%nat as Hjl.
    { by rewrite (Forall_lookup_1 _ _ _ _ Hblocks Hblock). }
    destruct (lookup_lt_is_Some_2 _ _ Hjl) as [v Hv'].
    rewrite (nth_lookup_Some _ _ _ _ Hv'). apply nth_lookup_Some.
    apply (join_lookup_Some_same_length' (ncols embed)); [done|done|]. eauto.
  - unfold entry, row. simpl.
    rewrite (nth_lookup_Some _ _ _ _ Hrb), (nth_lookup_Some _ _ _ _ Hrbp).
    by rewrite (nth_lookup_Some _ _ _ _ Hbk).
Qed.

(** X15. With a single candidate for each row and a batch of [B >= 2] rows,
    [short_bias.squeeze()] also drops the candidate axis, and the rank-two
    branch of a shard returns a [(B, B)] matrix instead of [(B, 1)]: the
    logit of row [i] is on the diagonal, and entry [(i, p)] carries the
    score of row [i] with the bias of the candidate of row [p]. *)
Theorem LinearChunk_forward_2d_single_candidate_widens
    (exp : Q → Q) (input_size output_size : Z) (dev : Device)
    (values : LinearChunk.Init) (c : LinearChunk.t) (embed : Matrix)
    (ids : IdMatrix) :
  LinearChunk.init input_size output_size dev values = Ok c →
  ncols embed = (3 * Z.to_nat input_size)%nat →
  wf_ids ids → id_ncols ids = 1%nat → length (id_rows ids) = nrows embed →
  (2 ≤ nrows embed)%nat →
  Forall (Forall (valid_embedding_id (Z.to_nat output_size))) (id_rows ids) →
  ∃ x z,
    LinearChunk.forward exp c (embed, Labels2D ids) = Ok x ∧
    LinearChunk.forward exp c (embed, NoLabels) = Ok z ∧
    nrows x = nrows embed ∧ ncols x = nrows embed ∧
    ∀ i p id_i id_p,
      id_rows ids !! i = Some [id_i] → id_rows ids !! p = Some [id_p] →
      entry x i i = entry z i (Z.to_nat id_i) ∧
      (entry x i p + nth (Z.to_nat id_i) (LinearChunk.bias c) 0
       == entry z i (Z.to_nat id_i) + nth (Z.to_nat id_p) (LinearChunk.bias c) 0)%Q.
Proof.
  intros Hc He Hwf HK HB HB2 Hvalid.
  apply LinearChunk_init_Ok in Hc as (Ho & Hin & Hshape & _ & _).
  set (o := Z.to_nat output_size) in *. set (d := Z.to_nat input_size) in *.
  assert (0 < d)%nat as Hd by lia.
  destruct (LinearChunk_forward_2d_scores exp c embed o d ids)
    as (x0 & sb & Hfw & Hx0r & Hx0c & Hsbl & Hentries); try done; try lia.
  pose proof Hshape as (Hw & Hwr & Hwc & Ha & Har & Hac & Hb).
  assert (Forall (λ r, length r = d) (rows (LinearChunk.weight c))) as Hwd
    by (by rewrite <- Hwc).
  assert (Forall (λ r, length r = 3%nat) (rows (LinearChunk.attention_weights c))) as Ha3
    by (by rewrite <- Hac).
  destruct (project_shape exp embed (rows (LinearChunk.weight c))
              (rows (LinearChunk.attention_weights c)) d o)
    as (zp & Hzp & Hzpr & Hzpc & _); try done.
  destruct (broadcast2_row_vector Qplus zp (LinearChunk.bias c))
    as (z & Hz & Hzr & Hzc & _); [congruence|].
  rewrite HK in *. set (sbm := {| ncols := 1; rows := sb |}) in *.
  assert (squeeze_all sbm = transpose sbm) as Hsq.
  { unfold squeeze_all. rewrite decide_True; [done|].
    unfold nrows. simpl. split; [done|lia]. }
  rewrite Hsq in Hfw.
  destruct (transpose_shape sbm) as (Htr & Htc & _).
  change (ncols sbm) with 1%nat in Htr.
  change (nrows sbm) with (length sb) in Htc. rewrite Hsbl in Htc.
  set (B := nrows embed) in *.
  assert (broadcast2 Qplus x0 (transpose sbm)
          = Ok (tabulate B B (λ i j,
                  entry x0 (bidx B i) (bidx 1 j)
                  + entry (transpose sbm) (bidx 1 i) (bidx B j))%Q)) as Hbc.
  { unfold broadcast2. rewrite Hx0r, Htr, Hx0c, Htc.
    rewrite broadcast_dim_one_r, bind_Ok_l.
    unfold broadcast_dim at 1. rewrite decide_False by lia.
    rewrite decide_True by done. by rewrite bind_Ok_l. }
  rewrite Hbc in Hfw.
  eexists _, z. split; [exact Hfw|]. split.
  { unfold LinearChunk.forward. simpl. by rewrite Hzp, bind_Ok_l. }
  rewrite tabulate_nrows. split; [done|]. split; [done|].
  intros i p id_i id_p Hi Hp.
  assert (i < B)%nat as HiB by (rewrite <- HB; by apply lookup_lt_Some in Hi).
  assert (p < B)%nat as HpB by (rewrite <- HB; by apply lookup_lt_Some in Hp).
  destruct (Hentries i 0%nat [id_i] id_i zp Hi eq_refl Hzp) as [Hsi Hbi].
  destruct (Hentries p 0%nat [id_p] id_p zp Hp eq_refl Hzp) as [_ Hbp].
  assert (Z.to_nat id_i < o)%nat as Hki.
  { pose proof (Forall_lookup_1 _ _ _ _ Hvalid Hi) as Hv.
    apply Forall_cons in Hv as [Hv _]. unfold valid_embedding_id in Hv. lia. }
  rewrite !tabulate_entry by done.
  rewrite !(bidx_lt B) by done. unfold bidx. simpl.
  rewrite !entry_transpose by (simpl; unfold nrows; simpl; lia).
  rewrite Hsi, Hbi, Hbp.
  rewrite (entry_broadcast2_row_vector _ _ _ _ _ _ Hz) by (fold B; lia).
  split; [done|]. ring.
Qed.

Lemma LinearChunk_forward_2d_single_candidate_widens_witness :
  ∃ x z,
    LinearChunk.forward sample_exp sample_shard
      (sample_embed, Labels2D {| id_ncols := 1; id_rows := [[0]; [1]] |}) = Ok x ∧
    LinearChunk.forward sample_exp sample_shard (sample_embed, NoLabels) = Ok z ∧
    nrows x = nrows sample_embed ∧ ncols x = nrows sample_embed ∧
    ∀ i p id_i id_p,
      [[0]; [1]] !! i = Some [id_i] → [[0]; [1]] !! p = Some [id_p] →
      entry x i i = entry z i (Z.to_nat id_i) ∧
      (entry x i p + nth (Z.to_nat id_i) (LinearChunk.bias sample_shard) 0
       == entry z i (Z.to_nat id_i)
          + nth (Z.to_nat id_p) (LinearChunk.bias sample_shard) 0)%Q.
Proof.
  apply (LinearChunk_forward_2d_single_candidate_widens sample_exp 1 2 "cpu"
           (sample_values 0) sample_shard sample_embed
           {| id_ncols := 1; id_rows := [[0]; [1]] |}).
  - reflexivity.
  - reflexivity.
  - repeat constructor.
  - reflexivity.
  - reflexivity.
  - change (2 ≤ 2)%nat. lia.
  - unfold valid_embedding_id.
    constructor; [constructor; [lia|constructor]|].
    constructor; [constructor; [lia|constructor]|]. constructor.
Defined.

(** ** Dimensions of the SAINT and SAGE encoders *)

Lemma xavier_parameter_Ok (r c : Z) (values : nat → nat → Q) (w : Matrix) :
  xavier_parameter r c values = Ok w →
  0 ≤ r ∧ 0 ≤ c ∧ nrows w = Z.to_nat r ∧ ncols w = Z.to_nat c ∧ wf_matrix w.
Proof.
  unfold xavier_parameter. repeat case_decide; try done. intros [= <-].
  rewrite tabulate_nrows. split_and!; try done; try lia. apply tabulate_wf.
Qed.

(** X16. A SAINT encoder built for [embed_dim] dimensions returns
    [2 * (embed_dim // 2)] of them, one less than asked for when
    [embed_dim] is odd; it needs self features and aggregated neighbour
    features of width [intermediate_dim] and raises a shape error on any
    other width. *)
Theorem SaintEncoder_output_dimensions
    {A} (features : A → result Matrix) (aggregator : A → nat → result Matrix)
    (num_sample intermediate_dim embed_dim : Z) (activation_fn : Q → Q)
    (values_1 values_2 : nat → nat → Q) (enc : SaintEncoder.t A)
    (context : Context A) (sf nf : Matrix) :
  SaintEncoder_init features aggregator num_sample intermediate_dim embed_dim
    activation_fn values_1 values_2 = Ok enc →
  context_shapes features aggregator context sf nf →
  (Z.of_nat (ncols sf) = intermediate_dim ∧ Z.of_nat (ncols nf) = intermediate_dim →
     ∃ y, SaintEncoder.forward enc context = Ok y ∧
          Z.of_nat (nrows y) = 2 * (embed_dim `div` 2) ∧
          ncols y = node_count context ∧
          (Z.of_nat (nrows y) = embed_dim ↔ embed_dim `mod` 2 = 0)) ∧
  (¬ (Z.of_nat (ncols sf) = intermediate_dim ∧
      Z.of_nat (ncols nf) = intermediate_dim) →
     SaintEncoder.forward enc context = Err ShapeError).
Proof.
  unfold SaintEncoder_init.
  intros (w1 & Hw1 & H)%bind_Ok Hctx. apply bind_Ok in H as (w2 & Hw2 & [= <-]).
  apply xavier_parameter_Ok in Hw1 as (Hr & Hc & Hw1r & Hw1c & _).
  apply xavier_parameter_Ok in Hw2 as (_ & _ & Hw2r & Hw2c & _).
  split.
  - intros [Hsf Hnf].
    destruct (SaintEncoder_forward_columns
                (SaintEncoder.mk A features aggregator num_sample activation_fn w1 w2)
                context sf nf) as (y & Hy & Hyr & Hyc & _);
      [done|simpl; lia|simpl; lia|].
    exists y. simpl in Hyr. split; [done|].
    pose proof (Z.div_mod embed_dim 2 ltac:(lia)).
    pose proof (Z.mod_pos_bound embed_dim 2 ltac:(lia)).
    split_and!; [lia|done|lia].
  - intros Hbad. destruct Hctx as (Hf & Hag & _ & _ & _ & _).
    unfold SaintEncoder.forward. simpl. rewrite Hag, bind_Ok_l, Hf, bind_Ok_l.
    destruct (transpose_shape sf) as (Hsr & _). destruct (transpose_shape nf) as (Hnr & _).
    destruct (decide (ncols w1 = nrows (transpose sf))) as [H1|H1].
    + destruct (mm_shape w1 (transpose sf) H1) as (a & -> & _). rewrite bind_Ok_l.
      assert (mm w2 (transpose nf) = Err ShapeError) as ->; [|reflexivity].
      unfold mm. rewrite decide_False; [done|]. intros H2. apply Hbad. lia.
    + assert (mm w1 (transpose sf) = Err ShapeError) as ->; [|reflexivity].
      unfold mm. by rewrite decide_False.
Qed.

(** X17. A SAGE encoder built for [embed_dim] dimensions returns exactly
    [embed_dim] of them, for self features and aggregated neighbour
    features whose widths add up to [2 * intermediate_dim]; any other
    total width raises a shape error. *)
Theorem SageEncoder_output_dimensions
    {A} (features : A → result Matrix) (aggregator : A → nat → result Matrix)
    (num_sample intermediate_dim embed_dim : Z) (activation_fn : Q → Q)
    (values : nat → nat → Q) (enc : SageEncoder.t A)
    (context : Context A) (sf nf : Matrix) :
  SageEncoder_init features aggregator num_sample intermediate_dim embed_dim
    activation_fn values = Ok enc →
  context_shapes features aggregator context sf nf →
  (Z.of_nat (ncols sf + ncols nf) = 2 * intermediate_dim →
     ∃ y, SageEncoder.forward enc context = Ok y ∧
          Z.of_nat (nrows y) = embed_dim ∧ ncols y = node_count context) ∧
  (Z.of_nat (ncols sf + ncols nf) ≠ 2 * intermediate_dim →
     SageEncoder.forward enc context = Err ShapeError).
Proof.
  unfold SageEncoder_init. intros (w & Hw & [= <-])%bind_Ok Hctx.
  apply xavier_parameter_Ok in Hw as (Hr & Hc & Hwr & Hwc & Hww).
  split.
  - intros Hwidth.
    destruct (SageEncoder_forward_columns
                (SageEncoder.mk A features aggregator num_sample activation_fn w)
                context sf nf) as (y & Hy & Hyr & Hyc & _);
      [done|done|simpl; lia|].
    exists y. simpl in Hyr. split_and!; [done|lia|done].
  - intros Hbad. destruct Hctx as (Hf & Hag & _ & _ & Hsr & Hnr).
    unfold SageEncoder.forward.
    cbn [SageEncoder.aggregator SageEncoder.features SageEncoder.weight
         SageEncoder.activation_fn].
    rewrite Hag, bind_Ok_l, Hf, bind_Ok_l.
    destruct (cat1_Ok [sf; nf] (node_count context)) as (cmb & Hcmb & _ & Hcc & _);
      [done|by repeat constructor|].
    rewrite Hcmb, bind_Ok_l.
    destruct (transpose_shape cmb) as (Htr & _).
    unfold mm. rewrite decide_False; [done|]. simpl in Hcc. lia.
Qed.

Lemma SaintEncoder_output_dimensions_witness :
  ∃ enc,
    SaintEncoder_init sample_features (MeanAggregator.forward sample_features)
      2 3 5 relu (λ i j, inject_Z (Z.of_nat (i + j))) (λ i j, inject_Z (Z.of_nat i))
      = Ok enc ∧
    (Z.of_nat (ncols (node_feats sample_context)) = 3 ∧
     Z.of_nat (ncols sample_aggregated) = 3 →
       ∃ y, SaintEncoder.forward enc sample_context = Ok y ∧
            Z.of_nat (nrows y) = 2 * (5 `div` 2) ∧
            ncols y = node_count sample_context ∧
            (Z.of_nat (nrows y) = 5 ↔ 5 `mod` 2 = 0)) ∧
    (¬ (Z.of_nat (ncols (node_feats sample_context)) = 3 ∧
        Z.of_nat (ncols sample_aggregated) = 3) →
       SaintEncoder.forward enc sample_context = Err ShapeError).
Proof.
  eexists. split; [reflexivity|].
  apply (SaintEncoder_output_dimensions sample_features
           (MeanAggregator.forward sample_features) 2 3 5 relu
           (λ i j, inject_Z (Z.of_nat (i + j))) (λ i j, inject_Z (Z.of_nat i))
           _ sample_context (node_feats sample_context) sample_aggregated).
  - reflexivity.
  - unfold context_shapes. split_and!; try reflexivity; repeat constructor.
Defined.

Lemma SageEncoder_output_dimensions_witness :
  ∃ enc,
    SageEncoder_init sample_features (MeanAggregator.forward sample_features)
      2 3 4 relu (λ i j, inject_Z (Z.of_nat (i + j))) = Ok enc ∧
    (Z.of_nat (ncols (node_feats sample_context) + ncols sample_aggregated) = 2 * 3 →
       ∃ y, SageEncoder.forward enc sample_context = Ok y ∧
            Z.of_nat (nrows y) = 4 ∧ ncols y = node_count sample_context) ∧
    (Z.of_nat (ncols (node_feats sample_context) + ncols sample_aggregated) ≠ 2 * 3 →
       SageEncoder.forward enc sample_context = Err ShapeError).
Proof.
  eexists. split; [reflexivity|].
  apply (SageEncoder_output_dimensions sample_features
           (MeanAggregator.forward sample_features) 2 3 4 relu
           (λ i j, inject_Z (Z.of_nat (i + j)))
           _ sample_context (node_feats sample_context) sample_aggregated).
  - reflexivity.
  - unfold context_shapes. split_and!; try reflexivity; repeat constructor.
Defined.

(** ** What a dense logit computes *)

Lemma sumQ_app (l1 l2 : list Q) : (sumQ (l1 ++ l2) == sumQ l1 + sumQ l2)%Q.
Proof.
  induction l1 as [|a l1 IH]; simpl; [ring|]. rewrite IH. ring.
Qed.

Lemma sumQ_ext_Qeq (f g : nat → Q) (l : list nat) :
  (∀ k, k ∈ l → (f k == g k)%Q) → (sumQ (map f l) == sumQ (map g l))%Q.
Proof.
  induction l as [|a l IH]; intros Hfg; simpl; [reflexivity|].
  rewrite (Hfg a) by (by left). rewrite IH; [reflexivity|].
  intros k Hk. apply Hfg. by right.
Qed.

Lemma sumQ_scale (g : nat → Q) (s : Q) (l : list nat) :
  (sumQ (map (λ j, g j * s) l) == s * sumQ (map g l))%Q.
Proof.
  induction l as [|a l IH]; simpl; [ring|]. rewrite IH. ring.
Qed.

Lemma sumQ_blocks (f : nat → Q) (n d : nat) :
  (sumQ (map f (seq 0 (n * d)))
   == sumQ (map (λ h, sumQ (map (λ j, f (h * d + j)%nat) (seq 0 d))) (seq 0 n)))%Q.
Proof.
  induction n as [|n IH]; [reflexivity|].
  replace (S n * d)%nat with (n * d + d)%nat by lia.
  rewrite seq_app, map_app, sumQ_app, IH, seq_S, map_app, sumQ_app. simpl.
  replace (seq (n * d) d) with (map (Nat.add (n * d)) (seq 0 d)).
  - rewrite map_map. ring.
  - transitivity (seq (n * d + 0) d); [apply (fmap_add_seq (n * d) 0 d)|].
    by rewrite Nat.add_0_r.
Qed.

Lemma label_block_entry exp (wl al : list Q) (h j : nat) :
  length al = 3%nat → (h < 3)%nat → (j < length wl)%nat →
  nth (h * length wl + j) (label_block exp wl al) 0%Q
  = (nth j wl 0 * nth h (softmax_row exp al) 0)%Q.
Proof.
  intros Hal Hh Hj. unfold label_block.
  assert (h < length (softmax_row exp al))%nat as Hh'
    by (by rewrite softmax_row_length, Hal).
  destruct (lookup_lt_is_Some_2 _ _ Hh') as [s Hs].
  destruct (lookup_lt_is_Some_2 _ _ Hj) as [w Hw].
  rewrite (nth_lookup_Some _ _ _ _ Hs), (nth_lookup_Some _ _ _ _ Hw).
  apply nth_lookup_Some.
  apply (join_lookup_Some_same_length' (length wl)).
  - apply Forall_fmap, Forall_forall. intros ac _. simpl. by rewrite length_map.
  - done.
  - exists (map (λ wj, wj * s)%Q wl). split.
    + by rewrite list_lookup_fmap, Hs.
    + by rewrite list_lookup_fmap, Hw.
Qed.

(** X18. The dense logit of a label mixes three scores with the softmax of
    the label's attention weights: the embedding is read as three blocks of
    [input_size] columns (one for each hop), each block is scored against
    the label's weight row, and
    [logit = sum_h softmax(attention)[h] * <block_h, weight> + bias]. *)
Theorem LinearChunk_dense_logit_mixes_three_blocks
    (exp : Q → Q) (input_size output_size : Z) (dev : Device)
    (values : LinearChunk.Init) (c : LinearChunk.t) (embed z : Matrix)
    (b l : nat) (wl al : list Q) :
  LinearChunk.init input_size output_size dev values = Ok c →
  ncols embed = (3 * Z.to_nat input_size)%nat →
  LinearChunk.forward exp c (embed, NoLabels) = Ok z →
  (b < nrows embed)%nat →
  rows (LinearChunk.weight c) !! l = Some wl →
  rows (LinearChunk.attention_weights c) !! l = Some al →
  (entry z b l
   == sumQ (map (λ h,
        nth h (softmax_row exp al) 0
        * sumQ (map (λ j, entry embed b (h * Z.to_nat input_size + j) * nth j wl 0)
                  (seq 0 (Z.to_nat input_size))))
        (seq 0 3))
      + nth l (LinearChunk.bias c) 0)%Q.
Proof.
  intros Hc He Hz Hb Hwl Hal.
  apply LinearChunk_init_Ok in Hc as (Ho & Hin & Hshape & _ & _).
  set (d := Z.to_nat input_size) in *.
  assert (0 < d)%nat as Hd by lia.
  pose proof Hshape as (Hw & Hwr & Hwc & Ha & Har & Hac & Hbias).
  assert (Forall (λ r, length r = d) (rows (LinearChunk.weight c))) as Hwd
    by (by rewrite <- Hwc).
  assert (Forall (λ r, length r = 3%nat) (rows (LinearChunk.attention_weights c)))
    as Ha3 by (by rewrite <- Hac).
  assert (length wl = d) as Hwll by (by eapply (Forall_lookup_1 _ _ _ _ Hwd)).
  assert (length al = 3%nat) as Hall by (by eapply (Forall_lookup_1 _ _ _ _ Ha3)).
  assert (l < Z.to_nat output_size)%nat as Hl.
  { rewrite <- Hwr. by apply lookup_lt_Some in Hwl. }
  unfold LinearChunk.forward in Hz. simpl in Hz.
  apply bind_Ok in Hz as (zp & Hzp & Hz).
  destruct (project_shape exp embed (rows (LinearChunk.weight c))
              (rows (LinearChunk.attention_weights c)) d (Z.to_nat output_size))
    as (zp' & Hzp' & Hzpr & Hzpc & _); try done.
  assert (zp' = zp) as -> by congruence.
  rewrite (entry_broadcast2_row_vector _ _ _ _ _ _ Hz) by lia.
  rewrite (project_entry exp embed (rows (LinearChunk.weight c))
             (rows (LinearChunk.attention_weights c)) d zp b l wl al) by done.
  apply Qplus_comp; [|reflexivity].
  rewrite He, sumQ_blocks. apply sumQ_ext_Qeq. intros h Hh%elem_of_seq.
  rewrite <- sumQ_scale. apply sumQ_ext_Qeq. intros j Hj%elem_of_seq.
  rewrite <- Hwll. rewrite label_block_entry by lia. ring.
Qed.

Lemma LinearChunk_dense_logit_mixes_three_blocks_witness :
  ∃ z,
    LinearChunk.forward sample_exp sample_shard (sample_embed, NoLabels) = Ok z ∧
    (entry z 1 1
     == sumQ (map (λ h,
          nth h (softmax_row sample_exp [0; 1; 2]) 0
          * sumQ (map (λ j, entry sample_embed 1 (h * Z.to_nat 1 + j) * nth j [1%Q] 0)
                    (seq 0 (Z.to_nat 1))))
          (seq 0 3))
        + nth 1 (LinearChunk.bias sample_shard) 0)%Q.
Proof.
  eexists. split; [vm_compute; reflexivity|].
  apply (LinearChunk_dense_logit_mixes_three_blocks sample_exp 1 2 "cpu"
           (sample_values 0) sample_shard sample_embed _ 1 1 [1%Q] [0; 1; 2]%Q);
    try reflexivity.
  change (1 < 2)%nat. lia.
Defined.
